(** * MASS: multi-source scraping — coordinator, merger, registry, enrichment

    A shallow embedding of the Python sources

      - [link_registry.py]               (class [LinkRegistry])
      - [src/scrapers/base.py]           ([BaseScraper.format_result])
      - [src/scrapers/coordinator.py]    ([ScraperCoordinator.scrape])
      - [app/scraper.py]                 ([MultiSourceScraper.scrape])
      - [src/agents/processor.py]        ([ContentProcessor])

    Python dictionaries with string keys are finite maps ([gmap string _]),
    Python sets are [gset]s, raised exceptions are an explicit error
    result, and mutable objects are threaded through as values.

    What lies outside the process is an argument of the operation that
    meets it: the readings of the clock, the outcome of every adapter task
    as [asyncio.gather] reports it, and the reply of the remote service
    for every item.  The write of the registry to its file is left out. *)

From Stdlib Require Import ZArith Ascii String List Lia.
From stdpp Require Import base option list gmap strings pretty fin_maps fin_sets.

Local Open Scope string_scope.
Local Open Scope list_scope.
Local Open Scope Z_scope.
Local Set Warnings "-register-all,-clear-no-such-hyp".

(** ** Python values *)

Module Py.

(** The values that occur in the dictionaries of this program: JSON-like
    data with integer numbers.  Strings are byte strings; the text handled
    here is taken to be ASCII, so that [len] is [String.length]. *)
Inductive value : Type :=
  | VNone
  | VBool (b : bool)
  | VInt (n : Z)
  | VStr (s : string)
  | VList (l : list value)
  | VDict (d : gmap string value).

(** [bool(v)]: Python truthiness. *)
Definition truthy (v : value) : bool :=
  match v with
  | VNone => false
  | VBool b => b
  | VInt n => negb (n =? 0)
  | VStr s => negb (String.eqb s EmptyString)
  | VList l => match l with [] => false | _ => true end
  | VDict d => negb (bool_decide (d = ∅))
  end.

(** Exceptions that the modelled code can raise. *)
Inductive exn : Type :=
  | KeyError
  | TypeError
  | AttributeError.

(** Outcome of running a piece of Python code. *)
Inductive res (A : Type) : Type :=
  | Ok (a : A)
  | Raise (e : exn).
Global Arguments Ok {A} a.
Global Arguments Raise {A} e.

(** Sequencing: an exception ends the computation.  With these instances
    [x ← m; k] reads "run [m], bind its value to [x], go on with [k]". *)
#[global] Instance res_ret : MRet res := λ A a, Ok a.
#[global] Instance res_bind : MBind res := λ A B k m,
  match m with
  | Ok a => k a
  | Raise e => Raise e
  end.

#[global] Instance res_fmap : FMap res := λ A B f m,
  match m with
  | Ok a => Ok (f a)
  | Raise e => Raise e
  end.

(** A Python [dict] with string keys. *)
Abbreviation dict := (gmap string value).

(** [d[k]]. *)
Definition getitem (d : dict) (k : string) : res value :=
  match d !! k with
  | Some v => Ok v
  | None => Raise KeyError
  end.

(** [d.get(k, default)]. *)
Definition get (d : dict) (k : string) (default : value) : value :=
  match d !! k with
  | Some v => v
  | None => default
  end.

(** Members of a Python [set]: hashable values up to Python's [==], under
    which [True == 1] and [False == 0]. *)
Inductive hkey : Type :=
  | HNone
  | HNum (n : Z)
  | HStr (s : string).

#[global] Instance hkey_eq_dec : EqDecision hkey.
Proof. solve_decision. Defined.

#[global] Instance hkey_countable : Countable hkey.
Proof.
  refine (inj_countable'
    (λ k, match k with
          | HNone => inl ()
          | HNum n => inr (inl n)
          | HStr s => inr (inr s)
          end)
    (λ x, match x with
          | inl _ => HNone
          | inr (inl n) => HNum n
          | inr (inr s) => HStr s
          end) _).
  by intros [].
Defined.

(** [hash(v)] together with equality: lists and dictionaries are
    unhashable. *)
Definition hash_key (v : value) : res hkey :=
  match v with
  | VNone => Ok HNone
  | VBool b => Ok (HNum (if b then 1 else 0))
  | VInt n => Ok (HNum n)
  | VStr s => Ok (HStr s)
  | VList _ => Raise TypeError
  | VDict _ => Raise TypeError
  end.

(** A [for] loop whose body may raise: the first exception ends it. *)
Fixpoint for_each {S A} (body : S → A → res S) (s : S) (l : list A) : res S :=
  match l with
  | [] => Ok s
  | x :: l' => s' ← body s x; for_each body s' l'
  end.

End Py.

Export Py.

(** ** Python string methods *)

Module PyStr.

(** [c.isspace()] on ASCII: tab to carriage return, the four separators
    [\x1c] to [\x1f], and the space. *)
Definition isspace (c : ascii) : bool :=
  let n := nat_of_ascii c in
  ((9 <=? n) && (n <=? 13) || (28 <=? n) && (n <=? 32))%nat.

Definition lower_char (c : ascii) : ascii :=
  let n := nat_of_ascii c in
  if ((65 <=? n) && (n <=? 90))%nat then ascii_of_nat (n + 32) else c.

(** [s.lower()]. *)
Fixpoint lower (s : string) : string :=
  match s with
  | EmptyString => EmptyString
  | String c s' => String (lower_char c) (lower s')
  end.

(** [s.split()]: the maximal runs of non-whitespace characters; [cur] is
    the run being read. *)
Fixpoint split_go (cur : string) (s : string) : list string :=
  match s with
  | EmptyString =>
      match cur with
      | EmptyString => []
      | _ => [cur]
      end
  | String c s' =>
      if isspace c
      then match cur with
           | EmptyString => split_go EmptyString s'
           | _ => cur :: split_go EmptyString s'
           end
      else split_go (cur +:+ String c EmptyString) s'
  end.

Definition split (s : string) : list string := split_go EmptyString s.

Fixpoint lstrip (s : string) : string :=
  match s with
  | EmptyString => EmptyString
  | String c s' => if isspace c then lstrip s' else s
  end.

Fixpoint rstrip (s : string) : string :=
  match s with
  | EmptyString => EmptyString
  | String c s' =>
      match rstrip s' with
      | EmptyString => if isspace c then EmptyString else String c EmptyString
      | r => String c r
      end
  end.

(** [s.strip()]. *)
Definition strip (s : string) : string := rstrip (lstrip s).

(** [sub in s]. *)
Fixpoint contains (sub s : string) : bool :=
  String.prefix sub s ||
  match s with
  | EmptyString => false
  | String _ s' => contains sub s'
  end.

(** [s.count(sub)]: the occurrences of [sub] in [s] found from left to
    right without overlap; after a match the next [skip] characters belong
    to it and are passed over. *)
Fixpoint count_go (sub : string) (skip : nat) (s : string) : nat :=
  match s with
  | EmptyString =>
      match skip with
      | O => if String.prefix sub EmptyString then 1%nat else 0%nat
      | S _ => 0%nat
      end
  | String _ s' =>
      match skip with
      | S k => count_go sub k s'
      | O =>
          if String.prefix sub s
          then S (count_go sub (String.length sub - 1) s')
          else count_go sub 0 s'
      end
  end.

Definition count (s sub : string) : nat := count_go sub 0 s.

End PyStr.

(** ** link_registry.py *)

Module LinkRegistry.

(** A registry entry, [{"script": script_name, "timestamp": timestamp}]. *)
Record entry : Type := Entry { script : string; timestamp : string }.

(** [self.links]: the ["links"] dictionary (URL to entry) and the
    ["metadata"] block.  Timestamps are ISO strings read from the clock;
    the clock readings are arguments of the operations that take them.
    The write of [self.links] to [registry_file] does not change
    [self.links] and is left out. *)
Record registry : Type := Registry {
  links : gmap string entry;
  created : string;
  last_updated : string
}.

(** A fresh registry, as built by [_load_registry] when no file exists
    and by [clear_registry]. *)
Definition new_registry (now : string) : registry :=
  {| links := ∅; created := now; last_updated := now |}.

(** Elements of the [urls] argument: a string, or [None]. *)
Definition url_truthy (u : option string) : bool :=
  match u with
  | Some s => negb (String.eqb s EmptyString)
  | None => false
  end.

(** [_save_registry]: stamps [last_updated]. *)
Definition _save_registry (now : string) (r : registry) : registry :=
  {| links := links r; created := created r; last_updated := now |}.

(** Body of the [for url in urls] loop of [register_links]. *)
Definition register_step (script_name timestamp : string)
    (st : gmap string entry * nat) (u : option string) : gmap string entry * nat :=
  match u with
  | Some s =>
      if url_truthy u && bool_decide (st.1 !! s = None)
      then (<[s := Entry script_name timestamp]> st.1, S st.2)
      else st
  | None => st
  end.

(** [register_links(urls, script_name)]; [now] is the clock reading taken
    before the loop, [now_saved] the one taken by [_save_registry]. *)
Definition register_links (r : registry) (urls : list (option string))
    (script_name : string) (now now_saved : string) : registry * nat :=
  match urls with
  | [] => (r, 0%nat)
  | _ =>
      let st := foldl (register_step script_name now) (links r, 0%nat) urls in
      (_save_registry now_saved
         {| links := st.1; created := created r; last_updated := last_updated r |},
       st.2)
  end.

(** Body of the [for url in urls] loop of [filter_new_links]. *)
Definition filter_step (r : registry) (script_name : option string)
    (filtered_urls : list (option string)) (u : option string) : list (option string) :=
  match u with
  | Some s =>
      if negb (url_truthy u) then filtered_urls
      else
        match links r !! s with
        | None => filtered_urls ++ [u]
        | Some e =>
            if url_truthy script_name && bool_decide (Some (script e) = script_name)
            then filtered_urls ++ [u]
            else filtered_urls
        end
  | None => filtered_urls
  end.

(** [filter_new_links(urls, script_name=None)]. *)
Definition filter_new_links (r : registry) (urls : list (option string))
    (script_name : option string) : list (option string) :=
  match urls with
  | [] => []
  | _ => foldl (filter_step r script_name) [] urls
  end.

(** [get_stats()["total_links"]]. *)
Definition total_links (r : registry) : nat := size (links r).

(** [clear_registry]. *)
Definition clear_registry (now now_saved : string) : registry :=
  _save_registry now_saved (new_registry now).

(** *** Predicates used to state the registry's properties *)

(** The URLs that [filter_new_links] lets through: non-empty, and either
    absent from the registry or registered by the non-empty registrant
    [script_name]. *)
Definition kept (r : registry) (script_name : option string)
    (u : option string) : Prop :=
  ∃ s, u = Some s ∧ s ≠ EmptyString ∧
    (links r !! s = None ∨
     ∃ e, links r !! s = Some e ∧ script_name = Some (script e) ∧ script e ≠ EmptyString).

(** The same test as a boolean function. *)
Definition keptb (r : registry) (script_name : option string)
    (u : option string) : bool :=
  match u with
  | Some s =>
      url_truthy u &&
      match links r !! s with
      | None => true
      | Some e => url_truthy script_name && bool_decide (Some (script e) = script_name)
      end
  | None => false
  end.

(** URLs that [name] may re-see: non-empty, and either not registered or
    registered by [name] itself. *)
Definition own_or_new (r : registry) (name : string) (u : option string) : Prop :=
  ∃ s, u = Some s ∧ s ≠ EmptyString ∧
    (links r !! s = None ∨ ∃ e, links r !! s = Some e ∧ script e = name).

(** URLs that are not registered under [name]. *)
Definition not_registered_by (r : registry) (name : string)
    (u : option string) : Prop :=
  ∀ s e, u = Some s → links r !! s = Some e → script e ≠ name.

End LinkRegistry.

(** ** src/scrapers/base.py *)

Module BaseScraper.

(** The allow-list of optional fields, in the order of the source. *)
Definition optional_fields : list string :=
  ["description"; "author"; "published_date"; "duration"; "views";
   "page_number"; "metadata"].

(** [source or self.name] for [source : Optional[str]]. *)
Definition source_or (source : option string) (self_name : string) : string :=
  match source with
  | Some s => if String.eqb s EmptyString then self_name else s
  | None => self_name
  end.

(** Body of [for field in optional_fields]:
    [if field in data and data[field]: result[field] = data[field]]. *)
Definition copy_field (data : dict) (result : dict) (field : string) : dict :=
  match data !! field with
  | Some v => if truthy v then <[field := v]> result else result
  | None => result
  end.

(** The dictionary literal that [format_result] starts from. *)
Definition required_fields (self_name : string) (data : dict)
    (source : option string) : dict :=
  <["source" := VStr (source_or source self_name)]>
  (<["thumbnail" := get data "thumbnail" (VStr EmptyString)]>
  (<["link" := get data "link" (VStr EmptyString)]>
  (<["title" := get data "title" (VStr "Untitled Content")]> ∅))).

(** [BaseScraper.format_result(self, data, source=None)], for an adapter
    whose [self.name] is [self_name]. *)
Definition format_result (self_name : string) (data : dict)
    (source : option string) : dict :=
  let result := required_fields self_name data source in
  foldl (copy_field data) result optional_fields.

End BaseScraper.

(** ** Deduplication by [link], shared by both coordinators *)

Module Dedup.

(** The set member tested by [item['link'] not in seen_urls]: looking up
    ['link'] raises [KeyError] on an item without it, hashing raises
    [TypeError] on a list or a dictionary. *)
Definition link_key (item : dict) : res hkey :=
  v ← getitem item "link"; hash_key v.

(** Body of the loop
<<
    for item in ...:
        if item['link'] not in seen_urls:
            seen_urls.add(item['link'])
            combined_results.append(item)
>>
    on the pair of the result list and [seen_urls]. *)
Definition add_item (st : list dict * gset hkey) (item : dict)
    : res (list dict * gset hkey) :=
  k ← link_key item;
  if bool_decide (k ∉ st.2)
  then Ok (st.1 ++ [item], {[k]} ∪ st.2)
  else Ok st.

(** Items with a hashable ['link']. *)
Definition has_link (item : dict) : Prop := ∃ k, link_key item = Ok k.

(** The keys of a list of items. *)
Fixpoint key_set (l : list dict) : gset hkey :=
  match l with
  | [] => ∅
  | x :: l' =>
      match link_key x with
      | Ok k => {[k]} ∪ key_set l'
      | Raise _ => key_set l'
      end
  end.

(** The items that survive when the keys in [seen] are already taken:
    each item whose key was not met before, in input order. *)
Fixpoint first_seen (seen : gset hkey) (l : list dict) : list dict :=
  match l with
  | [] => []
  | x :: l' =>
      match link_key x with
      | Ok k =>
          if bool_decide (k ∉ seen)
          then x :: first_seen ({[k]} ∪ seen) l'
          else first_seen seen l'
      | Raise _ => first_seen seen l'
      end
  end.

End Dedup.

(** ** src/scrapers/coordinator.py *)

Module Coordinator.
Import Dedup.

(** One entry of the list returned by [asyncio.gather] with
    [return_exceptions=True]: the list an adapter returned, or the
    exception it raised. *)
Inductive settled : Type :=
  | Returned (result : list dict)
  | Failed (message : string).

(** [self.scrapers[i].name] with [results[i]]: [gather] returns one entry
    per task, in the order of [self.scrapers]. *)
Record task : Type := Task { name : string; outcome : settled }.

(** The response metadata.  [scraped_at] is the clock reading;
    [execution_time], a rounded float, is left out. *)
Record run_metadata : Type := RunMetadata {
  keywords : string;
  target_domain : string;
  scraped_at : string;
  total_results : nat;
  sources_used : list string
}.

Record response : Type := Response {
  results : list dict;
  metadata : run_metadata
}.

(** The three accumulators of the fan-in loop. *)
Record acc : Type := Acc {
  combined_results : list dict;
  sources : list string;
  seen_urls : gset hkey
}.

(** Body of [for i, result in enumerate(results)]. *)
Definition scrape_step (a : acc) (t : task) : res acc :=
  match outcome t with
  | Failed _ => Ok a
  | Returned result =>
      let sources' :=
        match result with
        | [] => sources a
        | _ => sources a ++ [name t]
        end in
      st ← for_each add_item (combined_results a, seen_urls a) result;
      Ok {| combined_results := st.1; sources := sources'; seen_urls := st.2 |}
  end.

(** [ScraperCoordinator.scrape], from the settled tasks on. *)
Definition scrape (kw : string) (domain : option string) (now : string)
    (tasks : list task) : res response :=
  a ← for_each scrape_step
        {| combined_results := []; sources := []; seen_urls := ∅ |} tasks;
  Ok {| results := combined_results a;
        metadata := {| keywords := kw;
                       target_domain := default EmptyString domain;
                       scraped_at := now;
                       total_results := length (combined_results a);
                       sources_used := sources a |} |}.

(** The items of the tasks that returned, in task order. *)
Definition returned_items (tasks : list task) : list dict :=
  concat (map (λ t, match outcome t with
                    | Returned result => result
                    | Failed _ => []
                    end) tasks).

(** A task that returned at least one item. *)
Definition productive (t : task) : bool :=
  match outcome t with
  | Returned (_ :: _) => true
  | _ => false
  end.

(** A task that raised. *)
Definition failed (t : task) : bool :=
  match outcome t with
  | Failed _ => true
  | Returned _ => false
  end.

End Coordinator.

(** ** app/scraper.py *)

Module MultiSourceScraper.
Import Dedup.

(** The merge at the end of [MultiSourceScraper.scrape]:
<<
    seen_urls = set(); unique_results = []
    for item in all_results: ...
    return unique_results[:50]
>> *)
Definition merge (all_results : list dict) : res (list dict) :=
  st ← for_each add_item ([], ∅) all_results;
  Ok (take 50 st.1).

(** [all_results]: [extend] with every gathered result that is a list. *)
Definition all_results (results : list Coordinator.settled) : list dict :=
  concat (map (λ r, match r with
                    | Coordinator.Returned l => l
                    | Coordinator.Failed _ => []
                    end) results).

(** [MultiSourceScraper.scrape], from the gathered results on. *)
Definition scrape (results : list Coordinator.settled) : res (list dict) :=
  merge (all_results results).

End MultiSourceScraper.

(** ** src/agents/processor.py *)

Module ContentProcessor.
Import PyStr.

(** [v.lower()] and [v.count(...)] exist on strings only. *)
Definition as_str (v : value) : res string :=
  match v with
  | VStr s => Ok s
  | _ => Raise AttributeError
  end.

(** [len(v)]. *)
Definition py_len (v : value) : res nat :=
  match v with
  | VStr s => Ok (String.length s)
  | VList l => Ok (length l)
  | VDict d => Ok (size d)
  | _ => Raise TypeError
  end.

(** [if 'metadata' not in item: item['metadata'] = {}]. *)
Definition ensure_metadata (item : dict) : dict :=
  match item !! "metadata" with
  | Some _ => item
  | None => <["metadata" := VDict ∅]> item
  end.

(** [item['metadata'][k] = v]: a [KeyError] without ['metadata'], a
    [TypeError] when it is not a dictionary. *)
Definition set_metadata (item : dict) (k : string) (v : value) : res dict :=
  m ← getitem item "metadata";
  match m with
  | VDict d => Ok (<["metadata" := VDict (<[k := v]> d)]> item)
  | _ => Raise TypeError
  end.

(** *** The fallback strategy *)

(** [[kw.strip().lower() for kw in keywords.split() if len(kw.strip()) > 2]]. *)
Definition keyword_tags (keywords : string) : list string :=
  map (λ kw, lower (strip kw))
      (List.filter (λ kw, (2 <? String.length (strip kw))%nat) (split keywords)).

(** The content type, from the lowercased URL. *)
Definition classify (url : string) : string :=
  if contains "youtube" url then "video"
  else if contains "wikipedia" url then "article"
  else if existsb (λ ext, contains ext url) [".jpg"; ".png"; ".gif"] then "image"
  else if existsb (λ ext, contains ext url) [".pdf"; ".doc"] then "document"
  else "webpage".

(** The loop
<<
    for tag in tags:
        keyword_count += title.count(tag)
        keyword_count += description.count(tag)
>> *)
Definition keyword_count (tags : list string) (title description : string) : Z :=
  foldl (λ n tag, n + Z.of_nat (count title tag) + Z.of_nat (count description tag))
        0 tags.

(** The dictionary stored under ['ai_analysis']. *)
Definition analysis (relevance_score : value) (content_type : value)
    (tags : value) : value :=
  VDict (<["tags" := tags]>
        (<["content_type" := content_type]>
        (<["relevance_score" := relevance_score]> ∅))).

(** Body of [for item in results] in [_process_with_dummy]. *)
Definition dummy_item (tags : list string) (item : dict) : res dict :=
  let item := ensure_metadata item in
  item ← set_metadata item "processed" (VBool true);
  url ← as_str (get item "link" (VStr EmptyString));
  let content_type := classify (lower url) in
  title ← as_str (get item "title" (VStr EmptyString));
  description ← as_str (get item "description" (VStr EmptyString));
  let relevance_score :=
    Z.min 100 (keyword_count tags (lower title) (lower description) * 10) in
  set_metadata item "ai_analysis"
    (analysis (VInt relevance_score) (VStr content_type)
              (VList (VStr <$> take 5 tags))).

(** A loop that rewrites every item in place; an exception leaves it. *)
Fixpoint each_item (f : dict → res dict) (results : list dict) : res (list dict) :=
  match results with
  | [] => Ok []
  | item :: rest => item' ← f item; rest' ← each_item f rest; Ok (item' :: rest')
  end.

(** [_process_with_dummy(results, keywords)]. *)
Definition _process_with_dummy (results : list dict) (keywords : string)
    : res (list dict) :=
  each_item (dummy_item (keyword_tags keywords)) results.

(** *** The remote strategy *)

(** What comes back for one item: the call to the remote service raised
    (or its answer could not be read up to the text), the response had no
    choice or message, [json.loads] raised on the extracted text, or it
    returned a value. *)
Inductive reply : Type :=
  | CallRaises
  | NoMessage
  | Unparsable
  | Parsed (ai_analysis : value).

(** [ai_analysis.get(k, default)]: only a dictionary has [get]. *)
Definition ai_get (ai_analysis : value) (k : string) (default : value) : res value :=
  match ai_analysis with
  | VDict d => Ok (get d k default)
  | _ => Raise AttributeError
  end.

(** The statements after [ai_analysis = json.loads(json_str)], inside the
    inner [try]: the item as they leave it, and the exception that stopped
    them, if any. *)
Definition write_analysis (item : dict) (ai_analysis : value) : dict * res () :=
  let item := ensure_metadata item in
  match (score ← ai_get ai_analysis "relevance_score" (VInt 0);
         type ← ai_get ai_analysis "content_type" (VStr "unknown");
         tags ← ai_get ai_analysis "tags" (VList []);
         item' ← set_metadata item "ai_analysis" (analysis score type tags);
         enhanced ← ai_get ai_analysis "enhanced_description" VNone;
         Ok (item', enhanced)) with
  | Ok (item', enhanced) =>
      if negb (truthy (get item' "description" VNone)) && truthy enhanced
      then (<["description" := enhanced]> item', Ok ())
      else (item', Ok ())
  | Raise e => (item, Raise e)
  end.

(** [_enhance_item_with_openai(item, keywords)], with the reply of the
    remote service for this item.  Every exception is caught and the
    item is returned. *)
Definition _enhance_item_with_openai (item : dict) (keywords : string)
    (r : reply) : res dict :=
  match py_len (get item "title" (VStr EmptyString)) with
  | Raise _ => Ok item
  | Ok n =>
      if (n <? 3)%nat then Ok item
      else
        match r with
        | CallRaises => Ok item
        | NoMessage => Ok item
        | Unparsable => Ok item
        | Parsed ai_analysis => Ok (write_analysis item ai_analysis).1
        end
  end.

(** [for j, result in enumerate(batch_results)]: an exception object in
    the gathered results is replaced by the item of the batch. *)
Definition collect (batch : list dict) (batch_results : list (res dict)) : list dict :=
  zip_with (λ item result, match result with
                           | Ok item' => item'
                           | Raise _ => item
                           end) batch batch_results.

(** The loop [for i in range(0, len(results), batch_size)] with
    [batch_size = 5]; [replies k] is the reply for the item at index [k];
    [fuel] bounds the number of batches. *)
Fixpoint batches (fuel : nat) (i : nat) (results : list dict) (keywords : string)
    (replies : nat → reply) (enhanced_results : list dict) : list dict :=
  match fuel with
  | O => enhanced_results
  | S fuel' =>
      if bool_decide (i < length results)%nat
      then
        let batch := take 5 (drop i results) in
        let batch_results :=
          imap (λ j item, _enhance_item_with_openai item keywords (replies (i + j)%nat))
               batch in
        batches fuel' (i + 5) results keywords replies
                (enhanced_results ++ collect batch batch_results)
      else enhanced_results
  end.

(** [_process_with_openai(results, keywords)]. *)
Definition _process_with_openai (results : list dict) (keywords : string)
    (replies : nat → reply) : list dict :=
  batches (length results) 0 results keywords replies [].

(** [process_results(results, keywords)]; [client] tells whether
    [self.client] is set. *)
Definition process_results (client : bool) (results : list dict)
    (keywords : string) (replies : nat → reply) : res (list dict) :=
  match results with
  | [] => Ok results
  | _ =>
      if client then Ok (_process_with_openai results keywords replies)
      else _process_with_dummy results keywords
  end.

(** *** Notions used to state the properties of the enrichment *)

(** [sub] occurs in [s]. *)
Definition substring (sub s : string) : Prop :=
  ∃ pre post, s = pre +:+ sub +:+ post.

(** The text under key [k], empty when the key is absent. *)
Definition text (item : dict) (k : string) : string :=
  match item !! k with
  | Some (VStr s) => s
  | _ => EmptyString
  end.

(** The key is absent or holds a string. *)
Definition str_field (item : dict) (k : string) : Prop :=
  match item !! k with
  | Some (VStr _) | None => True
  | Some _ => False
  end.

(** The key is absent or holds a dictionary. *)
Definition dict_field (item : dict) (k : string) : Prop :=
  match item !! k with
  | Some (VDict _) | None => True
  | Some _ => False
  end.

(** An item whose fields have the types of [ContentItem]. *)
Definition well_typed (item : dict) : Prop :=
  str_field item "link" ∧ str_field item "title" ∧
  str_field item "description" ∧ dict_field item "metadata".

(** The total number of occurrences of the tags in title and
    description. *)
Definition occurrences (tags : list string) (title description : string) : nat :=
  sum_list (map (λ tag, count title tag + count description tag)%nat tags).

(** The relevance score of the fallback strategy, as the specification
    words it. *)
Definition relevance (item : dict) (keywords : string) : Z :=
  Z.min 100
    (10 * Z.of_nat (occurrences (keyword_tags keywords)
                      (lower (text item "title"))
                      (lower (text item "description")))).

(** What the remote strategy puts in the place of [item]: the enhanced
    item, or [item] itself for an exception object. *)
Definition enhanced (keywords : string) (replies : nat → reply)
    (i : nat) (item : dict) : dict :=
  match _enhance_item_with_openai item keywords (replies i) with
  | Ok item' => item'
  | Raise _ => item
  end.

(** [item'] is [item] with the fallback annotations in its metadata. *)
Definition enriched (keywords : string) (item item' : dict) : Prop :=
  ∃ m,
    item' !! "metadata" = Some (VDict m) ∧
    m !! "ai_analysis" =
      Some (analysis (VInt (relevance item keywords))
                     (VStr (classify (lower (text item "link"))))
                     (VList (VStr <$> take 5 (keyword_tags keywords)))) ∧
    m !! "processed" = Some (VBool true) ∧
    (∀ k, k ≠ "ai_analysis" → k ≠ "processed" →
          m !! k = match item !! "metadata" with
                   | Some (VDict m0) => m0 !! k
                   | _ => None
                   end) ∧
    (∀ k, k ≠ "metadata" → item' !! k = item !! k).

End ContentProcessor.

(** ** Sample data *)

Module Samples.
Import BaseScraper Coordinator.

(** A raw scraping result [{"title": title, "link": link}]. *)
Definition raw (title link : string) : dict :=
  <["link" := VStr link]> (<["title" := VStr title]> ∅).

(** The item that the adapter [adapter] makes of it. *)
Definition item (adapter title link : string) : dict :=
  format_result adapter (raw title link) None.

(** [n] items with pairwise different links, numbered from [0]. *)
Definition page (adapter : string) (n : nat) : list dict :=
  (λ i : nat, item adapter "Result" ("https://example.com/" +:+ pretty i)) <$> seq 0 n.

(** Two adapters that both return [https://x.com]. *)
Definition two_adapters : list task :=
  [ Task "google" (Returned [item "google" "A" "https://x.com"]);
    Task "duckduckgo" (Returned [item "duckduckgo" "B" "https://x.com";
                                 item "duckduckgo" "C" "https://y.com"]) ].

(** The same with a third adapter that raised. *)
Definition one_failing : list task :=
  Task "firecrawl" (Failed "timeout") :: two_adapters.

(** One adapter that returns an item without link and 51 more. *)
Definition long_run : list task :=
  [ Task "google" (Returned (item "google" "No link" EmptyString :: page "google" 51)) ].

End Samples.

(** ** link_registry.py: statistics, and the way the batch script uses
    the registry *)

Module RegistryUse.
Import LinkRegistry.

(** The two statements
<<
    if script not in script_counts: script_counts[script] = 0
    script_counts[script] += 1
>> *)
Definition bump (script_counts : gmap string nat) (script : string) : gmap string nat :=
  <[script := S (default 0%nat (script_counts !! script))]> script_counts.

(** [get_stats()["by_script"]]: the loop over [self.links["links"].items()].
    The counts do not depend on the order in which the entries come. *)
Definition by_script (r : registry) : gmap string nat :=
  foldl (λ script_counts kv, bump script_counts (script kv.2)) ∅
        (map_to_list (links r)).

(** The dictionary returned by [get_stats]. *)
Record stats : Type := Stats {
  stats_total_links : nat;
  stats_by_script : gmap string nat;
  stats_created : string;
  stats_last_updated : string
}.

Definition get_stats (r : registry) : stats :=
  {| stats_total_links := size (links r);
     stats_by_script := by_script r;
     stats_created := created r;
     stats_last_updated := last_updated r |}.

(** The steps that [estrai_dati_semplice.py] takes with every batch of
    URLs:
<<
    new_urls = registry.filter_new_links(urls, script_name=script)
    ...
    registry.register_links(new_urls, script)
>>
    The result is [new_urls], the registry afterwards and the count that
    [register_links] returns. *)
Definition filter_then_register (r : registry) (urls : list (option string))
    (script_name now now_saved : string)
    : list (option string) * registry * nat :=
  let new_urls := filter_new_links r urls (Some script_name) in
  let out := register_links r new_urls script_name now now_saved in
  (new_urls, out.1, out.2).

(** The number of entries that [script] registered. *)
Definition registered_by (r : registry) (script_name : string) : nat :=
  length (List.filter (λ kv : string * entry, bool_decide (script kv.2 = script_name))
                      (map_to_list (links r))).

End RegistryUse.

(** ** src/scrapers/firecrawl_scraper.py *)

Module FirecrawlScraper.
Import PyStr BaseScraper Dedup.

(** [self.name], set by [super().__init__("firecrawl")]. *)
Definition name : string := "firecrawl".

(** [l[:n]] for an integer [n]: a negative bound counts from the end. *)
Definition slice_to {A} (n : Z) (l : list A) : list A :=
  if 0 <=? n then take (Z.to_nat n) l
  else take (length l - Z.to_nat (- n)) l.

(** [s.startswith(('http://', 'https://'))]. *)
Definition has_protocol (s : string) : bool :=
  String.prefix "http://" s || String.prefix "https://" s.

(** The prompts of [search_strategies], after
    [search_strategies = search_strategies[:max_pages]]. *)
Definition search_strategies (query : string) (max_pages : Z) : list string :=
  let basic :=
    [query;
     "recent " +:+ query +:+ " news and trends";
     "detailed analysis of " +:+ query] in
  let more :=
    ["tutorials and guides about " +:+ query;
     "reviews and opinions about " +:+ query] in
  slice_to max_pages (if 3 <? max_pages then basic ++ more else basic).

(** What [self.sync_client.extract] does for one page: it raises, or it
    returns a value. *)
Inductive extracted : Type :=
  | ExtractRaises
  | Extracted (extract_result : value).

(** Body of [for item in extract_result], on the pair of [all_results]
    and [seen_urls]; testing an unhashable link against the set raises
    [TypeError]. *)
Definition extract_item (page_num : nat) (st : list dict * gset hkey)
    (item : value) : res (list dict * gset hkey) :=
  match item with
  | VDict d =>
      match d !! "link" with
      | Some link =>
          k ← hash_key link;
          if bool_decide (k ∈ st.2) then Ok st
          else
            let d := <["page_number" := VInt (Z.of_nat page_num)]> d in
            Ok (st.1 ++ [format_result name d None], {[k]} ∪ st.2)
      | None => Ok st
      end
  | _ => Ok st
  end.

(** The loop over the items of one page inside [try: ... except
    Exception: continue]: an exception ends the page, and what was
    appended before it stays. *)
Fixpoint extract_items (page_num : nat) (st : list dict * gset hkey)
    (items : list value) : list dict * gset hkey :=
  match items with
  | [] => st
  | item :: rest =>
      match extract_item page_num st item with
      | Ok st' => extract_items page_num st' rest
      | Raise _ => st
      end
  end.

(** Body of [for page_num, strategy in enumerate(search_strategies, 1)];
    the empty list is falsy and has no item either. *)
Definition extract_page (extract : nat → string → extracted)
    (st : list dict * gset hkey) (page : nat * string) : list dict * gset hkey :=
  match extract page.1 page.2 with
  | Extracted (VList items) => extract_items page.1 st items
  | _ => st
  end.

(** [_extract_content(query, max_pages)]; [sync_client] tells whether
    [self.sync_client] is set, [extract page_num prompt] is the outcome
    of the call made for page [page_num]. *)
Definition _extract_content (sync_client : bool)
    (extract : nat → string → extracted) (query : string) (max_pages : Z)
    : list dict :=
  if sync_client
  then
    let strategies := search_strategies query max_pages in
    (foldl (extract_page extract) ([], ∅)
           (zip (seq 1 (length strategies)) strategies)).1
  else [].

(** A page of a crawl response.  [page_content] is [str(page.content)],
    [None] when the object has no such attribute; the other fields are
    [None] when the attribute is missing. *)
Record crawled_page : Type := CrawledPage {
  page_content : option string;
  page_title : option string;
  page_url : option string;
  page_description : option string
}.

(** What [self.async_client.crawl_url] does: it raises, or it returns a
    response, whose [pages] attribute may be missing. *)
Inductive crawl_response : Type :=
  | CrawlRaises
  | Crawled (pages : option (list crawled_page)).

(** [x if hasattr(page, 'x') and page.x else default]. *)
Definition attr_or (a : option string) (default : value) : value :=
  match a with
  | Some s => if String.eqb s EmptyString then default else VStr s
  | None => default
  end.

(** The negation of the test that skips a page:
    [keywords and not any(kw.lower() in str(page.content).lower()
                          for kw in keywords.split())].
    [page.content] is read when the first keyword is tried. *)
Definition relevant (keywords : string) (page : crawled_page) : res bool :=
  if String.eqb keywords EmptyString then Ok true
  else
    match split keywords with
    | [] => Ok false
    | kws =>
        match page_content page with
        | Some content =>
            Ok (existsb (λ kw, contains (lower kw) (lower content)) kws)
        | None => Raise AttributeError
        end
    end.

(** The [result] dictionary made of page [i]. *)
Definition page_result (i : nat) (page : crawled_page) : dict :=
  <["page_number" := VInt (Z.of_nat i + 1)]>
  (<["description" := attr_or (page_description page) VNone]>
  (<["thumbnail" := VStr EmptyString]>
  (<["link" := attr_or (page_url page) (VStr EmptyString)]>
  (<["title" := attr_or (page_title page) (VStr "Untitled Page")]> ∅)))).

(** The loop [for i, page in enumerate(response.pages[:max_pages * 5])]
    from index [i] on. *)
Fixpoint crawl_pages (keywords : string) (max_pages : Z) (i : nat)
    (pages : list crawled_page) (results : list dict) : res (list dict) :=
  match pages with
  | [] => Ok results
  | page :: rest =>
      keep ← relevant keywords page;
      if keep : bool
      then
        let results := results ++ [format_result name (page_result i page) None] in
        if max_pages * 3 <=? Z.of_nat (length results) then Ok results
        else crawl_pages keywords max_pages (S i) rest results
      else crawl_pages keywords max_pages (S i) rest results
  end.

(** [_crawl_target_domain(domain, keywords, max_pages)];
    [crawl_url url limit] is the outcome of the remote call. *)
Definition _crawl_target_domain (crawl_url : string → Z → crawl_response)
    (domain keywords : string) (max_pages : Z) : list dict :=
  let domain := if has_protocol domain then domain else "https://" +:+ domain in
  match crawl_url domain (max_pages * 10) with
  | Crawled (Some pages) =>
      match crawl_pages keywords max_pages 0 (slice_to (max_pages * 5) pages) [] with
      | Ok results => results
      | Raise _ => []
      end
  | _ => []
  end.

(** [FirecrawlScraper.scrape]; [client] tells whether the API key was
    there when the adapter was built, which sets both clients or none. *)
Definition scrape (client : bool) (crawl_url : string → Z → crawl_response)
    (extract : nat → string → extracted)
    (keywords : string) (target_domain : option string) (max_pages : Z)
    : list dict :=
  if client
  then
    match target_domain with
    | Some domain =>
        if String.eqb domain EmptyString
        then _extract_content client extract keywords max_pages
        else _crawl_target_domain crawl_url domain keywords max_pages
    | None => _extract_content client extract keywords max_pages
    end
  else [].

(** *** Notions used to state the adapter's properties *)

(** An item of this adapter that carries a page number up to [n]. *)
Definition tagged (n : Z) (item : dict) : Prop :=
  item !! "source" = Some (VStr name) ∧
  ∃ p, item !! "page_number" = Some (VInt p) ∧ 1 ≤ p ≤ n.

(** The state of the extraction loop is consistent: [seen_urls] holds
    the links of [all_results], no link is there twice, and every item
    is tagged. *)
Definition consistent (n : Z) (st : list dict * gset hkey) : Prop :=
  st.2 = key_set st.1 ∧ NoDup (link_key <$> st.1) ∧
  Forall has_link st.1 ∧ Forall (tagged n) st.1.

End FirecrawlScraper.

(** ** src/api/endpoints.py *)

Module Endpoints.

(** [enhanced_results] in [scrape_content]: the coordinator's results,
    passed through the enrichment stage.
<<
    scraping_result = await scraper_coordinator.scrape(...)
    raw_results = scraping_result.get("results", [])
    enhanced_results = await content_processor.process_results(
        raw_results, request.keywords)
>>
    An exception of either stage leaves the [try] block. *)
Definition enhanced_results (client : bool) (keywords : string)
    (target_domain : option string) (now : string)
    (tasks : list Coordinator.task) (replies : nat → ContentProcessor.reply)
    : res (list dict) :=
  scraping_result ← Coordinator.scrape keywords target_domain now tasks;
  ContentProcessor.process_results client (Coordinator.results scraping_result)
    keywords replies.

End Endpoints.

(** ** src/scrapers/coordinator.py: the adapters of a coordinator *)

Module CoordinatorInit.
Import PyStr.

(** The adapters that [_initialize_scrapers] builds. *)
Inductive scraper : Type :=
  | Firecrawl
  | Playwright (name : string).

(** [scraper.name]. *)
Definition scraper_name (s : scraper) : string :=
  match s with
  | Firecrawl => FirecrawlScraper.name
  | Playwright name => name
  end.

(** [SCRAPING_SOURCES] of config/settings.py; ["max_results"], which
    comes from the environment and is not read here, is left out. *)
Definition SCRAPING_SOURCES : list dict :=
  [ <["name" := VStr "google"]>
    (<["enabled" := VBool true]>
    (<["base_url" := VStr "https://www.google.com/search?q="]> ∅));
    <["name" := VStr "duckduckgo"]>
    (<["enabled" := VBool true]>
    (<["base_url" := VStr "https://duckduckgo.com/?q="]> ∅));
    <["name" := VStr "firecrawl"]> (<["enabled" := VBool true]> ∅) ].

(** The names for which an adapter exists. *)
Definition known (name : string) : bool :=
  bool_decide (name ∈ ["firecrawl"; "google"; "duckduckgo"]).

(** Body of [for source in SCRAPING_SOURCES], on a source paired with
    the outcome of the constructor called for it ([true] when it
    returns): an exception raised by the constructor is caught, one
    raised by [source["name"].lower()] is not. *)
Definition initialize_step (scrapers : list scraper) (source : dict * bool)
    : res (list scraper) :=
  if truthy (get source.1 "enabled" (VBool false))
  then
    v ← getitem source.1 "name";
    s ← ContentProcessor.as_str v;
    let name := lower s in
    if String.eqb name "firecrawl"
    then Ok (if source.2 then scrapers ++ [Firecrawl] else scrapers)
    else if bool_decide (name ∈ ["google"; "duckduckgo"])
    then Ok (if source.2 then scrapers ++ [Playwright name] else scrapers)
    else Ok scrapers
  else Ok scrapers.

(** [_initialize_scrapers], on the configured sources, each with the
    outcome of its constructor. *)
Definition _initialize_scrapers (sources : list (dict * bool)) : res (list scraper) :=
  for_each initialize_step [] sources.

(** *** Notions used to state its properties *)

(** The lowercased name of a source, empty when it has none. *)
Definition source_name (source : dict * bool) : string :=
  lower (ContentProcessor.text source.1 "name").

(** A source that is switched on. *)
Definition enabled (source : dict * bool) : bool :=
  truthy (get source.1 "enabled" (VBool false)).

End CoordinatorInit.

(** ** src/scrapers/playwright_scraper.py *)

Module PlaywrightScraper.
Import PyStr BaseScraper.

(** The bytes that [urllib.parse.quote] leaves as they are: letters,
    digits, [_.-~], and the default [safe='/']. *)
Definition safe (c : ascii) : bool :=
  let n := nat_of_ascii c in
  ((65 <=? n) && (n <=? 90) || (97 <=? n) && (n <=? 122) ||
   (48 <=? n) && (n <=? 57) ||
   (n =? 95) || (n =? 46) || (n =? 45) || (n =? 126) || (n =? 47))%nat.

(** An uppercase hexadecimal digit. *)
Definition hex_digit (n : nat) : ascii :=
  ascii_of_nat (if (n <? 10)%nat then 48 + n else 55 + n).

(** [quote] on one byte of the UTF-8 encoding. *)
Definition quote_byte (c : ascii) : string :=
  if safe c then String c EmptyString
  else
    let n := nat_of_ascii c in
    String "%" (String (hex_digit (n / 16)) (String (hex_digit (n mod 16)) EmptyString)).

(** [urllib.parse.quote(s)]; a string stands for its UTF-8 bytes. *)
Fixpoint quote (s : string) : string :=
  match s with
  | EmptyString => EmptyString
  | String c s' => quote_byte c +:+ quote s'
  end.

(** [_build_target_url(keywords, target_domain)]. *)
Definition _build_target_url (keywords : string) (target_domain : option string)
    : string :=
  match target_domain with
  | Some domain =>
      if String.eqb domain EmptyString
      then "https://www.google.com/search?q=" +:+ quote keywords
      else if FirecrawlScraper.has_protocol domain then domain
      else "https://" +:+ domain
  | None => "https://www.google.com/search?q=" +:+ quote keywords
  end.

(** [s.split(sep)] for a separator of one character: always at least
    one part. *)
Fixpoint split_on (sep : ascii) (s : string) : list string :=
  match s with
  | EmptyString => [EmptyString]
  | String c s' =>
      match split_on sep s' with
      | part :: parts =>
          if Ascii.eqb c sep then EmptyString :: part :: parts
          else String c part :: parts
      | [] => [String c EmptyString]
      end
  end.

(** An [a[href]] element of a generic page: what [get_attribute('href')]
    and [text_content()] return, or an exception raised by one of the
    calls on it. *)
Inductive link_elem : Type :=
  | LinkRaises
  | Link (href : option string) (text_content : option string).

(** A result element of a search engine page.  Each of the three
    queried sub-elements may be missing ([None]); when it is there, the
    value read from it may be [None] as well. *)
Inductive result_elem : Type :=
  | ResultRaises
  | Result (title link description : option (option string)).

(** What is found on the page that the browser shows: the call that
    waits for the content or lists the elements raises, or the elements
    of the branch chosen by [selector_key]. *)
Inductive page_content : Type :=
  | PageRaises
  | GenericPage (links : list link_elem)
  | EnginePage (result_items : list result_elem).

(** [target_domain and target_domain not in href]. *)
Definition off_domain (target_domain : option string) (href : string) : bool :=
  match target_domain with
  | Some domain => negb (String.eqb domain EmptyString) && negb (contains domain href)
  | None => false
  end.

(** The dictionary literal [result = {...}] of both branches. *)
Definition result_dict (title link description : value) (page_num : Z) : dict :=
  <["description" := description]>
  (<["page_number" := VInt page_num]>
  (<["thumbnail" := VStr EmptyString]>
  (<["link" := link]>
  (<["title" := title]> ∅)))).

(** Body of [for link in links] of the generic branch: the item that is
    appended, or [None] when the link is passed over, by [continue] or
    by the [except] of the loop body (an [IndexError] of
    [page.url.split('/')[2]] included). *)
Definition generic_item (self_name page_url : string) (page_num : Z)
    (target_domain : option string) (link : link_elem) : option dict :=
  match link with
  | Link (Some href) text_content =>
      if String.eqb href EmptyString || String.prefix "#" href
         || String.prefix "javascript" href
      then None
      else
        let absolute :=
          if String.prefix "/" href
          then
            let parts := split_on "/" page_url in
            match parts !! 0%nat, parts !! 2%nat with
            | Some scheme, Some host => Some (scheme +:+ "//" +:+ host +:+ href)
            | _, _ => None
            end
          else Some href in
        match absolute with
        | Some href =>
            let title :=
              match text_content with
              | Some t => if String.eqb t EmptyString then "No title" else strip t
              | None => "No title"
              end in
            if off_domain target_domain href then None
            else Some (format_result self_name
                         (result_dict (VStr title) (VStr href) (VStr EmptyString) page_num)
                         None)
        | None => None
        end
  | _ => None
  end.

(** [x = await elem.f() if elem else default]. *)
Definition elem_or (read : option (option string)) (default : string) : option string :=
  match read with
  | Some v => v
  | None => Some default
  end.

(** Body of [for item in result_items] of the search engine branch;
    [strip] of [None] and [target_domain not in None] raise, and the
    item is passed over. *)
Definition engine_item (self_name : string) (page_num : Z)
    (target_domain : option string) (item : result_elem) : option dict :=
  match item with
  | Result title link description =>
      match elem_or title "No title", elem_or description EmptyString with
      | Some title, Some description =>
          let link := elem_or link EmptyString in
          let skip :=
            match target_domain, link with
            | Some domain, None =>
                if String.eqb domain EmptyString then Some false else None
            | _, Some href => Some (off_domain target_domain href)
            | None, None => Some false
            end in
          match skip with
          | Some false =>
              Some (format_result self_name
                      (result_dict (VStr (strip title))
                                   (match link with Some href => VStr href | None => VNone end)
                                   (VStr (strip description)) page_num)
                      None)
          | _ => None
          end
      | _, _ => None
      end
  | ResultRaises => None
  end.

(** [_extract_page_data(page, page_num, target_domain)]: any exception
    outside the loops gives the empty list. *)
Definition _extract_page_data (self_name page_url : string) (page_num : Z)
    (target_domain : option string) (content : page_content) : list dict :=
  match content with
  | PageRaises => []
  | GenericPage links =>
      omap (generic_item self_name page_url page_num target_domain) links
  | EnginePage result_items =>
      omap (engine_item self_name page_num target_domain) result_items
  end.

(** What [_navigate_to_next_page] does: it returns [True] or [False],
    or the [urlparse] before its [try] raises. *)
Inductive navigation : Type :=
  | HasNext
  | NoNext
  | NavigationRaises.

(** The page shown in the browser at one iteration: its URL, its
    content, and what navigating on from it does. *)
Record visit : Type := Visit {
  visit_url : string;
  visit_content : page_content;
  visit_next : navigation
}.

(** The loop [for page_num in range(1, max_pages + 1)], from [page_num]
    on with [remaining] iterations left; [None] stands for an exception
    that leaves the loop. *)
Fixpoint scrape_pages (self_name : string) (target_domain : option string)
    (max_pages : Z) (visits : nat → visit) (remaining : nat) (page_num : nat)
    (results : list dict) : option (list dict) :=
  match remaining with
  | O => Some results
  | S remaining' =>
      let v := visits page_num in
      let results :=
        results ++ _extract_page_data self_name (visit_url v) (Z.of_nat page_num)
                     target_domain (visit_content v) in
      if max_pages <=? Z.of_nat page_num then Some results
      else
        match visit_next v with
        | HasNext =>
            scrape_pages self_name target_domain max_pages visits remaining'
              (S page_num) results
        | NoNext => Some results
        | NavigationRaises => None
        end
  end.

(** A browser session: launching the browser or opening the first page
    raises, or the pages come as [visits] gives them and
    [browser.close()] returns or raises. *)
Inductive session : Type :=
  | LaunchRaises
  | Browser (visits : nat → visit) (closes : bool).

(** [PlaywrightScraper.scrape(keywords, target_domain, max_pages)], for
    the session opened on [_build_target_url(keywords, target_domain)]. *)
Definition scrape (self_name : string) (browse : string → session)
    (keywords : string) (target_domain : option string) (max_pages : Z)
    : list dict :=
  match browse (_build_target_url keywords target_domain) with
  | Browser visits closes =>
      match scrape_pages self_name target_domain max_pages visits
              (Z.to_nat max_pages) 1 [] with
      | Some results => if closes then results else []
      | None => []
      end
  | LaunchRaises => []
  end.

(** *** Notions used to state the properties *)

(** Every character of [s] satisfies [p]. *)
Fixpoint all_chars (p : ascii → bool) (s : string) : bool :=
  match s with
  | EmptyString => true
  | String c s' => p c && all_chars p s'
  end.

(** What every item of page [page_num] looks like: a hashable link,
    the adapter as source, no thumbnail, the page number, and a link
    that contains the target domain when there is one. *)
Definition page_item (self_name : string) (page_num : Z)
    (target_domain : option string) (item : dict) : Prop :=
  Dedup.has_link item ∧
  item !! "source" = Some (VStr self_name) ∧
  item !! "thumbnail" = Some (VStr EmptyString) ∧
  (page_num ≠ 0 → item !! "page_number" = Some (VInt page_num)) ∧
  (∀ domain, target_domain = Some domain → domain ≠ EmptyString →
     ∃ href, item !! "link" = Some (VStr href) ∧ contains domain href = true).

(** The number of elements found on a page. *)
Definition elements (content : page_content) : nat :=
  match content with
  | PageRaises => 0
  | GenericPage links => length links
  | EnginePage result_items => length result_items
  end.

(** The value of a hexadecimal digit. *)
Definition hex_value (c : ascii) : nat :=
  let n := nat_of_ascii c in
  if (n <? 58)%nat then n - 48 else n - 55.

End PlaywrightScraper.

(** ** src/scrapers/coordinator.py: a run with the adapters it builds *)

Module CoordinatorRun.
Import CoordinatorInit.

(** What the outside world does for one adapter during a run. *)
Record world : Type := World {
  client : bool;
  crawl_url : string → Z → FirecrawlScraper.crawl_response;
  extract : nat → string → FirecrawlScraper.extracted;
  browse : string → PlaywrightScraper.session
}.

(** [scraper.scrape(keywords=..., target_domain=..., max_pages=...)]. *)
Definition run_scraper (s : scraper) (w : world) (keywords : string)
    (target_domain : option string) (max_pages : Z) : list dict :=
  match s with
  | Firecrawl =>
      FirecrawlScraper.scrape (client w) (crawl_url w) (extract w)
        keywords target_domain max_pages
  | Playwright name =>
      PlaywrightScraper.scrape name (browse w) keywords target_domain max_pages
  end.

(** The tasks of [self.scrapers], gathered: both adapters catch every
    exception, so each task settles with the list it returns. *)
Definition gather (scrapers : list scraper) (worlds : nat → world)
    (keywords : string) (target_domain : option string) (max_pages : Z)
    : list Coordinator.task :=
  imap (λ i s, Coordinator.Task (scraper_name s)
                 (Coordinator.Returned
                    (run_scraper s (worlds i) keywords target_domain max_pages)))
       scrapers.

(** [ScraperCoordinator.scrape(keywords, target_domain, max_pages)],
    with the adapters in [self.scrapers]. *)
Definition scrape (scrapers : list scraper) (worlds : nat → world)
    (keywords : string) (target_domain : option string) (max_pages : Z)
    (now : string) : res Coordinator.response :=
  Coordinator.scrape keywords target_domain now
    (gather scrapers worlds keywords target_domain max_pages).

End CoordinatorRun.

(** ** src/agents/processor.py: the text that is handed to [json.loads] *)

Module ReplyText.
Import PyStr.

(** [s[n:]]. *)
Fixpoint skip (n : nat) (s : string) : string :=
  match n, s with
  | S n', String _ s' => skip n' s'
  | _, _ => s
  end.

(** The first occurrence of [sep] in [s]: what is before it and what is
    after it. *)
Fixpoint split_once (sep s : string) : option (string * string) :=
  if String.prefix sep s then Some (EmptyString, skip (String.length sep) s)
  else
    match s with
    | EmptyString => None
    | String c s' =>
        match split_once sep s' with
        | Some (before, after) => Some (String c before, after)
        | None => None
        end
    end.

(** [s.split(sep, 1)]. *)
Definition split1 (sep s : string) : list string :=
  match split_once sep s with
  | Some (before, after) => [before; after]
  | None => [s]
  end.

(** [parts[i]], where the index is known to exist. *)
Definition part (i : nat) (parts : list string) : string :=
  default EmptyString (parts !! i).

(** The fence of a code block, three backquotes, and the one that
    announces JSON. *)
Definition fence : string := "```".
Definition json_fence : string := "```json".

(** [json_str], from [response_text]:
<<
    if "```json" in response_text and "```" in response_text.split("```json", 1)[1]:
        json_str = response_text.split("```json", 1)[1].split("```", 1)[0].strip()
    elif "```" in response_text and "```" in response_text.split("```", 1)[1]:
        json_str = response_text.split("```", 1)[1].split("```", 1)[0].strip()
    else:
        json_str = response_text
>> *)
Definition json_str (response_text : string) : string :=
  if contains json_fence response_text
     && contains fence (part 1 (split1 json_fence response_text))
  then strip (part 0 (split1 fence (part 1 (split1 json_fence response_text))))
  else if contains fence response_text
          && contains fence (part 1 (split1 fence response_text))
  then strip (part 0 (split1 fence (part 1 (split1 fence response_text))))
  else response_text.

(** *** Notions used to state the properties *)

(** No backquote in [s]. *)
Definition plain (s : string) : bool :=
  PlaywrightScraper.all_chars (λ c, negb (Ascii.eqb c "`")) s.

End ReplyText.

(** * Properties *)

(** ** The link registry *)

Section registry_facts.
Import LinkRegistry.

Implicit Types (r : registry) (urls : list (option string)) (s : string).

Lemma url_truthy_Some s : url_truthy (Some s) = true ↔ s ≠ EmptyString.
Proof.
  unfold url_truthy. rewrite negb_true_iff. split.
  - intros H ->. by rewrite String.eqb_refl in H.
  - intros H. by apply String.eqb_neq.
Qed.

Lemma url_truthy_spec (u : option string) :
  url_truthy u = true ↔ ∃ s, u = Some s ∧ s ≠ EmptyString.
Proof.
  destruct u as [s|].
  - rewrite url_truthy_Some. split; [eauto|]. by intros (? & [= <-] & ?).
  - simpl. split; [done|]. by intros (? & ? & ?).
Qed.

(** One iteration of the registration loop, seen from a key [s]. *)
Lemma register_step_lookup name ts (m : gmap string entry) (c : nat) u s :
  (register_step name ts (m, c) u).1 !! s =
    match m !! s with
    | Some e => Some e
    | None => if bool_decide (s ≠ EmptyString ∧ u = Some s) then Some (Entry name ts) else None
    end.
Proof.
  unfold register_step. destruct u as [t|]; simpl.
  - destruct (negb (String.eqb t EmptyString)) eqn:Ht; simpl.
    + apply negb_true_iff, String.eqb_neq in Ht.
      case_bool_decide as Hm; simpl.
      * destruct (decide (t = s)) as [->|Hne].
        -- rewrite lookup_insert_eq, Hm. by rewrite bool_decide_eq_true_2.
        -- rewrite lookup_insert_ne by done. destruct (m !! s); [done|].
           rewrite bool_decide_eq_false_2; [done|]. by intros [_ [= ->]].
      * destruct (m !! s) eqn:Hs; [done|].
        rewrite bool_decide_eq_false_2; [done|]. intros [_ [= ->]]. congruence.
    + apply negb_false_iff, String.eqb_eq in Ht. subst t.
      destruct (m !! s); [done|].
      rewrite bool_decide_eq_false_2; [done|]. intros [? [= <-]]. congruence.
  - destruct (m !! s); [done|].
    rewrite bool_decide_eq_false_2; [done|]. by intros [_ ?].
Qed.

Lemma register_step_count name ts (m : gmap string entry) (c : nat) u :
  ((register_step name ts (m, c) u).2 + size m =
   c + size (register_step name ts (m, c) u).1)%nat.
Proof.
  unfold register_step. destruct u as [t|]; simpl; [|done].
  destruct (negb (String.eqb t EmptyString)); simpl; [|done].
  case_bool_decide as Hm; simpl; [|done].
  rewrite map_size_insert_None by done. lia.
Qed.

(** What the registration loop leaves in the dictionary and in the
    counter, from any intermediate state of the loop. *)
Lemma register_loop_lookup name ts urls (m : gmap string entry) (c : nat) s :
  (foldl (register_step name ts) (m, c) urls).1 !! s =
    match m !! s with
    | Some e => Some e
    | None => if bool_decide (s ≠ EmptyString ∧ Some s ∈ urls) then Some (Entry name ts) else None
    end.
Proof.
  revert m c. induction urls as [|u urls IH]; intros m c; simpl.
  - destruct (m !! s); [done|]. rewrite bool_decide_eq_false_2; [done|].
    intros [_ H]. by apply elem_of_nil in H.
  - destruct (register_step name ts (m, c) u) as [m' c'] eqn:E.
    rewrite IH. replace m' with (register_step name ts (m, c) u).1 by (by rewrite E).
    rewrite register_step_lookup. destruct (m !! s); [done|].
    rewrite (bool_decide_ext (s ≠ EmptyString ∧ Some s ∈ u :: urls)
               ((s ≠ EmptyString ∧ u = Some s) ∨ (s ≠ EmptyString ∧ Some s ∈ urls))).
    + by repeat case_bool_decide; intuition.
    + rewrite elem_of_cons. intuition congruence.
Qed.

Lemma register_loop_count name ts urls (m : gmap string entry) (c : nat) :
  ((foldl (register_step name ts) (m, c) urls).2 + size m =
   c + size (foldl (register_step name ts) (m, c) urls).1)%nat.
Proof.
  revert m c. induction urls as [|u urls IH]; intros m c; simpl; [done|].
  pose proof (register_step_count name ts m c u) as Hs.
  destruct (register_step name ts (m, c) u) as [m' c'] eqn:E. simpl in Hs.
  specialize (IH m' c'). lia.
Qed.

(** A falsy URL leaves the loop state as it is. *)
Lemma register_step_falsy name ts st u :
  url_truthy u = false → register_step name ts st u = st.
Proof.
  unfold register_step. destruct u as [t|]; [|done]. by intros ->.
Qed.

Lemma register_loop_truthy name ts urls st :
  foldl (register_step name ts) st urls =
  foldl (register_step name ts) st (List.filter url_truthy urls).
Proof.
  revert st. induction urls as [|u urls IH]; intros st; simpl; [done|].
  destruct (url_truthy u) eqn:Hu; simpl.
  - apply IH.
  - rewrite register_step_falsy by done. apply IH.
Qed.

Lemma keptb_spec r script_name u : keptb r script_name u = true ↔ kept r script_name u.
Proof.
  unfold keptb, kept. destruct u as [s|]; [|split; [done|by intros (?&?&?)]].
  rewrite andb_true_iff, url_truthy_Some. split.
  - intros [Hs H]. exists s. split; [done|]. split; [done|].
    destruct (links r !! s) as [e|]; [|by left]. right. exists e.
    apply andb_true_iff in H as [H1 H2]. apply bool_decide_eq_true in H2. subst.
    apply url_truthy_Some in H1. done.
  - intros (t & [= <-] & Hs & H). split; [done|].
    destruct H as [->|(e & -> & -> & He)]; [done|].
    apply andb_true_iff. split; [by apply url_truthy_Some|by apply bool_decide_eq_true].
Qed.

Lemma filter_step_keptb r script_name acc u :
  filter_step r script_name acc u =
  if keptb r script_name u then acc ++ [u] else acc.
Proof.
  unfold filter_step, keptb. destruct u as [s|]; [|done].
  destruct (url_truthy (Some s)); simpl; [|done].
  destruct (links r !! s); [|done]. done.
Qed.

Lemma filter_loop r script_name urls acc :
  foldl (filter_step r script_name) acc urls =
  acc ++ List.filter (keptb r script_name) urls.
Proof.
  revert acc. induction urls as [|u urls IH]; intros acc; simpl.
  - by rewrite app_nil_r.
  - rewrite IH, filter_step_keptb. destruct (keptb r script_name u); [|done].
    by rewrite <- app_assoc.
Qed.

Lemma filter_new_links_filter r urls script_name :
  filter_new_links r urls script_name = List.filter (keptb r script_name) urls.
Proof.
  unfold filter_new_links. destruct urls as [|u urls]; [done|]. apply filter_loop.
Qed.

Lemma register_links_lookup r urls name now now' s :
  links (register_links r urls name now now').1 !! s =
    match links r !! s with
    | Some e => Some e
    | None => if bool_decide (s ≠ EmptyString ∧ Some s ∈ urls) then Some (Entry name now) else None
    end.
Proof.
  unfold register_links. destruct urls as [|u urls].
  - simpl. destruct (links r !! s); [done|].
    rewrite bool_decide_eq_false_2; [done|]. intros [_ H]. by apply elem_of_nil in H.
  - cbn [fst links _save_registry]. apply register_loop_lookup.
Qed.

Lemma register_links_count r urls name now now' :
  ((register_links r urls name now now').2 + size (links r) =
   size (links (register_links r urls name now now').1))%nat.
Proof.
  unfold register_links. destruct urls as [|u urls]; [done|].
  cbn [fst snd links _save_registry].
  pose proof (register_loop_count name now (u :: urls) (links r) 0). lia.
Qed.

(** A URL that is already registered is skipped by the loop. *)
Lemma register_step_present name ts (m : gmap string entry) (c : nat) s :
  is_Some (m !! s) → register_step name ts (m, c) (Some s) = (m, c).
Proof.
  intros [e He]. unfold register_step. simpl.
  rewrite bool_decide_eq_false_2 by congruence. by rewrite andb_false_r.
Qed.

(** A non-empty URL that is not yet registered is inserted and counted. *)
Lemma register_step_fresh name ts (m : gmap string entry) (c : nat) s :
  s ≠ EmptyString → m !! s = None →
  register_step name ts (m, c) (Some s) = (<[s := Entry name ts]> m, S c).
Proof.
  intros Hs Hm. unfold register_step.
  apply url_truthy_Some in Hs. rewrite Hs. simpl.
  by rewrite bool_decide_eq_true_2.
Qed.

(** C5 (as amended): [register_links] adds exactly the non-empty URLs that
    are not yet in the registry, each stamped with the registrant and the
    clock reading; entries already present are left as they are (the first
    registrant stays); the returned count is the number of entries added.
    On an empty registry two distinct non-empty URLs give 2, and
    registering one of them again gives 0. *)
Theorem register_links_adds_new_urls r urls name now now' :
  let r' := (register_links r urls name now now').1 in
  let n := (register_links r urls name now now').2 in
  (∀ s e, links r !! s = Some e → links r' !! s = Some e) ∧
  (∀ s, links r !! s = None → s ≠ EmptyString → Some s ∈ urls →
        links r' !! s = Some (Entry name now)) ∧
  (∀ s, links r !! s = None → s = EmptyString ∨ Some s ∉ urls → links r' !! s = None) ∧
  (n + size (links r) = size (links r'))%nat ∧
  (∀ a b, links r = ∅ → urls = [Some a; Some b] → a ≠ b → a ≠ EmptyString → b ≠ EmptyString →
        n = 2%nat ∧
        ∀ name2 t t', (register_links r' [Some a] name2 t t').2 = 0%nat).
Proof.
  intros r' n. subst r' n. repeat split.
  - intros s e H. by rewrite register_links_lookup, H.
  - intros s H Hs Hin. rewrite register_links_lookup, H.
    by rewrite bool_decide_eq_true_2.
  - intros s H Hno. rewrite register_links_lookup, H.
    rewrite bool_decide_eq_false_2; [done|]. intros [? ?]. by destruct Hno.
  - apply register_links_count.
  - subst urls. unfold register_links. cbn [foldl snd]. rewrite H.
    rewrite register_step_fresh by done.
    rewrite register_step_fresh; [done|done|].
    by rewrite lookup_insert_ne.
  - intros name2 t t'. subst urls. unfold register_links at 1.
    cbn [foldl snd]. rewrite register_step_present; [done|].
    rewrite register_links_lookup, H, lookup_empty.
    rewrite bool_decide_eq_true_2; [done|]. split; [done|]. left.
Qed.

Lemma register_links_adds_new_urls_witness :
  let r := new_registry "t0" in
  let urls := [Some "https://a.com"; Some "https://b.com"] in
  let out := register_links r urls "s1" "t1" "t2" in
  links out.1 !! "https://a.com" = Some (Entry "s1" "t1") ∧
  out.2 = 2%nat ∧
  (register_links out.1 [Some "https://a.com"] "s1" "t3" "t4").2 = 0%nat.
Proof.
  intros r urls out.
  destruct (register_links_adds_new_urls r urls "s1" "t1" "t2")
    as (_ & Hadd & _ & _ & Hex).
  destruct (Hex "https://a.com" "https://b.com") as [H2 H0];
    [reflexivity | reflexivity | discriminate | discriminate | discriminate |].
  split; [|split].
  - apply Hadd; [reflexivity | discriminate | left].
  - exact H2.
  - apply H0.
Defined.

(** C5, as first stated, fails on the empty string: it is in [urls] and not
    in the registry, yet it is neither added nor counted. *)
Lemma register_links_skips_empty_url :
  let r := new_registry "t0" in
  let urls := [Some EmptyString; Some "https://a.com"] in
  let out := register_links r urls "s1" "t1" "t2" in
  out.2 = 1%nat ∧
  ¬ (∀ s, Some s ∈ urls → links r !! s = None →
          links out.1 !! s = Some (Entry "s1" "t1")).
Proof.
  intros r urls out. split; [reflexivity|].
  intros H. specialize (H EmptyString ltac:(left) eq_refl). vm_compute in H. discriminate.
Qed.

Lemma filter_all {A} (f : A → bool) (l : list A) :
  Forall (λ x, f x = true) l → List.filter f l = l.
Proof.
  induction 1 as [|x l Hx _ IH]; simpl; [done|]. by rewrite Hx, IH.
Qed.

Lemma filter_none {A} (f : A → bool) (l : list A) :
  Forall (λ x, f x = false) l → List.filter f l = [].
Proof.
  induction 1 as [|x l Hx _ IH]; simpl; [done|]. by rewrite Hx, IH.
Qed.

(** C4 (as amended): [filter_new_links] keeps, in order, exactly the
    non-empty URLs that are absent from the registry or whose entry was
    registered by the given non-empty registrant.  After
    [register_links urls name] with a non-empty [name], filtering [urls]
    for [name] returns [urls] unchanged when every URL in it is non-empty
    and was not registered before by somebody else; filtering for another
    registrant returns the empty list when none of the URLs was registered
    under that other name before. *)
Theorem filter_new_links_registrant r urls script_name name other now now' :
  let r' := (register_links r urls name now now').1 in
  (∃ keep : option string → bool,
      (∀ u, keep u = true ↔ kept r script_name u) ∧
      filter_new_links r urls script_name = List.filter keep urls) ∧
  (name ≠ EmptyString → Forall (own_or_new r name) urls →
      filter_new_links r' urls (Some name) = urls) ∧
  (other ≠ name → Forall (not_registered_by r other) urls →
      filter_new_links r' urls (Some other) = []).
Proof.
  intros r'. split; [|split].
  - exists (keptb r script_name). split; [apply keptb_spec|].
    apply filter_new_links_filter.
  - intros Hname Hall. rewrite filter_new_links_filter. apply filter_all.
    rewrite Forall_forall in Hall |- *. intros u Hu.
    destruct (Hall u Hu) as (s & -> & Hs & Hold).
    apply keptb_spec. exists s. split; [done|]. split; [done|]. right.
    subst r'. rewrite register_links_lookup.
    destruct Hold as [->|(e & -> & He)].
    + rewrite bool_decide_eq_true_2 by done. by exists (Entry name now).
    + exists e. by rewrite He.
  - intros Hne Hall. rewrite filter_new_links_filter. apply filter_none.
    rewrite Forall_forall in Hall |- *. intros u Hu.
    destruct (keptb r' (Some other) u) eqn:Hk; [exfalso|done].
    apply keptb_spec in Hk as (s & -> & Hs & Hk).
    subst r'. rewrite register_links_lookup in Hk.
    destruct (links r !! s) as [e0|] eqn:Hold.
    + destruct Hk as [?|(e & [= <-] & [= He] & _)]; [done|].
      by apply (Hall _ Hu s e0).
    + rewrite bool_decide_eq_true_2 in Hk by done.
      destruct Hk as [?|(e & [= <-] & [= He] & _)]; [done|]. simpl in He. done.
Qed.

Lemma filter_new_links_registrant_witness :
  let r := new_registry "t0" in
  let urls := [Some "https://a.com"; Some "https://b.com"] in
  let r' := (register_links r urls "s1" "t1" "t2").1 in
  filter_new_links r' urls (Some "s1") = urls ∧
  filter_new_links r' urls (Some "s2") = [].
Proof.
  intros r urls r'.
  destruct (filter_new_links_registrant r urls None "s1" "s2" "t1" "t2")
    as (_ & Hsame & Hother).
  split.
  - apply Hsame; [discriminate|].
    repeat constructor;
      eexists; (split; [reflexivity|]); (split; [discriminate|]); left; reflexivity.
  - apply Hother; [discriminate|].
    repeat constructor; intros s e _ H; vm_compute in H; discriminate.
Defined.

(** C4, as first stated, fails on the empty string, which is absent from
    the registry and still dropped, so that filtering right after
    registering does not give [urls] back; it also fails when a URL was
    registered first by somebody else. *)
Lemma filter_new_links_drops_empty_url :
  let r := new_registry "t0" in
  let urls := [Some EmptyString; Some "https://a.com"] in
  let r1 := (register_links r urls "s1" "t1" "t2").1 in
  let r2 := (register_links r1 urls "s2" "t3" "t4").1 in
  links r !! EmptyString = None ∧
  filter_new_links r urls (Some "s1") = [Some "https://a.com"] ∧
  filter_new_links r1 urls (Some "s1") ≠ urls ∧
  filter_new_links r2 [Some "https://a.com"] (Some "s2") ≠ [Some "https://a.com"] ∧
  filter_new_links r2 [Some "https://a.com"] (Some "s1") ≠ [].
Proof.
  intros r urls r1 r2. repeat split; try reflexivity; vm_compute; discriminate.
Qed.

(** C10: a falsy URL (the empty string or [None]) is never returned by
    [filter_new_links], whatever the registry holds; [register_links]
    never adds it, and it does not count: the dictionary and the count are
    those obtained for [urls] without its falsy elements. *)
Theorem falsy_urls_ignored r urls script_name name now now' :
  (∀ u, u ∈ filter_new_links r urls script_name → url_truthy u = true) ∧
  links (register_links r urls name now now').1 !! EmptyString = links r !! EmptyString ∧
  links (register_links r urls name now now').1 =
    links (register_links r (List.filter url_truthy urls) name now now').1 ∧
  (register_links r urls name now now').2 =
    (register_links r (List.filter url_truthy urls) name now now').2.
Proof.
  split; [|split].
  - intros u. rewrite filter_new_links_filter, list_elem_of_In, filter_In.
    intros [_ Hk]. apply keptb_spec in Hk as (s & -> & Hs & _).
    by apply url_truthy_Some.
  - rewrite register_links_lookup. destruct (links r !! EmptyString); [done|].
    rewrite bool_decide_eq_false_2; [done|]. by intros [? _].
  - assert (Hloop : foldl (register_step name now) (links r, 0%nat) urls =
      foldl (register_step name now) (links r, 0%nat) (List.filter url_truthy urls))
      by apply register_loop_truthy.
    unfold register_links.
    destruct urls as [|u urls]; [done|].
    destruct (List.filter url_truthy (u :: urls)) as [|v l] eqn:Hf.
    + rewrite Hloop. done.
    + rewrite Hloop. done.
Qed.

Lemma falsy_urls_ignored_witness :
  let r := new_registry "t0" in
  let urls := [Some EmptyString; None; Some "https://a.com"] in
  Some "https://a.com" ∈ filter_new_links r urls None ∧
  url_truthy (Some "https://a.com") = true ∧
  (register_links r urls "s1" "t1" "t2").2 = 1%nat.
Proof.
  intros r urls.
  destruct (falsy_urls_ignored r urls None "s1" "t1" "t2") as (Htruthy & _ & _ & Hcount).
  assert (Hin : Some "https://a.com" ∈ filter_new_links r urls None).
  { change (filter_new_links r urls None) with [Some "https://a.com"]. left. }
  split; [exact Hin|]. split; [exact (Htruthy _ Hin)|].
  rewrite Hcount. reflexivity.
Defined.

End registry_facts.

(** ** The adapters' [format_result] *)

Section format_facts.
Import BaseScraper Samples.

Implicit Types (data result : dict) (k field : string) (v : value).

Lemma copy_field_lookup data result field k :
  copy_field data result field !! k =
    if bool_decide (k = field)
    then match data !! k with
         | Some v => if truthy v then Some v else result !! k
         | None => result !! k
         end
    else result !! k.
Proof.
  unfold copy_field. case_bool_decide as Hk.
  - subst k. destruct (data !! field) as [v|]; [|done].
    destruct (truthy v); [by rewrite lookup_insert_eq|done].
  - destruct (data !! field) as [v|]; [|done].
    destruct (truthy v); [by rewrite lookup_insert_ne|done].
Qed.

(** The copy loop, seen from one key. *)
Lemma copy_fields_lookup data fields result k :
  foldl (copy_field data) result fields !! k =
    if bool_decide (k ∈ fields)
    then match data !! k with
         | Some v => if truthy v then Some v else result !! k
         | None => result !! k
         end
    else result !! k.
Proof.
  revert result. induction fields as [|f fields IH]; intros result; simpl.
  - done.
  - rewrite IH, copy_field_lookup.
    destruct (decide (k = f)) as [->|Hne].
    + rewrite (bool_decide_eq_true_2 (f ∈ f :: fields)) by left.
      rewrite (bool_decide_eq_true_2 (f = f)) by done.
      case_bool_decide; destruct (data !! f) as [v|]; try done; by destruct (truthy v).
    + rewrite (bool_decide_eq_false_2 (k = f)) by done.
      rewrite (bool_decide_ext (k ∈ f :: fields) (k ∈ fields)); [done|].
      rewrite elem_of_cons. intuition.
Qed.

Lemma format_result_lookup self_name data source k :
  format_result self_name data source !! k =
    if bool_decide (k ∈ optional_fields)
    then match data !! k with
         | Some v =>
             if truthy v then Some v
             else required_fields self_name data source !! k
         | None => required_fields self_name data source !! k
         end
    else required_fields self_name data source !! k.
Proof. unfold format_result. apply copy_fields_lookup. Qed.

Lemma get_default data k (d : value) : get data k d = default d (data !! k).
Proof. unfold get. by destruct (data !! k). Qed.

(** The four fixed keys are not in the allow-list. *)
Lemma fixed_not_optional k :
  k ∈ ["title"; "link"; "thumbnail"; "source"] → k ∉ optional_fields.
Proof.
  intros Hk Ho. unfold optional_fields in Ho.
  repeat (apply elem_of_cons in Hk as [->|Hk];
          [by repeat (apply elem_of_cons in Ho as [?|Ho]; [done|]);
              apply elem_of_nil in Ho|]).
  by apply elem_of_nil in Hk.
Qed.

Lemma format_result_link self_name data source :
  format_result self_name data source !! "link" = Some (get data "link" (VStr EmptyString)).
Proof.
  rewrite format_result_lookup.
  rewrite bool_decide_eq_false_2 by (apply fixed_not_optional; set_solver).
  unfold required_fields.
  by rewrite lookup_insert_ne, lookup_insert_ne, lookup_insert_eq.
Qed.

Lemma required_fields_other self_name data source k :
  k ∉ ["title"; "link"; "thumbnail"; "source"] →
  required_fields self_name data source !! k = None.
Proof.
  intros Hk. unfold required_fields.
  rewrite !lookup_insert_ne by (intros <-; apply Hk; set_solver).
  apply lookup_empty.
Qed.

(** C9: [format_result] gives an item whose [title] is the raw title or,
    when absent, ["Untitled Content"]; whose [link] and [thumbnail] are
    the raw ones or, when absent, the empty string; whose [source] is the
    adapter's own name when no override is given (or an empty one) and
    the override otherwise; an optional field is in the item exactly when
    the raw input has it with a truthy value, which is copied; no other
    key is in the item. *)
Theorem format_result_shape self_name data source :
  let r := format_result self_name data source in
  r !! "title" = Some (default (VStr "Untitled Content") (data !! "title")) ∧
  r !! "link" = Some (default (VStr EmptyString) (data !! "link")) ∧
  r !! "thumbnail" = Some (default (VStr EmptyString) (data !! "thumbnail")) ∧
  (source = None ∨ source = Some EmptyString → r !! "source" = Some (VStr self_name)) ∧
  (∀ s, source = Some s → s ≠ EmptyString → r !! "source" = Some (VStr s)) ∧
  (∀ field v, field ∈ optional_fields →
     (r !! field = Some v ↔ data !! field = Some v ∧ truthy v = true)) ∧
  (∀ k, k ∉ ["title"; "link"; "thumbnail"; "source"] → k ∉ optional_fields →
     r !! k = None).
Proof.
  intros r. subst r.
  assert (Hfixed : ∀ k, k ∈ ["title"; "link"; "thumbnail"; "source"] →
            format_result self_name data source !! k =
            required_fields self_name data source !! k).
  { intros k Hk. rewrite format_result_lookup.
    by rewrite bool_decide_eq_false_2 by by apply fixed_not_optional. }
  split_and!.
  - rewrite Hfixed by set_solver. unfold required_fields.
    rewrite lookup_insert_ne, lookup_insert_ne, lookup_insert_ne by done.
    by rewrite lookup_insert_eq, get_default.
  - rewrite Hfixed by set_solver. unfold required_fields.
    rewrite lookup_insert_ne, lookup_insert_ne by done.
    by rewrite lookup_insert_eq, get_default.
  - rewrite Hfixed by set_solver. unfold required_fields.
    rewrite lookup_insert_ne by done.
    by rewrite lookup_insert_eq, get_default.
  - intros Hs. rewrite Hfixed by set_solver. unfold required_fields.
    rewrite lookup_insert_eq. by destruct Hs as [-> | ->].
  - intros s -> Hs. rewrite Hfixed by set_solver. unfold required_fields.
    rewrite lookup_insert_eq. simpl.
    by apply String.eqb_neq in Hs as ->.
  - intros field v Hf.
    rewrite format_result_lookup, bool_decide_eq_true_2 by done.
    rewrite required_fields_other
      by (intros ?; by eapply fixed_not_optional).
    destruct (data !! field) as [w|]; [|by split; [|intros []]].
    destruct (truthy w) eqn:Hw.
    + split; [by intros [= ->]|by intros [[= ->] _]].
    + split; [done|]. intros [[= ->] ?]. congruence.
  - intros k Hk Ho. rewrite format_result_lookup, bool_decide_eq_false_2 by done.
    by apply required_fields_other.
Qed.

Lemma format_result_shape_witness :
  let data : dict :=
    <["description" := VStr EmptyString]> (<["views" := VStr "12"]> (raw "A" "https://x.com")) in
  let r := format_result "google" data None in
  r !! "source" = Some (VStr "google") ∧
  format_result "google" data (Some "bing") !! "source" = Some (VStr "bing") ∧
  r !! "views" = Some (VStr "12") ∧
  r !! "description" = None ∧
  r !! "content" = None.
Proof.
  intros data r.
  destruct (format_result_shape "google" data None)
    as (_ & _ & _ & Hown & _ & Hopt & Hother).
  destruct (format_result_shape "google" data (Some "bing"))
    as (_ & _ & _ & _ & Hoverride & _).
  split; [apply Hown; by left|].
  split; [apply (Hoverride "bing"); [reflexivity|discriminate]|].
  split; [apply Hopt; [set_solver|split; reflexivity]|].
  split.
  - destruct (r !! "description") as [v|] eqn:Hv; [|reflexivity].
    apply Hopt in Hv as [Hd Ht]; [|set_solver].
    vm_compute in Hd. injection Hd as <-. discriminate Ht.
  - apply Hother; [|unfold optional_fields];
      intros H; repeat (apply elem_of_cons in H as [H|H]; [discriminate H|]);
      by apply elem_of_nil in H.
Defined.

(** The sample items have the link they were given. *)
Lemma item_link adapter title link :
  item adapter title link !! "link" = Some (VStr link).
Proof.
  unfold item. rewrite format_result_link. unfold get, raw.
  by rewrite lookup_insert_eq.
Qed.

Lemma link_key_item adapter title link :
  Dedup.link_key (item adapter title link) = Ok (HStr link).
Proof. unfold Dedup.link_key, getitem. by rewrite item_link. Qed.

End format_facts.

(** ** Deduplication by link *)

Section dedup_facts.
Import Dedup.

Implicit Types (l acc : list dict) (seen : gset hkey) (x y : dict) (k : hkey).

Lemma for_each_cons {S A} (body : S → A → res S) (s : S) (a : A) (l' : list A) :
  for_each body s (a :: l') = body s a ≫= λ s', for_each body s' l'.
Proof. reflexivity. Qed.

Lemma add_item_Ok st x k :
  link_key x = Ok k →
  add_item st x =
    Ok (if bool_decide (k ∉ st.2) then (st.1 ++ [x], {[k]} ∪ st.2) else st).
Proof. unfold add_item. intros ->. simpl. by case_bool_decide. Qed.

Lemma add_item_Raise st x e : link_key x = Raise e → add_item st x = Raise e.
Proof. unfold add_item. by intros ->. Qed.

(** The loop never raises on items that have a hashable link, and it
    raises on any other. *)
Lemma dedup_loop_total l st :
  Forall has_link l → ∃ st', for_each add_item st l = Ok st'.
Proof.
  intros H. revert st. induction H as [|x l [k Hk] _ IH]; intros st.
  - by eexists.
  - rewrite for_each_cons, (add_item_Ok _ _ _ Hk). apply IH.
Qed.

Lemma dedup_loop_has_link l st st' :
  for_each add_item st l = Ok st' → Forall has_link l.
Proof.
  revert st. induction l as [|x l IH]; intros st; [by constructor|].
  rewrite for_each_cons. destruct (link_key x) as [k|e] eqn:Hk.
  - rewrite (add_item_Ok _ _ _ Hk). intros H.
    constructor; [by exists k|]. eapply IH, H.
  - by rewrite (add_item_Raise _ _ _ Hk).
Qed.

(** The loop computes [first_seen] and collects the keys. *)
Lemma dedup_loop_first_seen l acc seen st' :
  for_each add_item (acc, seen) l = Ok st' →
  st'.1 = acc ++ first_seen seen l ∧ st'.2 = key_set l ∪ seen.
Proof.
  revert acc seen. induction l as [|x l IH]; intros acc seen.
  - intros [= <-]. simpl. rewrite app_nil_r. split; [done|]. set_solver.
  - rewrite for_each_cons. simpl first_seen. simpl key_set.
    destruct (link_key x) as [k|e] eqn:Hk.
    + rewrite (add_item_Ok _ _ _ Hk). cbn [fst snd].
      case_bool_decide as Hin; intros H; apply IH in H as [-> ->].
      * rewrite <- app_assoc. split; [done|]. set_solver.
      * split; [done|]. set_solver.
    + by rewrite (add_item_Raise _ _ _ Hk).
Qed.

Lemma first_seen_cons_new seen x l k :
  link_key x = Ok k → k ∉ seen →
  first_seen seen (x :: l) = x :: first_seen ({[k]} ∪ seen) l.
Proof. intros Hk Hin. simpl. rewrite Hk. by rewrite bool_decide_eq_true_2. Qed.

Lemma first_seen_cons_old seen x l k :
  link_key x = Ok k → k ∈ seen → first_seen seen (x :: l) = first_seen seen l.
Proof.
  intros Hk Hin. simpl. rewrite Hk. by rewrite bool_decide_eq_false_2 by auto.
Qed.

Lemma first_seen_sublist seen l : sublist (first_seen seen l) l.
Proof.
  revert seen. induction l as [|x l IH]; intros seen; simpl; [done|].
  destruct (link_key x) as [k|e]; [case_bool_decide|].
  - by apply sublist_skip.
  - by apply sublist_cons.
  - by apply sublist_cons.
Qed.

Lemma first_seen_fresh seen l y :
  y ∈ first_seen seen l → ∃ k, link_key y = Ok k ∧ k ∉ seen.
Proof.
  revert seen. induction l as [|x l IH]; intros seen; simpl.
  - by intros ?%elem_of_nil.
  - destruct (link_key x) as [k|e] eqn:Hk; [case_bool_decide as Hin|].
    + intros [->|Hy]%elem_of_cons; [by exists k|].
      apply IH in Hy as (k' & ? & Hk'). exists k'. split; [done|]. set_solver.
    + apply IH.
    + apply IH.
Qed.

Lemma first_seen_NoDup seen l : NoDup (link_key <$> first_seen seen l).
Proof.
  revert seen. induction l as [|x l IH]; intros seen; simpl; [constructor|].
  destruct (link_key x) as [k|e] eqn:Hk; [case_bool_decide as Hin|]; [|done..].
  rewrite fmap_cons. constructor; [|done].
  rewrite Hk. intros (y & Hy & Hin')%list_elem_of_fmap.
  apply first_seen_fresh in Hin' as (k' & Hk' & Hfresh).
  rewrite Hk' in Hy. simplify_eq. set_solver.
Qed.

(** Every key of the input that is not taken yet is represented. *)
Lemma first_seen_covers seen l x k :
  x ∈ l → link_key x = Ok k → k ∉ seen →
  ∃ y, y ∈ first_seen seen l ∧ link_key y = Ok k.
Proof.
  revert seen. induction l as [|z l IH]; intros seen; simpl.
  - by intros ?%elem_of_nil.
  - intros [->|Hx]%elem_of_cons Hk Hfresh.
    + rewrite Hk. rewrite bool_decide_eq_true_2 by done.
      exists z. split; [left|done].
    + destruct (link_key z) as [k'|e] eqn:Hz; [case_bool_decide as Hin|].
      * destruct (decide (k = k')) as [->|Hne].
        -- exists z. split; [left|done].
        -- destruct (IH ({[k']} ∪ seen) Hx Hk) as (y & ? & ?); [set_solver|].
           exists y. split; [by right|done].
      * by apply IH.
      * by apply IH.
Qed.

(** A survivor is the first item of the input with its link. *)
Lemma first_seen_first seen l y :
  y ∈ first_seen seen l →
  ∃ pre post, l = pre ++ y :: post ∧ ∀ x, x ∈ pre → link_key x ≠ link_key y.
Proof.
  revert seen. induction l as [|z l IH]; intros seen; simpl.
  - by intros ?%elem_of_nil.
  - destruct (link_key z) as [k|e] eqn:Hz; [case_bool_decide as Hin|].
    + intros [->|Hy]%elem_of_cons.
      * exists [], l. split; [done|]. by intros ? ?%elem_of_nil.
      * pose proof (first_seen_fresh _ _ _ Hy) as (k' & Hk' & Hfresh).
        apply IH in Hy as (pre & post & -> & Hpre).
        exists (z :: pre), post. split; [done|].
        intros x [->|Hx]%elem_of_cons; [|by apply Hpre].
        rewrite Hz, Hk'. intros [= ->]. set_solver.
    + intros Hy.
      pose proof (first_seen_fresh _ _ _ Hy) as (k' & Hk' & Hfresh).
      apply IH in Hy as (pre & post & -> & Hpre).
      exists (z :: pre), post. split; [done|].
      intros x [->|Hx]%elem_of_cons; [|by apply Hpre].
      rewrite Hz, Hk'. by intros [= ->].
    + intros Hy.
      pose proof (first_seen_fresh _ _ _ Hy) as (k' & Hk' & Hfresh).
      apply IH in Hy as (pre & post & -> & Hpre).
      exists (z :: pre), post. split; [done|].
      intros x [->|Hx]%elem_of_cons; [|by apply Hpre].
      by rewrite Hz, Hk'.
Qed.

(** A list without repeated links, none of them taken, is left as it is. *)
Lemma first_seen_id seen l :
  Forall has_link l → NoDup (link_key <$> l) →
  (∀ x k, x ∈ l → link_key x = Ok k → k ∉ seen) →
  first_seen seen l = l.
Proof.
  intros Hall. revert seen. induction Hall as [|x l [k Hk] _ IH]; intros seen; [done|].
  rewrite fmap_cons. intros [Hx Hnd]%NoDup_cons Hfresh. simpl.
  rewrite Hk. rewrite bool_decide_eq_true_2 by (eapply Hfresh; [left|done]).
  f_equal. apply IH; [done|].
  intros y k' Hy Hk'. apply not_elem_of_union. split.
  - intros ->%elem_of_singleton. apply Hx. rewrite Hk, <- Hk'.
    by apply list_elem_of_fmap_2.
  - eapply Hfresh; [by right|done].
Qed.

Lemma first_seen_app seen l1 l2 :
  first_seen seen (l1 ++ l2) =
  first_seen seen l1 ++ first_seen (key_set l1 ∪ seen) l2.
Proof.
  revert seen. induction l1 as [|x l1 IH]; intros seen; simpl.
  - by rewrite (left_id_L ∅ (∪)).
  - destruct (link_key x) as [k|e] eqn:Hk; [case_bool_decide as Hin|].
    + rewrite IH. simpl. f_equal. f_equal. f_equal. set_solver.
    + rewrite IH. f_equal. f_equal. set_solver.
    + apply IH.
Qed.

End dedup_facts.

(** ** The coordinators *)

Section coordinator_facts.
Import Dedup Coordinator Samples.

Implicit Types (tasks : list task) (t : task) (a : acc) (l : list dict).

Lemma key_set_app l1 l2 : key_set (l1 ++ l2) = key_set l1 ∪ key_set l2.
Proof.
  induction l1 as [|x l1 IH]; simpl; [set_solver|].
  destruct (link_key x); rewrite IH; set_solver.
Qed.

Lemma returned_items_cons t tasks :
  returned_items (t :: tasks) =
  match outcome t with Returned l => l | Failed _ => [] end ++ returned_items tasks.
Proof. reflexivity. Qed.

Lemma returned_items_single n l : returned_items [Task n (Returned l)] = l.
Proof. unfold returned_items. cbn [map concat outcome]. apply app_nil_r. Qed.

Lemma scrape_step_Failed a t msg : outcome t = Failed msg → scrape_step a t = Ok a.
Proof. unfold scrape_step. by intros ->. Qed.

Lemma scrape_step_Returned a t result :
  outcome t = Returned result →
  scrape_step a t =
    for_each add_item (combined_results a, seen_urls a) result ≫= λ st,
    Ok {| combined_results := st.1;
          sources := if productive t then sources a ++ [name t] else sources a;
          seen_urls := st.2 |}.
Proof. unfold scrape_step, productive. intros ->. by destruct result. Qed.

(** The fan-in loop: what it leaves in its three accumulators. *)
Lemma scrape_loop_Ok tasks a a' :
  for_each scrape_step a tasks = Ok a' →
  combined_results a' =
    combined_results a ++ first_seen (seen_urls a) (returned_items tasks) ∧
  seen_urls a' = key_set (returned_items tasks) ∪ seen_urls a ∧
  sources a' = sources a ++ (name <$> List.filter productive tasks).
Proof.
  revert a. induction tasks as [|t tasks IH]; intros a.
  - intros [= <-]. simpl. rewrite !app_nil_r. split; [done|]. split; [set_solver|done].
  - rewrite for_each_cons, returned_items_cons. simpl List.filter.
    destruct (outcome t) as [result|msg] eqn:Ht.
    + rewrite (scrape_step_Returned _ _ _ Ht).
      destruct (for_each add_item (combined_results a, seen_urls a) result)
        as [st|e] eqn:Hst; simpl; [|done].
      apply dedup_loop_first_seen in Hst as [H1 H2].
      intros H. apply IH in H as (-> & -> & ->). simpl. rewrite H1, H2.
      rewrite first_seen_app, key_set_app, <- !app_assoc.
      split; [done|]. split; [set_solver|].
      by destruct (productive t); simpl; rewrite <- ?app_assoc.
    + rewrite (scrape_step_Failed _ _ _ Ht). simpl.
      replace (productive t) with false by (unfold productive; by rewrite Ht).
      apply IH.
Qed.

Lemma scrape_loop_has_link tasks a a' :
  for_each scrape_step a tasks = Ok a' → Forall has_link (returned_items tasks).
Proof.
  revert a. induction tasks as [|t tasks IH]; intros a; [by constructor|].
  rewrite for_each_cons, returned_items_cons.
  destruct (outcome t) as [result|msg] eqn:Ht.
  - rewrite (scrape_step_Returned _ _ _ Ht).
    destruct (for_each add_item (combined_results a, seen_urls a) result)
      as [st|e] eqn:Hst; simpl; [|done].
    intros H. apply Forall_app. split; [by eapply dedup_loop_has_link|by eapply IH].
  - rewrite (scrape_step_Failed _ _ _ Ht). apply IH.
Qed.

Lemma scrape_loop_total tasks a :
  Forall has_link (returned_items tasks) → ∃ a', for_each scrape_step a tasks = Ok a'.
Proof.
  revert a. induction tasks as [|t tasks IH]; intros a; [by eexists|].
  rewrite for_each_cons, returned_items_cons.
  destruct (outcome t) as [result|msg] eqn:Ht.
  - rewrite (scrape_step_Returned _ _ _ Ht).
    intros [H1 H2]%Forall_app.
    destruct (dedup_loop_total result (combined_results a, seen_urls a) H1) as [st ->].
    simpl. by apply IH.
  - rewrite (scrape_step_Failed _ _ _ Ht). apply IH.
Qed.

(** Tasks that raised can be left out of the loop. *)
Lemma scrape_loop_without_failed tasks a :
  for_each scrape_step a tasks =
  for_each scrape_step a (List.filter (λ t, negb (failed t)) tasks).
Proof.
  revert a. induction tasks as [|t tasks IH]; intros a; [done|].
  simpl List.filter. unfold failed at 1.
  destruct (outcome t) as [result|msg] eqn:Ht; simpl negb; cbv iota.
  - rewrite !for_each_cons. destruct (scrape_step a t); simpl; [apply IH|done].
  - rewrite for_each_cons, (scrape_step_Failed _ _ _ Ht). simpl. apply IH.
Qed.

Lemma scrape_Ok kw d now tasks resp :
  scrape kw d now tasks = Ok resp →
  results resp = first_seen ∅ (returned_items tasks) ∧
  sources_used (metadata resp) = name <$> List.filter productive tasks ∧
  total_results (metadata resp) = length (results resp).
Proof.
  unfold scrape.
  destruct (for_each scrape_step _ tasks) as [a|e] eqn:Ha; simpl; [|done].
  intros [= <-]. simpl. apply scrape_loop_Ok in Ha as (-> & _ & ->). done.
Qed.

Lemma scrape_total kw d now tasks :
  Forall has_link (returned_items tasks) → ∃ resp, scrape kw d now tasks = Ok resp.
Proof.
  intros H. unfold scrape.
  destruct (scrape_loop_total tasks (Acc [] [] ∅) H) as [a ->]. by eexists.
Qed.

Lemma scrape_has_link kw d now tasks resp :
  scrape kw d now tasks = Ok resp → Forall has_link (returned_items tasks).
Proof.
  unfold scrape.
  destruct (for_each scrape_step _ tasks) as [a|e] eqn:Ha; simpl; [|done].
  intros _. by eapply scrape_loop_has_link.
Qed.

Lemma merge_Ok all out :
  MultiSourceScraper.merge all = Ok out → out = take 50 (first_seen ∅ all).
Proof.
  unfold MultiSourceScraper.merge.
  destruct (for_each add_item ([], ∅) all) as [st|e] eqn:Hst; simpl; [|done].
  intros [= <-]. apply dedup_loop_first_seen in Hst as [-> _]. done.
Qed.

Lemma merge_total all :
  Forall has_link all → ∃ out, MultiSourceScraper.merge all = Ok out.
Proof.
  intros H. unfold MultiSourceScraper.merge.
  destruct (dedup_loop_total all ([], ∅) H) as [st ->]. by eexists.
Qed.

Lemma merge_has_link all out :
  MultiSourceScraper.merge all = Ok out → Forall has_link all.
Proof.
  unfold MultiSourceScraper.merge.
  destruct (for_each add_item ([], ∅) all) as [st|e] eqn:Hst; simpl; [|done].
  intros _. by eapply dedup_loop_has_link.
Qed.

(** A prefix of the survivors still has one item per link, each the first
    of the input with that link. *)
Lemma take_first_seen_NoDup n seen l : NoDup (link_key <$> take n (first_seen seen l)).
Proof.
  rewrite fmap_take. eapply sublist_NoDup; [|apply sublist_take].
  apply first_seen_NoDup.
Qed.

Lemma has_link_sublist l1 l2 :
  l1 `sublist_of` l2 → Forall has_link l2 → Forall has_link l1.
Proof.
  intros Hsub. rewrite !Forall_forall. intros H x Hx.
  apply H. by eapply elem_of_sublist.
Qed.

(** The sample run: its items have links, and the second [https://x.com]
    is the one that goes. *)
Lemma two_adapters_have_links : Forall has_link (returned_items two_adapters).
Proof.
  change (returned_items two_adapters) with
    [item "google" "A" "https://x.com"; item "duckduckgo" "B" "https://x.com";
     item "duckduckgo" "C" "https://y.com"].
  repeat apply Forall_cons_2; try apply Forall_nil_2;
    eexists; apply link_key_item.
Qed.

Lemma two_adapters_first_seen :
  first_seen ∅ (returned_items two_adapters) =
  [item "google" "A" "https://x.com"; item "duckduckgo" "C" "https://y.com"].
Proof.
  change (returned_items two_adapters) with
    [item "google" "A" "https://x.com"; item "duckduckgo" "B" "https://x.com";
     item "duckduckgo" "C" "https://y.com"].
  rewrite (first_seen_cons_new _ _ _ _ (link_key_item _ _ _)) by set_solver.
  rewrite (first_seen_cons_old _ _ _ _ (link_key_item _ _ _)) by set_solver.
  rewrite (first_seen_cons_new _ _ _ _ (link_key_item _ _ _)) by set_solver.
  done.
Qed.

Lemma one_failing_names : NoDup (name <$> one_failing).
Proof. apply (bool_decide_unpack _). by vm_compute. Qed.

(** The long sample run: every item has a link, and no link comes twice. *)
Lemma page_has_links adapter n : Forall has_link (page adapter n).
Proof.
  unfold page. apply Forall_fmap, Forall_forall. intros i _.
  eexists. apply link_key_item.
Qed.

Lemma long_run_items :
  returned_items long_run = item "google" "No link" EmptyString :: page "google" 51.
Proof. unfold long_run, returned_items. cbn [map concat outcome]. apply app_nil_r. Qed.

Lemma long_run_has_links : Forall has_link (returned_items long_run).
Proof.
  rewrite long_run_items. apply Forall_cons_2; [|apply page_has_links].
  eexists. apply link_key_item.
Qed.

Lemma long_run_first_seen_length :
  length (first_seen ∅ (returned_items long_run)) = 52%nat.
Proof. vm_compute. reflexivity. Qed.



(** C3: a task that settled with an exception contributes nothing: the
    run is the run without the failed tasks, and it returns whenever the
    returned items have links.  [sources_used] lists, in task order, the
    names of exactly the tasks that returned a non-empty list; when the
    adapters have different names, the name of a failed one is not in it. *)
Theorem failed_task_contributes_nothing kw d now tasks :
  scrape kw d now tasks =
    scrape kw d now (List.filter (λ t, negb (failed t)) tasks) ∧
  (Forall has_link (returned_items tasks) →
     ∃ resp, scrape kw d now tasks = Ok resp) ∧
  (∀ resp, scrape kw d now tasks = Ok resp →
     results resp = first_seen ∅ (returned_items tasks) ∧
     sources_used (metadata resp) = name <$> List.filter productive tasks ∧
     (∀ n, n ∈ sources_used (metadata resp) ↔
           ∃ t, t ∈ tasks ∧ name t = n ∧ productive t = true) ∧
     (NoDup (name <$> tasks) →
      ∀ t, t ∈ tasks → failed t = true → name t ∉ sources_used (metadata resp))).
Proof.
  split; [|split; [apply scrape_total|]].
  - unfold scrape. by rewrite scrape_loop_without_failed.
  - intros resp Hresp. apply scrape_Ok in Hresp as (-> & -> & _).
    assert (Hiff : ∀ n, n ∈ name <$> List.filter productive tasks ↔
                        ∃ t, t ∈ tasks ∧ name t = n ∧ productive t = true).
    { intros n. rewrite list_elem_of_fmap. split.
      - intros (t & -> & Ht). apply list_elem_of_In, filter_In in Ht as [Ht ?].
        exists t. by rewrite list_elem_of_In.
      - intros (t & Ht & <- & Hp). exists t. split; [done|].
        apply list_elem_of_In, filter_In. by rewrite <- list_elem_of_In. }
    repeat split; try apply Hiff.
    intros Hnd t Ht Hfail (t' & Ht' & Hname & Hp)%Hiff.
    assert (t' = t) as ->.
    { apply list_elem_of_lookup in Ht as [i Hi]. apply list_elem_of_lookup in Ht' as [j Hj].
      assert (i = j) as ->; [|congruence].
      eapply NoDup_lookup; [exact Hnd| |].
      - rewrite list_lookup_fmap, Hi. reflexivity.
      - rewrite list_lookup_fmap, Hj. simpl. by rewrite Hname. }
    unfold failed, productive in *. destruct (outcome t); done.
Qed.

Lemma failed_task_contributes_nothing_witness :
  ∃ resp, scrape "q" None "t" one_failing = Ok resp ∧
    scrape "q" None "t" one_failing = scrape "q" None "t" two_adapters ∧
    sources_used (metadata resp) = ["google"; "duckduckgo"] ∧
    "firecrawl" ∉ sources_used (metadata resp).
Proof.
  destruct (failed_task_contributes_nothing "q" None "t" one_failing)
    as (Hdrop & Htotal & Hsrc).
  destruct Htotal as [resp Hresp].
  { apply two_adapters_have_links. }
  exists resp. split; [exact Hresp|]. split; [exact Hdrop|].
  destruct (Hsrc resp Hresp) as (_ & Hnames & _ & Hfailed). split.
  - rewrite Hnames. reflexivity.
  - apply (Hfailed one_failing_names
             (Task "firecrawl" (Failed "timeout"))); [left|reflexivity].
Defined.

(** Merging a list that already has one item per link and at most 50
    items gives the list back. *)
Lemma merge_fixpoint all :
  Forall has_link all → NoDup (link_key <$> all) → (length all ≤ 50)%nat →
  MultiSourceScraper.merge all = Ok all.
Proof.
  intros Hall Hnd Hlen. destruct (merge_total all Hall) as [out Hout].
  rewrite Hout. f_equal. apply merge_Ok in Hout as ->.
  rewrite first_seen_id; [by apply take_ge|done|done|set_solver].
Qed.

(** The merge of [MultiSourceScraper.scrape] cuts the deduplicated list
    at 50 items and lets the first item of the input through, whatever
    its link; a coordinator run returns the deduplicated list whole, the
    empty link being a link like any other. *)
Lemma merge_caps_at_50 :
  (∀ all out, MultiSourceScraper.merge all = Ok out →
     (length out ≤ 50)%nat ∧ out = take 50 (first_seen ∅ all) ∧
     ∀ x rest, all = x :: rest → out !! 0%nat = Some x) ∧
  (∀ kw d now tasks resp, scrape kw d now tasks = Ok resp →
     results resp = first_seen ∅ (returned_items tasks) ∧
     (∀ x, x ∈ returned_items tasks → link_key x = Ok (HStr EmptyString) →
           ∃ y, y ∈ results resp ∧ link_key y = Ok (HStr EmptyString)) ∧
     (∀ (i j : nat) x y,
           results resp !! i = Some x → results resp !! j = Some y →
           link_key x = Ok (HStr EmptyString) → link_key y = Ok (HStr EmptyString) →
           i = j)).
Proof.
  split.
  - intros all out Hout. pose proof (merge_has_link _ _ Hout) as Hall.
    apply merge_Ok in Hout as ->. repeat split.
    + rewrite length_take. lia.
    + intros x rest ->. apply Forall_cons in Hall as [[k Hk] _].
      simpl. rewrite Hk. by rewrite bool_decide_eq_true_2 by set_solver.
  - intros kw d now tasks resp Hresp. apply scrape_Ok in Hresp as (-> & _ & _).
    repeat split.
    + intros x Hx Hk. apply (first_seen_covers ∅ _ x); [done|done|set_solver].
    + intros i j x y Hi Hj Hx Hy.
      eapply NoDup_lookup; [apply (first_seen_NoDup ∅ (returned_items tasks))| |].
      * rewrite list_lookup_fmap, Hi. reflexivity.
      * rewrite list_lookup_fmap, Hj. simpl. by rewrite Hx, Hy.
Qed.

(** C2, where the code departs from it: a coordinator run over one
    adapter that returns an item with an empty link followed by 51 items
    with other links yields all 52 items, the empty-link one first; the
    merge of [MultiSourceScraper.scrape] cuts the same batch at 50 items
    and keeps the empty-link item as well. *)
Theorem scrape_exceeds_50_and_keeps_empty_link :
  (∃ resp, scrape "q" None "t" long_run = Ok resp ∧
     length (results resp) = 52%nat ∧
     ∃ x, results resp !! 0%nat = Some x ∧ x !! "link" = Some (VStr EmptyString)) ∧
  (∃ out, MultiSourceScraper.merge (returned_items long_run) = Ok out ∧
     (length out ≤ 50)%nat ∧
     ∃ x, out !! 0%nat = Some x ∧ x !! "link" = Some (VStr EmptyString)).
Proof.
  split.
  - destruct (scrape_total "q" None "t" long_run long_run_has_links) as [resp Hresp].
    exists resp. split; [exact Hresp|].
    apply scrape_Ok in Hresp as (-> & _ & _).
    split; [apply long_run_first_seen_length|].
    exists (item "google" "No link" EmptyString). split; [|apply item_link].
    rewrite long_run_items.
    by rewrite (first_seen_cons_new _ _ _ _ (link_key_item _ _ _)) by set_solver.
  - destruct (merge_total _ long_run_has_links) as [out Hout].
    exists out. split; [exact Hout|].
    destruct merge_caps_at_50 as [Hmerge _].
    destruct (Hmerge _ _ Hout) as (Hlen & _ & Hhead). split; [exact Hlen|].
    exists (item "google" "No link" EmptyString). split; [|apply item_link].
    apply (Hhead _ (page "google" 51)). apply long_run_items.
Qed.

(** C6: on every batch of result items (items that have a link) the merge
    returns, and merging its own output gives that output back, for
    [MultiSourceScraper]'s merge and for the coordinator's alike; a list
    that already has one item per link (and at most 50 items) is returned
    as it is. *)
Theorem merge_total_and_idempotent :
  (∀ all, Forall has_link all → ∃ out, MultiSourceScraper.merge all = Ok out) ∧
  (∀ all out, MultiSourceScraper.merge all = Ok out →
          MultiSourceScraper.merge out = Ok out) ∧
  (∀ all, Forall has_link all → NoDup (link_key <$> all) → (length all ≤ 50)%nat →
          MultiSourceScraper.merge all = Ok all) ∧
  (∀ kw d now tasks resp, scrape kw d now tasks = Ok resp →
     ∀ n, ∃ resp', scrape kw d now [Task n (Returned (results resp))] = Ok resp' ∧
                   results resp' = results resp).
Proof.
  split; [apply merge_total|]. split; [|split; [apply merge_fixpoint|]].
  - intros all out Hout. pose proof (merge_has_link _ _ Hout) as Hall.
    apply merge_Ok in Hout as ->. apply merge_fixpoint.
    + eapply has_link_sublist; [|exact Hall].
      etrans; [apply sublist_take|apply first_seen_sublist].
    + apply take_first_seen_NoDup.
    + rewrite length_take. lia.
  - intros kw d now tasks resp Hresp n.
    pose proof (scrape_has_link _ _ _ _ _ Hresp) as Hall.
    apply scrape_Ok in Hresp as (Hres & _ & _).
    destruct (scrape_total kw d now [Task n (Returned (results resp))]) as [resp' Hresp'].
    { rewrite returned_items_single, Hres.
      eapply has_link_sublist; [apply first_seen_sublist|exact Hall]. }
    exists resp'. split; [done|].
    apply scrape_Ok in Hresp' as (-> & _ & _). rewrite returned_items_single, Hres.
    apply first_seen_id.
    + eapply has_link_sublist; [apply first_seen_sublist|exact Hall].
    + apply first_seen_NoDup.
    + set_solver.
Qed.

Lemma merge_total_and_idempotent_witness :
  ∃ out, MultiSourceScraper.merge (returned_items two_adapters) = Ok out ∧
    out = [item "google" "A" "https://x.com"; item "duckduckgo" "C" "https://y.com"] ∧
    MultiSourceScraper.merge out = Ok out.
Proof.
  destruct merge_total_and_idempotent as (Htotal & Hidem & _).
  destruct (Htotal _ two_adapters_have_links) as [out Hout].
  exists out. split; [exact Hout|]. split.
  - rewrite (merge_Ok _ _ Hout), two_adapters_first_seen. reflexivity.
  - apply (Hidem _ _ Hout).
Defined.

End coordinator_facts.


(** ** Python string methods *)

Section string_facts.
Import PyStr ContentProcessor.

Implicit Types (s sub : string) (c : ascii).

Lemma prefix_spec sub s :
  String.prefix sub s = true ↔ ∃ post, s = sub +:+ post.
Proof.
  revert s. induction sub as [|a sub IH]; intros s.
  - destruct s; simpl; split; eauto.
  - destruct s as [|b s]; simpl.
    + split; [done|]. by intros [? ?].
    + destruct (Ascii.ascii_dec a b) as [->|Hne].
      * rewrite IH. split; intros [post Hs]; exists post.
        -- simpl. by rewrite Hs.
        -- by injection Hs.
      * split; [done|]. intros [post [= ? ?]]. done.
Qed.

Lemma contains_spec sub s : contains sub s = true ↔ substring sub s.
Proof.
  unfold substring. induction s as [|b s IH].
  - cbn [contains]. rewrite orb_false_r, prefix_spec. split.
    + intros [post ->]. by exists EmptyString, post.
    + intros (pre & post & Hs). destruct pre; [by exists post|done].
  - cbn [contains]. rewrite orb_true_iff, IH, prefix_spec. split.
    + intros [[post ->]|(pre & post & ->)].
      * by exists EmptyString, post.
      * by exists (String b pre), post.
    + intros (pre & post & Hs). destruct pre as [|a pre].
      * left. by exists post.
      * right. injection Hs as -> ->. by exists pre, post.
Qed.

(** [count] finds an occurrence exactly when there is one. *)
Lemma count_pos s sub : (0 < count s sub)%nat ↔ substring sub s.
Proof.
  rewrite <- contains_spec. unfold count. induction s as [|b s IH].
  - cbn [count_go contains]. rewrite orb_false_r.
    destruct (String.prefix sub EmptyString); split; (done || lia).
  - cbn [count_go contains].
    destruct (String.prefix sub (String b s)); simpl; [split; (done || lia)|].
    apply IH.
Qed.

Lemma length_lower s : String.length (lower s) = String.length s.
Proof. induction s; simpl; congruence. Qed.

Lemma lower_char_idemp c : lower_char (lower_char c) = lower_char c.
Proof. by destruct c as [[] [] [] [] [] [] [] []]. Qed.

Lemma lower_idemp s : lower (lower s) = lower s.
Proof. induction s; simpl; [done|]. by rewrite lower_char_idemp, IHs. Qed.

(** The tags are lowercase and longer than two characters. *)
Lemma keyword_tags_shape keywords :
  Forall (λ tag, (2 < String.length tag)%nat ∧ lower tag = tag) (keyword_tags keywords).
Proof.
  unfold keyword_tags. apply Forall_forall. intros tag Htag.
  apply list_elem_of_In, in_map_iff in Htag as (kw & <- & Hkw).
  apply filter_In in Hkw as [_ Hlen]. apply Nat.ltb_lt in Hlen.
  by rewrite length_lower, lower_idemp.
Qed.

(** The counting loop adds up the occurrences. *)
Lemma keyword_count_occurrences tags title description :
  keyword_count tags title description = Z.of_nat (occurrences tags title description).
Proof.
  unfold keyword_count, occurrences.
  assert (H : ∀ n : Z,
    foldl (λ n tag, n + Z.of_nat (count title tag) + Z.of_nat (count description tag))
          n tags =
    n + Z.of_nat (sum_list (map (λ tag, count title tag + count description tag)%nat tags))).
  { induction tags as [|tag tags IH]; intros n; simpl; [lia|]. rewrite IH. lia. }
  rewrite H. lia.
Qed.

End string_facts.

(** ** The enrichment stage *)

Section processor_facts.
Import PyStr ContentProcessor Samples.

Implicit Types (item : dict) (k : string) (v : value) (m : dict).

Lemma as_str_get item k :
  str_field item k → as_str (get item k (VStr EmptyString)) = Ok (text item k).
Proof.
  unfold str_field, get, text. destruct (item !! k) as [[]|]; done.
Qed.

Lemma ensure_metadata_other item k :
  k ≠ "metadata" → ensure_metadata item !! k = item !! k.
Proof.
  intros Hk. unfold ensure_metadata.
  destruct (item !! "metadata"); [done|]. by rewrite lookup_insert_ne.
Qed.

Lemma ensure_metadata_metadata item :
  dict_field item "metadata" →
  ensure_metadata item !! "metadata" =
    Some (VDict match item !! "metadata" with
                | Some (VDict m0) => m0
                | _ => ∅
                end).
Proof.
  unfold dict_field, ensure_metadata.
  destruct (item !! "metadata") as [[]|] eqn:Hm; try done.
  by rewrite lookup_insert_eq.
Qed.

Lemma set_metadata_Ok item m k v :
  item !! "metadata" = Some (VDict m) →
  set_metadata item k v = Ok (<["metadata" := VDict (<[k := v]> m)]> item).
Proof. unfold set_metadata, getitem. by intros ->. Qed.

Lemma get_insert_ne item k k' v (d : value) :
  k ≠ k' → get (<[k := v]> item) k' d = get item k' d.
Proof. intros H. unfold get. by rewrite lookup_insert_ne. Qed.

Lemma get_ensure_metadata item k (d : value) :
  k ≠ "metadata" → get (ensure_metadata item) k d = get item k d.
Proof. intros H. unfold get. by rewrite ensure_metadata_other. Qed.

(** The fallback annotates every well-typed item, and does not raise
    on it. *)
Lemma dummy_item_enriched keywords item :
  well_typed item →
  ∃ item', dummy_item (keyword_tags keywords) item = Ok item' ∧
           enriched keywords item item'.
Proof.
  intros (Hlink & Htitle & Hdesc & Hmeta). unfold dummy_item.
  rewrite (set_metadata_Ok _ _ _ _ (ensure_metadata_metadata _ Hmeta)). simpl.
  rewrite !get_insert_ne, !get_ensure_metadata by done.
  rewrite (as_str_get _ _ Hlink), (as_str_get _ _ Htitle), (as_str_get _ _ Hdesc).
  simpl.
  erewrite set_metadata_Ok by apply lookup_insert_eq.
  eexists. split; [reflexivity|].
  eexists. split; [apply lookup_insert_eq|]. split; [|split; [|split]].
  - rewrite lookup_insert_eq. unfold relevance.
    rewrite keyword_count_occurrences. do 4 f_equal. lia.
  - rewrite lookup_insert_ne by done. apply lookup_insert_eq.
  - intros k H1 H2. rewrite !lookup_insert_ne by done.
    by destruct (item !! "metadata") as [[]|].
  - intros k Hk. rewrite !lookup_insert_ne by done.
    by apply ensure_metadata_other.
Qed.

Lemma each_item_cons (f : dict → res dict) item rest :
  each_item f (item :: rest) =
  f item ≫= λ item', each_item f rest ≫= λ rest', Ok (item' :: rest').
Proof. reflexivity. Qed.

Lemma process_with_dummy_enriched keywords results :
  Forall well_typed results →
  ∃ out, _process_with_dummy results keywords = Ok out ∧
         Forall2 (enriched keywords) results out.
Proof.
  unfold _process_with_dummy. induction 1 as [|item rest Hitem _ IH].
  - exists []. by split.
  - destruct (dummy_item_enriched keywords item Hitem) as (item' & Hi & He).
    destruct IH as (rest' & Hr & Hrest).
    exists (item' :: rest'). rewrite each_item_cons, Hi. simpl. rewrite Hr.
    split; [done|]. by constructor.
Qed.

(** The priority order of the content types. *)
Lemma classify_priority url :
  let image := substring ".jpg" url ∨ substring ".png" url ∨ substring ".gif" url in
  let document := substring ".pdf" url ∨ substring ".doc" url in
  (substring "youtube" url → classify url = "video") ∧
  (¬ substring "youtube" url → substring "wikipedia" url →
     classify url = "article") ∧
  (¬ substring "youtube" url → ¬ substring "wikipedia" url → image →
     classify url = "image") ∧
  (¬ substring "youtube" url → ¬ substring "wikipedia" url → ¬ image → document →
     classify url = "document") ∧
  (¬ substring "youtube" url → ¬ substring "wikipedia" url → ¬ image → ¬ document →
     classify url = "webpage").
Proof.
  intros image document. subst image document. unfold classify. cbn [existsb].
  rewrite <- !contains_spec.
  destruct (contains "youtube" url), (contains "wikipedia" url),
    (contains ".jpg" url), (contains ".png" url), (contains ".gif" url),
    (contains ".pdf" url), (contains ".doc" url); simpl; intuition congruence.
Qed.


Lemma raw_well_typed title link : well_typed (raw title link).
Proof.
  unfold well_typed, str_field, dict_field, raw.
  rewrite lookup_insert_eq.
  by rewrite !lookup_insert_ne, ?lookup_insert_eq, ?lookup_empty by done.
Qed.


(** *** The remote strategy *)

(** [_enhance_item_with_openai] catches every exception. *)
Lemma enhance_returns item keywords r :
  ∃ item', _enhance_item_with_openai item keywords r = Ok item'.
Proof.
  unfold _enhance_item_with_openai.
  destruct (py_len _) as [n|e]; [|by eexists].
  destruct (n <? 3)%nat; [by eexists|]. destruct r; by eexists.
Qed.

(** When the call fails, or the reply has no message or no JSON in it,
    the item comes back as it was. *)
Lemma enhance_failed_call item keywords r :
  r = CallRaises ∨ r = NoMessage ∨ r = Unparsable →
  _enhance_item_with_openai item keywords r = Ok item.
Proof.
  unfold _enhance_item_with_openai.
  destruct (py_len _) as [n|e]; [|done].
  destruct (n <? 3)%nat; [done|]. by intros [->|[->| ->]].
Qed.

(** When the reply is JSON but not an object, the item comes back with
    the ['metadata'] key that was prepared for the annotations. *)
Lemma enhance_non_object item keywords title ai :
  item !! "title" = Some (VStr title) → (3 ≤ String.length title)%nat →
  (∀ d, ai ≠ VDict d) →
  _enhance_item_with_openai item keywords (Parsed ai) = Ok (ensure_metadata item).
Proof.
  intros Ht Hlen Hai. unfold _enhance_item_with_openai, get. rewrite Ht. simpl.
  apply Nat.ltb_ge in Hlen as ->. f_equal. unfold write_analysis.
  destruct ai; try done. by destruct (Hai d).
Qed.

Lemma collect_imap batch (f : nat → dict → res dict) :
  collect batch (imap f batch) =
  imap (λ j item, match f j item with Ok item' => item' | Raise _ => item end) batch.
Proof.
  unfold collect. revert f. induction batch as [|item batch IH]; intros f; [done|].
  rewrite !imap_cons. simpl. by rewrite IH.
Qed.

(** The batches, taken together, are one pass over the list. *)
Lemma batches_imap fuel i results keywords replies acc :
  (length results ≤ i + 5 * fuel)%nat →
  batches fuel i results keywords replies acc =
  acc ++ imap (λ j, enhanced keywords replies (i + j)) (drop i results).
Proof.
  revert i acc. induction fuel as [|fuel IH]; intros i acc Hlen; simpl.
  - rewrite drop_ge by lia. by rewrite app_nil_r.
  - case_bool_decide as Hi.
    + rewrite IH by lia. rewrite collect_imap, <- app_assoc. f_equal.
      trans (imap (λ j, enhanced keywords replies (i + j))
                  (take 5 (drop i results) ++ drop 5 (drop i results)));
        [|by rewrite take_drop].
      rewrite imap_app, drop_drop. f_equal.
      destruct (decide (i + 5 ≤ length results)%nat) as [Hle|Hgt].
      * rewrite length_take, length_drop.
        apply imap_ext. intros j item _. f_equal. lia.
      * rewrite (drop_ge results (i + 5)) by lia. done.
    + rewrite drop_ge by lia. by rewrite app_nil_r.
Qed.

Lemma process_with_openai_imap results keywords replies :
  _process_with_openai results keywords replies =
  imap (enhanced keywords replies) results.
Proof.
  unfold _process_with_openai. rewrite batches_imap by lia. done.
Qed.

(** Same length, same order: position [i] of the output is made from
    position [i] of the input. *)
Lemma process_with_openai_lookup results keywords replies i :
  _process_with_openai results keywords replies !! i =
  enhanced keywords replies i <$> results !! i.
Proof. rewrite process_with_openai_imap. apply list_lookup_imap. Qed.

Lemma process_with_openai_length results keywords replies :
  length (_process_with_openai results keywords replies) = length results.
Proof. rewrite process_with_openai_imap. apply length_imap. Qed.

(** C7, where the code departs from it: an item without ['metadata'],
    enriched by the remote strategy with a reply that is valid JSON but
    not an object (here the empty array), does not come back unmodified:
    an empty ['metadata'] dictionary has been added to it. *)
Theorem enrichment_failure_adds_metadata :
  let item := raw "cat video" "https://youtube.com/x" in
  let replies := λ _ : nat, Parsed (VList []) in
  (write_analysis item (VList [])).2 = Raise AttributeError ∧
  process_results true [item] "cat" replies = Ok [<["metadata" := VDict ∅]> item] ∧
  <["metadata" := VDict ∅]> item ≠ item.
Proof.
  intros item replies.
  assert (Hmeta : item !! "metadata" = None).
  { unfold item, raw. by rewrite !lookup_insert_ne, lookup_empty by done. }
  split_and!.
  - reflexivity.
  - unfold process_results. rewrite process_with_openai_imap.
    cbn [imap]. unfold enhanced, replies.
    rewrite (enhance_non_object item "cat" "cat video");
      [|unfold item, raw; by rewrite lookup_insert_ne, lookup_insert_eq by done
       |simpl; lia|done].
    unfold ensure_metadata. by rewrite Hmeta.
  - intros Heq. apply (f_equal (λ d : dict, d !! "metadata")) in Heq.
    rewrite lookup_insert_eq, Hmeta in Heq. discriminate.
Qed.

End processor_facts.

(** ** More on the link registry *)

Section registry_more.
Import LinkRegistry RegistryUse.

Implicit Types (r : registry) (urls : list (option string)) (s : string).

Lemma list_filter_sublist {A} (f : A → bool) (l : list A) :
  List.filter f l `sublist_of` l.
Proof.
  induction l as [|x l IH]; simpl; [done|].
  destruct (f x); [by apply sublist_skip|by apply sublist_cons].
Qed.

Lemma list_filter_idemp {A} (f : A → bool) (l : list A) :
  List.filter f (List.filter f l) = List.filter f l.
Proof.
  induction l as [|x l IH]; simpl; [done|].
  destruct (f x) eqn:Hx; simpl; [by rewrite Hx, IH|done].
Qed.

(** X1: [filter_new_links] selects: its result is [urls] with some
    elements left out, order and repetitions kept, and filtering the
    result again changes nothing. *)
Theorem filter_new_links_selects r urls script_name :
  filter_new_links r urls script_name `sublist_of` urls ∧
  filter_new_links r (filter_new_links r urls script_name) script_name =
    filter_new_links r urls script_name.
Proof.
  rewrite !filter_new_links_filter. split.
  - apply list_filter_sublist.
  - apply list_filter_idemp.
Qed.

(** X2: without a registrant name only unregistered URLs pass, and a
    repeated URL passes as often as it occurs; right after
    [register_links urls], nothing of [urls] passes any more. *)
Theorem filter_new_links_anonymous r urls name now now' :
  (∀ u, u ∈ filter_new_links r urls None ↔
        u ∈ urls ∧ ∃ s, u = Some s ∧ s ≠ EmptyString ∧ links r !! s = None) ∧
  (∀ s, s ≠ EmptyString → links r !! s = None →
        filter_new_links r [Some s; Some s] None = [Some s; Some s]) ∧
  filter_new_links (register_links r urls name now now').1 urls None = [].
Proof.
  split_and!.
  - intros u. rewrite filter_new_links_filter, list_elem_of_In, filter_In.
    rewrite <- list_elem_of_In, keptb_spec. unfold kept. split.
    + intros (Hu & s & -> & Hs & [Hnone|(e & _ & [=] & _)]). eauto 6.
    + intros (Hu & s & -> & Hs & Hnone). eauto 8.
  - intros s Hs Hnone. rewrite filter_new_links_filter.
    assert (keptb r None (Some s) = true) as Hk.
    { apply keptb_spec. exists s. eauto. }
    cbn [List.filter]. by rewrite Hk.
  - rewrite filter_new_links_filter. apply filter_none.
    apply Forall_forall. intros u Hu.
    destruct (keptb _ None u) eqn:Hk; [exfalso|done].
    apply keptb_spec in Hk as (s & -> & Hs & [Hnone|(e & _ & [=] & _)]).
    rewrite register_links_lookup in Hnone.
    destruct (links r !! s); [done|].
    by rewrite bool_decide_eq_true_2 in Hnone.
Qed.

Lemma filter_new_links_anonymous_witness :
  let r := (register_links (new_registry "t0") [Some "https://a.com"] "s1" "t1" "t2").1 in
  Some "https://b.com" ∈ filter_new_links r [Some "https://a.com"; Some "https://b.com"] None ∧
  filter_new_links r [Some "https://b.com"; Some "https://b.com"] None =
    [Some "https://b.com"; Some "https://b.com"].
Proof.
  intros r.
  destruct (filter_new_links_anonymous r [Some "https://a.com"; Some "https://b.com"]
              "s1" "t1" "t2") as (Hin & Htwice & _).
  split.
  - apply Hin. split; [right; left|].
    exists "https://b.com". split; [reflexivity|]. split; [discriminate|reflexivity].
  - apply Htwice; [discriminate|reflexivity].
Defined.

(** The registration loop skips a list whose non-empty URLs are all
    registered. *)
Lemma register_loop_all_present name ts urls (m : gmap string entry) (c : nat) :
  (∀ s, Some s ∈ urls → s ≠ EmptyString → is_Some (m !! s)) →
  foldl (register_step name ts) (m, c) urls = (m, c).
Proof.
  induction urls as [|u urls IH]; intros Hall; simpl; [done|].
  assert (register_step name ts (m, c) u = (m, c)) as ->.
  { destruct u as [s|]; [|done].
    destruct (decide (s = EmptyString)) as [->|Hs]; [done|].
    apply register_step_present, Hall; [left|done]. }
  apply IH. intros s Hs. apply Hall. by right.
Qed.

(** The counter of the registration loop only adds up. *)
Lemma register_loop_from name ts urls (m : gmap string entry) (c : nat) :
  foldl (register_step name ts) (m, c) urls =
  ((foldl (register_step name ts) (m, 0%nat) urls).1,
   (c + (foldl (register_step name ts) (m, 0%nat) urls).2)%nat).
Proof.
  revert m c. induction urls as [|u urls IH]; intros m c; simpl.
  - f_equal. lia.
  - assert (register_step name ts (m, c) u =
            ((register_step name ts (m, 0%nat) u).1,
             (c + (register_step name ts (m, 0%nat) u).2)%nat)) as Hstep.
    { unfold register_step. destruct u as [s|]; simpl; [|f_equal; lia].
      destruct (_ && _); simpl; f_equal; lia. }
    rewrite Hstep.
    destruct (register_step name ts (m, 0%nat) u) as [m1 c1]. simpl.
    rewrite (IH m1 (c + c1)%nat), (IH m1 c1). simpl. f_equal. lia.
Qed.

Lemma register_links_links r urls name now now' :
  links (register_links r urls name now now').1 =
  (foldl (register_step name now) (links r, 0%nat) urls).1.
Proof. unfold register_links. by destruct urls. Qed.

Lemma register_links_snd r urls name now now' :
  (register_links r urls name now now').2 =
  (foldl (register_step name now) (links r, 0%nat) urls).2.
Proof. unfold register_links. by destruct urls. Qed.

(** X3: registering the same list again is a no-op on the entries: it
    returns 0, and every entry keeps its first registrant and
    timestamp, whoever registers the second time. *)
Theorem register_links_twice r urls name now now' name2 later later' :
  let r1 := (register_links r urls name now now').1 in
  (register_links r1 urls name2 later later').2 = 0%nat ∧
  links (register_links r1 urls name2 later later').1 = links r1.
Proof.
  intros r1.
  assert (Hloop : foldl (register_step name2 later) (links r1, 0%nat) urls =
                  (links r1, 0%nat)).
  { apply register_loop_all_present. intros s Hin Hs.
    subst r1. rewrite register_links_lookup.
    destruct (links r !! s); [by eexists|].
    rewrite bool_decide_eq_true_2 by done. by eexists. }
  rewrite register_links_snd, register_links_links, Hloop. done.
Qed.

(** X4: registering [l1 ++ l2] in one call is registering [l1] and then
    [l2] at the same clock reading: the same entries, and the counts add
    up. *)
Theorem register_links_app r l1 l2 name now now' now'' :
  let whole := register_links r (l1 ++ l2) name now now' in
  let first := register_links r l1 name now now'' in
  let second := register_links first.1 l2 name now now' in
  links whole.1 = links second.1 ∧ whole.2 = (first.2 + second.2)%nat.
Proof.
  intros whole first second. subst whole first second.
  rewrite !register_links_snd, !register_links_links, foldl_app.
  destruct (foldl (register_step name now) (links r, 0%nat) l1) as [m1 c1] eqn:H1.
  simpl. rewrite (register_loop_from _ _ l2 m1 c1). done.
Qed.

(** In the batch pattern, the registry afterwards answers the same
    for the same script. *)
Lemma keptb_after_register r urls s now now' u :
  s ≠ EmptyString → u ∈ urls →
  keptb (register_links r (filter_new_links r urls (Some s)) s now now').1 (Some s) u =
  keptb r (Some s) u.
Proof.
  intros Hs Hu. destruct u as [x|]; [|done].
  unfold keptb. destruct (url_truthy (Some x)) eqn:Hx; [|done]. simpl.
  apply url_truthy_Some in Hx.
  rewrite register_links_lookup.
  destruct (links r !! x) as [e|] eqn:Hold; [done|].
  rewrite bool_decide_eq_true_2.
  - simpl. apply String.eqb_neq in Hs as ->. by rewrite bool_decide_eq_true_2.
  - split; [done|]. rewrite filter_new_links_filter.
    apply list_elem_of_In, filter_In. split; [by apply list_elem_of_In|].
    apply keptb_spec. exists x. eauto.
Qed.

(** X5: the batch pattern [filter_new_links] then [register_links] under
    one script name.  The count it returns is the growth of the registry.
    Run again on the registry it leaves, with the same script name, it
    registers nothing and (for a non-empty name) returns the same URLs
    once more: a script is never shielded from its own earlier finds.
    For every other script the URLs just returned are suppressed. *)
Theorem filter_then_register_again r urls s now now' later later' :
  let first := filter_then_register r urls s now now' in
  let again := filter_then_register first.1.2 urls s later later' in
  (first.2 + size (links r) = size (links first.1.2))%nat ∧
  again.2 = 0%nat ∧
  links again.1.2 = links first.1.2 ∧
  (s ≠ EmptyString → again.1.1 = first.1.1) ∧
  (∀ other u, other ≠ s → u ∈ first.1.1 →
     u ∉ filter_new_links first.1.2 urls (Some other)).
Proof.
  intros first again. subst first again. unfold filter_then_register. simpl.
  set (new_urls := filter_new_links r urls (Some s)).
  set (r1 := (register_links r new_urls s now now').1).
  assert (Hpresent : ∀ x, Some x ∈ filter_new_links r1 urls (Some s) →
                          x ≠ EmptyString → is_Some (links r1 !! x)).
  { intros x Hin Hx. rewrite filter_new_links_filter in Hin.
    apply list_elem_of_In, filter_In in Hin as [Hin _]. apply list_elem_of_In in Hin.
    subst r1. rewrite register_links_lookup.
    destruct (links r !! x) as [e|] eqn:Hold; [by eexists|].
    rewrite bool_decide_eq_true_2; [by eexists|]. split; [done|].
    subst new_urls. rewrite filter_new_links_filter.
    apply list_elem_of_In, filter_In. split; [by apply list_elem_of_In|].
    apply keptb_spec. exists x. eauto. }
  split_and!.
  - apply register_links_count.
  - rewrite register_links_snd.
    by rewrite (register_loop_all_present _ _ _ _ _ Hpresent).
  - rewrite register_links_links.
    by rewrite (register_loop_all_present _ _ _ _ _ Hpresent).
  - intros Hs.
    trans (List.filter (keptb r1 (Some s)) urls); [apply filter_new_links_filter|].
    trans (List.filter (keptb r (Some s)) urls);
      [|symmetry; apply filter_new_links_filter].
    apply filter_ext_in. intros u Hu. apply list_elem_of_In in Hu.
    subst r1 new_urls. by apply keptb_after_register.
  - intros other u Hne Hu Hin. rewrite filter_new_links_filter in Hin.
    apply list_elem_of_In, filter_In in Hin as [_ Hk].
    apply keptb_spec in Hk as (x & -> & Hx & Hk).
    subst new_urls. rewrite filter_new_links_filter in Hu.
    apply list_elem_of_In, filter_In in Hu as [Hu Hk0].
    apply keptb_spec in Hk0 as (y & [= <-] & _ & Hk0).
    subst r1. rewrite register_links_lookup in Hk.
    destruct (links r !! x) as [e|] eqn:Hold.
    + destruct Hk as [?|(e' & [= <-] & [= He] & _)]; [done|].
      destruct Hk0 as [?|(e' & [= <-] & [= He'] & _)]; [done|]. congruence.
    + rewrite bool_decide_eq_true_2 in Hk.
      * destruct Hk as [?|(e' & [= <-] & [= He] & _)]; [done|]. simpl in He. congruence.
      * split; [done|]. rewrite filter_new_links_filter.
        apply list_elem_of_In, filter_In. split; [done|].
        apply keptb_spec. exists x. eauto.
Qed.

Lemma filter_then_register_again_witness :
  let urls := [Some "https://a.com"; Some "https://b.com"] in
  let first := filter_then_register (new_registry "t0") urls "s1" "t1" "t2" in
  let again := filter_then_register first.1.2 urls "s1" "t3" "t4" in
  first.1.1 = urls ∧ first.2 = 2%nat ∧ again.1.1 = urls ∧ again.2 = 0%nat ∧
  Some "https://a.com" ∉ filter_new_links first.1.2 urls (Some "s2").
Proof.
  intros urls first again.
  destruct (filter_then_register_again (new_registry "t0") urls "s1" "t1" "t2" "t3" "t4")
    as (_ & Hzero & _ & Hsame & Hother).
  assert (Hfirst : first.1.1 = urls) by reflexivity.
  split; [exact Hfirst|]. split; [reflexivity|].
  split; [etrans; [apply Hsame; discriminate|exact Hfirst]|].
  split; [exact Hzero|].
  apply Hother; [discriminate|left].
Defined.

(** The sum of the counts in a dictionary of counters. *)
Lemma sum_values_insert_None (m : gmap string nat) s (n : nat) :
  m !! s = None →
  sum_list (snd <$> map_to_list (<[s := n]> m)) =
  (n + sum_list (snd <$> map_to_list m))%nat.
Proof. intros H. by rewrite (map_to_list_insert _ _ _ H). Qed.

Lemma sum_values_bump (m : gmap string nat) s :
  sum_list (snd <$> map_to_list (bump m s)) = S (sum_list (snd <$> map_to_list m)).
Proof.
  unfold bump. destruct (m !! s) as [n|] eqn:Hs; simpl.
  - rewrite <- insert_delete_eq.
    rewrite sum_values_insert_None by apply lookup_delete_eq.
    rewrite <- (map_to_list_delete _ _ _ Hs). by rewrite fmap_cons.
  - by rewrite sum_values_insert_None.
Qed.

Lemma bump_lookup (m : gmap string nat) s s' :
  default 0%nat (bump m s !! s') =
  (default 0%nat (m !! s') + if bool_decide (s = s') then 1 else 0)%nat.
Proof.
  unfold bump. case_bool_decide as H.
  - subst. rewrite lookup_insert_eq. simpl. lia.
  - rewrite lookup_insert_ne by done. lia.
Qed.

(** The counting loop from any dictionary of counters. *)
Lemma by_script_loop (l : list (string * entry)) (acc : gmap string nat) :
  let out := foldl (λ script_counts kv, bump script_counts (script kv.2)) acc l in
  (∀ s, default 0%nat (out !! s) =
        (default 0%nat (acc !! s) +
         length (List.filter (λ kv : string * entry, bool_decide (script kv.2 = s)) l))%nat) ∧
  ((∀ s, acc !! s ≠ Some 0%nat) → ∀ s, out !! s ≠ Some 0%nat) ∧
  sum_list (snd <$> map_to_list out) =
    (sum_list (snd <$> map_to_list acc) + length l)%nat.
Proof.
  revert acc. induction l as [|kv l IH]; intros acc; simpl.
  - split_and!; [intros; lia|done|lia].
  - destruct (IH (bump acc (script kv.2))) as (Hcount & Hpos & Hsum).
    split_and!.
    + intros s. rewrite Hcount, bump_lookup.
      destruct (bool_decide (script kv.2 = s)); simpl; lia.
    + intros Hacc. apply Hpos. intros s. unfold bump.
      destruct (decide (script kv.2 = s)) as [<-|Hne].
      * by rewrite lookup_insert_eq.
      * rewrite lookup_insert_ne by done. apply Hacc.
    + rewrite Hsum, sum_values_bump. lia.
Qed.

(** X6: [get_stats] counts every entry once, under its registrant: the
    count of a script is the number of entries it registered, a script
    is listed only if it registered something, and the counts add up to
    [total_links]. *)
Theorem get_stats_counts r :
  let st := get_stats r in
  (∀ s, default 0%nat (stats_by_script st !! s) = registered_by r s) ∧
  (∀ s, is_Some (stats_by_script st !! s) ↔
        ∃ u e, links r !! u = Some e ∧ script e = s) ∧
  sum_list (snd <$> map_to_list (stats_by_script st)) = stats_total_links st.
Proof.
  intros st. subst st. simpl. unfold by_script, registered_by.
  destruct (by_script_loop (map_to_list (links r)) ∅) as (Hcount & Hpos & Hsum).
  split_and!.
  - intros s. rewrite Hcount, lookup_empty. simpl. lia.
  - intros s. specialize (Hcount s). rewrite lookup_empty in Hcount. simpl in Hcount.
    split.
    + intros [n Hn]. rewrite Hn in Hcount. simpl in Hcount.
      assert (n ≠ 0%nat) as Hn0.
      { intros ->. by apply (Hpos ltac:(by intros ?; rewrite lookup_empty) s). }
      destruct (List.filter _ _) as [|[u e] l] eqn:Hf; [simpl in Hcount; lia|].
      assert (Hin : In (u, e) (List.filter
                (λ kv : string * entry, bool_decide (script kv.2 = s))
                (map_to_list (links r)))) by (rewrite Hf; left; done).
      apply filter_In in Hin as [Hin Hs]. apply bool_decide_eq_true in Hs.
      exists u, e. split; [|done].
      by apply elem_of_map_to_list, list_elem_of_In.
    + intros (u & e & Hu & He).
      assert (Hin : In (u, e) (List.filter
                (λ kv : string * entry, bool_decide (script kv.2 = s))
                (map_to_list (links r)))).
      { apply filter_In. split; [by apply list_elem_of_In, elem_of_map_to_list|].
        by apply bool_decide_eq_true. }
      destruct (List.filter _ _) as [|kv l]; [done|]. simpl in Hcount.
      destruct (foldl _ _ _ !! s) as [n|]; [by eexists|]. simpl in Hcount. lia.
  - rewrite Hsum, map_to_list_empty. simpl. by rewrite length_map_to_list.
Qed.

(** The test of the registration loop is the anonymous filter. *)
Lemma register_step_keptb name ts r (c : nat) u :
  register_step name ts (links r, c) u =
  if keptb r None u then
    match u with
    | Some s => (<[s := Entry name ts]> (links r), S c)
    | None => (links r, c)
    end
  else (links r, c).
Proof.
  unfold register_step, keptb. destruct u as [s|]; [|done]. cbn [fst snd].
  destruct (url_truthy (Some s)); [|done]. cbn [andb].
  destruct (links r !! s) eqn:Hs.
  - by rewrite bool_decide_eq_false_2.
  - by rewrite bool_decide_eq_true_2.
Qed.

Lemma keptb_insert r r1 name ts s u :
  links r1 = <[s := Entry name ts]> (links r) →
  keptb r1 None u = keptb r None u && negb (bool_decide (u = Some s)).
Proof.
  intros Hr1. unfold keptb. destruct u as [x|]; [|done]. rewrite Hr1.
  destruct (url_truthy (Some x)); [|done]. cbn [andb url_truthy].
  destruct (decide (x = s)) as [->|Hne].
  - rewrite lookup_insert_eq, bool_decide_eq_true_2 by done. simpl.
    by rewrite andb_false_r.
  - rewrite lookup_insert_ne by done.
    rewrite (bool_decide_eq_false_2 (Some x = Some s)) by congruence.
    by rewrite andb_true_r.
Qed.

Lemma register_loop_distinct name ts urls r (c : nat) :
  (foldl (register_step name ts) (links r, c) urls).2 =
  (c + size (list_to_set (C := gset (option string))
               (List.filter (keptb r None) urls)))%nat.
Proof.
  revert r c. induction urls as [|u urls IH]; intros r c.
  - cbn [foldl List.filter list_to_set snd]. rewrite size_empty. lia.
  - cbn [foldl List.filter]. rewrite register_step_keptb.
    destruct (keptb r None u) eqn:Hu; [|apply IH].
    destruct u as [s|]; [|done].
    set (r1 := {| links := <[s := Entry name ts]> (links r);
                  created := created r; last_updated := last_updated r |}).
    change (<[s := Entry name ts]> (links r)) with (links r1).
    rewrite (IH r1 (S c)). cbn [list_to_set].
    rewrite size_union_alt, size_singleton.
    replace (list_to_set (List.filter (keptb r1 None) urls) : gset (option string))
      with (list_to_set (C := gset (option string))
              (List.filter (keptb r None) urls) ∖ {[Some s]}); [lia|].
    apply set_eq. intros x.
    rewrite elem_of_difference, !elem_of_list_to_set, !list_elem_of_In, !filter_In.
    rewrite (keptb_insert r r1 name ts s x eq_refl), andb_true_iff, negb_true_iff.
    rewrite bool_decide_eq_false, elem_of_singleton. tauto.
Qed.

Lemma size_list_to_set_le (l : list (option string)) :
  (size (list_to_set (C := gset (option string)) l) ≤ length l)%nat.
Proof.
  induction l as [|x l IH]; cbn [list_to_set length].
  - by rewrite size_empty.
  - rewrite size_union_alt, size_singleton.
    pose proof (subseteq_size (list_to_set (C := gset (option string)) l ∖ {[x]})
                  (list_to_set l)) as Hle.
    assert (list_to_set (C := gset (option string)) l ∖ {[x]} ⊆ list_to_set l)
      as Hsub%Hle by set_solver.
    lia.
Qed.

(** X18: what [register_links] returns and stamps.  The count is the
    number of different URLs that the filter without registrant lets
    through, a URL repeated in the list counting once.  [created] is
    never touched; [last_updated] is renewed whenever the list is not
    empty, also when nothing was added. *)
Theorem register_links_counts_distinct r urls name now now' :
  let out := register_links r urls name now now' in
  out.2 = size (list_to_set (C := gset (option string)) (filter_new_links r urls None)) ∧
  (out.2 ≤ length urls)%nat ∧
  created out.1 = created r ∧
  last_updated out.1 = match urls with [] => last_updated r | _ => now' end.
Proof.
  intros out. subst out.
  rewrite register_links_snd, filter_new_links_filter, register_loop_distinct.
  split_and!.
  - done.
  - simpl. etrans; [apply size_list_to_set_le|apply filter_length_le].
  - unfold register_links. by destruct urls.
  - unfold register_links. by destruct urls.
Qed.

End registry_more.

(** ** More on [format_result] and on the coordinators *)

Section coordinator_more.
Import BaseScraper Dedup Coordinator Samples ContentProcessor.

Implicit Types (tasks : list task) (t : task) (l : list dict) (data : dict).

Lemma required_fields_lookup self_name data source k :
  required_fields self_name data source !! k =
    if bool_decide (k = "source") then Some (VStr (source_or source self_name))
    else if bool_decide (k = "thumbnail") then Some (get data "thumbnail" (VStr EmptyString))
    else if bool_decide (k = "link") then Some (get data "link" (VStr EmptyString))
    else if bool_decide (k = "title") then Some (get data "title" (VStr "Untitled Content"))
    else None.
Proof.
  unfold required_fields.
  repeat (case_bool_decide as H;
          [subst k; by rewrite ?lookup_insert_ne, ?lookup_insert_eq by done
          |rewrite lookup_insert_ne by done; clear H]).
  apply lookup_empty.
Qed.

Lemma get_required_fields self_name data source k (d : value) :
  k ∈ ["title"; "link"; "thumbnail"] →
  get (format_result self_name data source) k d =
  default d (required_fields self_name data source !! k).
Proof.
  intros Hk. unfold get at 1. rewrite format_result_lookup.
  rewrite bool_decide_eq_false_2 by (apply fixed_not_optional; set_solver).
  by destruct (required_fields _ _ _ !! k).
Qed.

(** X7: formatting an item that is already formatted only renews its
    [source]: the outcome is the one of formatting the raw result
    directly, so that [format_result] is idempotent, and the [source] of
    the input is never read. *)
Theorem format_result_twice name1 name2 data source1 source2 :
  format_result name2 (format_result name1 data source1) source2 =
    format_result name2 data source2 ∧
  format_result name1 (format_result name1 data source1) source1 =
    format_result name1 data source1.
Proof.
  assert (H : ∀ n1 n2 s1 s2,
    format_result n2 (format_result n1 data s1) s2 = format_result n2 data s2);
    [|by split].
  intros n1 n2 s1 s2. apply map_eq. intros k.
  rewrite (format_result_lookup n2 (format_result n1 data s1)).
  rewrite (format_result_lookup n2 data).
  assert (Hreq : required_fields n2 (format_result n1 data s1) s2 !! k =
                 required_fields n2 data s2 !! k).
  { rewrite !required_fields_lookup.
    rewrite !get_required_fields by set_solver.
    rewrite !required_fields_lookup. simpl. done. }
  case_bool_decide as Hopt; [|done].
  rewrite (format_result_lookup n1 data), bool_decide_eq_true_2 by done.
  rewrite (required_fields_other n1) by (intros ?; by eapply fixed_not_optional).
  rewrite Hreq.
  destruct (data !! k) as [v|]; [|done].
  destruct (truthy v) eqn:Hv; [by rewrite Hv|done].
Qed.

(** The link of a formatted item is the raw link, or the empty string. *)
Lemma link_key_format_result self_name data source :
  link_key (format_result self_name data source) =
  hash_key (get data "link" (VStr EmptyString)).
Proof. unfold link_key, getitem. by rewrite format_result_link. Qed.

Lemma for_each_app {S A} (body : S → A → res S) (s : S) (l1 l2 : list A) :
  for_each body s (l1 ++ l2) = for_each body s l1 ≫= λ s', for_each body s' l2.
Proof.
  revert s. induction l1 as [|x l1 IH]; intros s; [done|].
  simpl. destruct (body s x); simpl; [apply IH|done].
Qed.

(** The fan-in loop is the deduplication loop over the returned items,
    exceptions included. *)
Lemma scrape_loop_dedup tasks a :
  for_each scrape_step a tasks =
  for_each add_item (combined_results a, seen_urls a) (returned_items tasks) ≫= λ st,
  Ok {| combined_results := st.1;
        sources := sources a ++ (name <$> List.filter productive tasks);
        seen_urls := st.2 |}.
Proof.
  revert a. induction tasks as [|t tasks IH]; intros a.
  - simpl. rewrite app_nil_r. by destruct a.
  - rewrite for_each_cons, returned_items_cons, for_each_app. simpl List.filter.
    destruct (outcome t) as [result|msg] eqn:Ht.
    + rewrite (scrape_step_Returned _ _ _ Ht).
      destruct (for_each add_item (combined_results a, seen_urls a) result)
        as [st|e]; simpl; [|done].
      rewrite IH. simpl.
      destruct (for_each add_item st (returned_items tasks)) as [st'|e] eqn:Hst.
      * destruct st. simpl in *. rewrite Hst. simpl. f_equal. f_equal.
        destruct (productive t); simpl; by rewrite <- ?app_assoc.
      * destruct st. simpl in *. by rewrite Hst.
    + rewrite (scrape_step_Failed _ _ _ Ht). simpl. rewrite IH.
      replace (productive t) with false by (unfold productive; by rewrite Ht).
      done.
Qed.

Lemma all_results_outcomes tasks :
  MultiSourceScraper.all_results (outcome <$> tasks) = returned_items tasks.
Proof.
  unfold MultiSourceScraper.all_results, returned_items. f_equal.
  induction tasks as [|t tasks IH]; [done|].
  rewrite fmap_cons. cbn [map]. by f_equal.
Qed.

(** X8: on the same settled tasks, [MultiSourceScraper.scrape] returns
    the first 50 results of [ScraperCoordinator.scrape], and raises
    when it raises. *)
Theorem scrapers_agree kw d now tasks :
  MultiSourceScraper.scrape (outcome <$> tasks) =
  (λ resp, take 50 (results resp)) <$> scrape kw d now tasks.
Proof.
  unfold MultiSourceScraper.scrape, MultiSourceScraper.merge, scrape.
  rewrite all_results_outcomes, scrape_loop_dedup. simpl.
  by destruct (for_each add_item _ _).
Qed.

Lemma difference_add (k : hkey) (K seen : gset hkey) :
  k ∉ seen → ({[k]} ∪ K) ∖ seen = {[k]} ∪ K ∖ ({[k]} ∪ seen).
Proof.
  intros Hk. apply set_eq. intros y.
  rewrite elem_of_difference, !elem_of_union, elem_of_difference, elem_of_union,
    elem_of_singleton.
  destruct (decide (y = k)) as [->|]; naive_solver.
Qed.

Lemma difference_old (k : hkey) (K seen : gset hkey) :
  k ∈ seen → ({[k]} ∪ K) ∖ seen = K ∖ seen.
Proof. set_solver. Qed.

(** What a deduplicated list holds, counted and as a set of keys. *)
Lemma first_seen_length seen l :
  length (first_seen seen l) = size (key_set l ∖ seen).
Proof.
  revert seen. induction l as [|x l IH]; intros seen; simpl.
  - apply eq_sym, size_empty_iff. set_solver.
  - destruct (link_key x) as [k|e]; [case_bool_decide as Hin|]; [| |apply IH].
    + simpl. rewrite IH, (difference_add _ _ _ Hin).
      rewrite (size_union {[k]} (key_set l ∖ ({[k]} ∪ seen))) by set_solver.
      by rewrite size_singleton.
    + by rewrite IH, difference_old.
Qed.

Lemma key_set_first_seen seen l : key_set (first_seen seen l) = key_set l ∖ seen.
Proof.
  revert seen. induction l as [|x l IH]; intros seen; simpl.
  - set_solver.
  - destruct (link_key x) as [k|e] eqn:Hk; [case_bool_decide as Hin|]; [| |apply IH].
    + simpl. by rewrite Hk, IH, (difference_add _ _ _ Hin).
    + by rewrite IH, difference_old.
Qed.

Lemma elem_of_key_set k l : k ∈ key_set l ↔ ∃ x, x ∈ l ∧ link_key x = Ok k.
Proof.
  induction l as [|y l IH]; simpl.
  - split; [set_solver|]. intros (x & Hx & _). by apply elem_of_nil in Hx.
  - destruct (link_key y) as [k'|e] eqn:Hy.
    + rewrite elem_of_union, elem_of_singleton, IH. split.
      * intros [->|(x & Hx & Hk)]; [exists y; split; [left|done]|].
        exists x. split; [by right|done].
      * intros (x & [->|Hx]%elem_of_cons & Hk); [left; congruence|right; eauto].
    + rewrite IH. split.
      * intros (x & Hx & Hk). exists x. split; [by right|done].
      * intros (x & [->|Hx]%elem_of_cons & Hk); [congruence|eauto].
Qed.

Lemma elem_of_returned_items x tasks :
  x ∈ returned_items tasks ↔
  ∃ t result, t ∈ tasks ∧ outcome t = Returned result ∧ x ∈ result.
Proof.
  induction tasks as [|t tasks IH].
  - split; [by intros ?%elem_of_nil|]. by intros (? & ? & ?%elem_of_nil & _).
  - rewrite returned_items_cons, elem_of_app, IH. split.
    + intros [Hx|(t' & result & Ht' & Hout & Hx)].
      * destruct (outcome t) as [result|] eqn:Ht; [|by apply elem_of_nil in Hx].
        exists t, result. split; [left|done].
      * exists t', result. split; [by right|done].
    + intros (t' & result & [->|Ht']%elem_of_cons & Hout & Hx).
      * left. by rewrite Hout.
      * right. eauto.
Qed.

Lemma productive_names tasks n :
  n ∈ name <$> List.filter productive tasks ↔
  ∃ t, t ∈ tasks ∧ name t = n ∧ productive t = true.
Proof.
  rewrite list_elem_of_fmap. split.
  - intros (t & -> & Ht). apply list_elem_of_In, filter_In in Ht as [Ht ?].
    exists t. by rewrite list_elem_of_In.
  - intros (t & Ht & <- & Hp). exists t. split; [done|].
    apply list_elem_of_In, filter_In. by rewrite <- list_elem_of_In.
Qed.

Lemma first_seen_nil_inv l : Forall has_link l → first_seen ∅ l = [] → l = [].
Proof.
  destruct l as [|x l]; [done|]. intros [[k Hk] _]%Forall_cons.
  by rewrite (first_seen_cons_new _ _ _ _ Hk) by set_solver.
Qed.

Lemma returned_items_nil tasks :
  returned_items tasks = [] ↔ List.filter productive tasks = [].
Proof.
  induction tasks as [|t tasks IH]; [done|].
  rewrite returned_items_cons. simpl List.filter. unfold productive at 1.
  destruct (outcome t) as [[|x result]|msg]; simpl; [done| |done].
  split; discriminate.
Qed.

(** X9: the metadata of a run agree with its results.  [total_results]
    is the number of different links among the returned items, and at
    most their number; no results, no sources and no returned item are
    the same case; every result was returned by a task that is named in
    [sources_used]. *)
Theorem scrape_metadata_consistent kw d now tasks resp :
  scrape kw d now tasks = Ok resp →
  total_results (metadata resp) = size (key_set (returned_items tasks)) ∧
  (total_results (metadata resp) ≤ length (returned_items tasks))%nat ∧
  (results resp = [] ↔ sources_used (metadata resp) = []) ∧
  (results resp = [] ↔ returned_items tasks = []) ∧
  (∀ y, y ∈ results resp →
     ∃ t result, t ∈ tasks ∧ outcome t = Returned result ∧ y ∈ result ∧
                 name t ∈ sources_used (metadata resp)).
Proof.
  intros Hresp. pose proof (scrape_has_link _ _ _ _ _ Hresp) as Hall.
  apply scrape_Ok in Hresp as (Hres & Hsrc & Htot).
  rewrite Htot, Hsrc, Hres.
  assert (Hnil : first_seen ∅ (returned_items tasks) = [] ↔ returned_items tasks = []).
  { split; [by apply first_seen_nil_inv|by intros ->]. }
  split_and!.
  - rewrite first_seen_length. f_equal. set_solver.
  - apply sublist_length, first_seen_sublist.
  - rewrite Hnil, returned_items_nil. split; [by intros ->|].
    by intros ?%fmap_nil_inv.
  - done.
  - intros y Hy.
    assert (y ∈ returned_items tasks) as Hin.
    { eapply elem_of_sublist; [done|apply first_seen_sublist]. }
    apply elem_of_returned_items in Hin as (t & result & Ht & Hout & Hin).
    exists t, result. split_and!; try done.
    apply productive_names. exists t. split_and!; try done.
    unfold productive. rewrite Hout. destruct result; [by apply elem_of_nil in Hin|done].
Qed.

Lemma scrape_metadata_consistent_witness :
  ∃ resp, scrape "q" None "t" two_adapters = Ok resp ∧
          total_results (metadata resp) = size (key_set (returned_items two_adapters)) ∧
          results resp ≠ [].
Proof.
  destruct (scrape_total "q" None "t" two_adapters two_adapters_have_links)
    as [resp Hresp].
  exists resp. split; [done|].
  destruct (scrape_metadata_consistent _ _ _ _ _ Hresp) as (Htot & _ & _ & Hnil & _).
  split; [done|]. by intros ?%Hnil.
Defined.

(** X10: adapters added at the end never change what the earlier ones
    gave: the results and the sources of the shorter run are a prefix of
    those of the longer one.  An added adapter whose links were all
    returned before adds no result and, when its list is not empty, is
    named in [sources_used] all the same. *)
Theorem scrape_more_adapters kw d now tasks more resp resp' :
  scrape kw d now tasks = Ok resp →
  scrape kw d now (tasks ++ more) = Ok resp' →
  results resp `prefix_of` results resp' ∧
  sources_used (metadata resp) `prefix_of` sources_used (metadata resp') ∧
  (key_set (returned_items more) ⊆ key_set (returned_items tasks) →
     results resp' = results resp ∧
     sources_used (metadata resp') =
       sources_used (metadata resp) ++ (name <$> List.filter productive more)).
Proof.
  intros (Hres & Hsrc & _)%scrape_Ok (Hres' & Hsrc' & _)%scrape_Ok.
  assert (Hitems : returned_items (tasks ++ more) =
                   returned_items tasks ++ returned_items more).
  { unfold returned_items. by rewrite map_app, concat_app. }
  rewrite Hres, Hres', Hsrc, Hsrc', Hitems, first_seen_app, List.filter_app, fmap_app.
  split_and!.
  - by eexists.
  - by eexists.
  - intros Hsub. split; [|done].
    assert (first_seen (key_set (returned_items tasks) ∪ ∅) (returned_items more) = [])
      as ->; [|by rewrite app_nil_r].
    apply length_zero_iff_nil. rewrite first_seen_length.
    apply size_empty_iff. set_solver.
Qed.

Lemma scrape_more_adapters_witness :
  ∃ resp resp',
    scrape "q" None "t" [Task "google" (Returned [item "google" "A" "https://x.com"])]
      = Ok resp ∧
    scrape "q" None "t" two_adapters = Ok resp' ∧
    results resp `prefix_of` results resp'.
Proof.
  destruct (scrape_total "q" None "t"
              [Task "google" (Returned [item "google" "A" "https://x.com"])])
    as [resp Hresp].
  { rewrite returned_items_single. apply Forall_cons_2; [|apply Forall_nil_2].
    eexists. apply link_key_item. }
  destruct (scrape_total "q" None "t" two_adapters two_adapters_have_links)
    as [resp' Hresp'].
  exists resp, resp'. split; [done|]. split; [done|].
  exact (proj1 (scrape_more_adapters "q" None "t"
    [Task "google" (Returned [item "google" "A" "https://x.com"])]
    [Task "duckduckgo" (Returned [item "duckduckgo" "B" "https://x.com";
                                  item "duckduckgo" "C" "https://y.com"])]
    resp resp' Hresp Hresp')).
Defined.

Lemma list_filter_Permutation {A} (f : A → bool) (l1 l2 : list A) :
  l1 ≡ₚ l2 → List.filter f l1 ≡ₚ List.filter f l2.
Proof.
  induction 1 as [|x l1 l2 _ IH|x y l|l1 l2 l3 _ IH1 _ IH2]; simpl.
  - done.
  - destruct (f x); [by constructor|done].
  - destruct (f x), (f y); try done. apply perm_swap.
  - by etrans.
Qed.

(** X11: the order of the adapters decides which of two items with the
    same link is kept, and nothing else: run on the same tasks in
    another order, the coordinator returns as well, with the same number
    of results, the same links and the same sources. *)
Theorem scrape_adapter_order kw d now tasks tasks' resp :
  tasks ≡ₚ tasks' →
  scrape kw d now tasks = Ok resp →
  ∃ resp', scrape kw d now tasks' = Ok resp' ∧
    total_results (metadata resp') = total_results (metadata resp) ∧
    key_set (results resp') = key_set (results resp) ∧
    sources_used (metadata resp') ≡ₚ sources_used (metadata resp).
Proof.
  intros Hperm Hresp.
  assert (Hin : ∀ x, x ∈ returned_items tasks' ↔ x ∈ returned_items tasks).
  { intros x. rewrite !elem_of_returned_items.
    split; intros (t & result & Ht & ?); exists t, result; split; try done.
    - by rewrite Hperm.
    - by rewrite <- Hperm. }
  assert (Hkeys : key_set (returned_items tasks') = key_set (returned_items tasks)).
  { apply set_eq. intros k. rewrite !elem_of_key_set.
    split; intros (x & Hx & Hk); exists x; split; try done; by apply Hin. }
  pose proof (scrape_has_link _ _ _ _ _ Hresp) as Hall.
  destruct (scrape_total kw d now tasks') as [resp' Hresp'].
  { apply Forall_forall. intros x Hx. rewrite Forall_forall in Hall.
    by apply Hall, Hin. }
  exists resp'. split; [done|].
  apply scrape_Ok in Hresp as (Hres & Hsrc & Htot).
  apply scrape_Ok in Hresp' as (Hres' & Hsrc' & Htot').
  rewrite Htot, Htot', Hres, Hres', Hsrc, Hsrc'.
  rewrite !first_seen_length, !key_set_first_seen, Hkeys.
  split_and!; try done.
  apply fmap_Permutation, list_filter_Permutation. by symmetry.
Qed.

Lemma scrape_adapter_order_witness :
  ∃ resp resp',
    scrape "q" None "t" two_adapters = Ok resp ∧
    scrape "q" None "t" (reverse two_adapters) = Ok resp' ∧
    total_results (metadata resp') = total_results (metadata resp).
Proof.
  destruct (scrape_total "q" None "t" two_adapters two_adapters_have_links)
    as [resp Hresp].
  destruct (scrape_adapter_order "q" None "t" two_adapters (reverse two_adapters) resp)
    as (resp' & Hresp' & Htot & _); [apply perm_swap|done|].
  by exists resp, resp'.
Defined.

Lemma has_link_format_result self_name data source :
  has_link (format_result self_name data source) ↔
  data !! "link" = None ∨ has_link data.
Proof.
  unfold has_link. rewrite link_key_format_result. unfold link_key, getitem, get.
  destruct (data !! "link") as [v|]; simpl.
  - split; [by right|]. by intros [?|?].
  - split; [by left|]. intros _. by eexists.
Qed.

(** X12: an item made by [format_result] always has a [link] entry, and
    its link is hashable unless the raw result has a list or a
    dictionary there; so the coordinator returns on the output of
    adapters that format results whose link, if present, is a string. *)
Theorem scrape_formatted_items kw d now tasks :
  (∀ x, x ∈ returned_items tasks →
        ∃ adapter data source,
          x = format_result adapter data source ∧ str_field data "link") →
  ∃ resp, scrape kw d now tasks = Ok resp.
Proof.
  intros Hfmt. apply scrape_total, Forall_forall. intros x Hx.
  destruct (Hfmt x Hx) as (adapter & data & source & -> & Hstr).
  apply has_link_format_result. unfold str_field in Hstr.
  unfold has_link, link_key, getitem.
  destruct (data !! "link") as [v|]; [right|by left].
  destruct v; try done. by eexists.
Qed.

Lemma scrape_formatted_items_witness :
  ∃ resp, scrape "q" None "t" two_adapters = Ok resp.
Proof.
  apply scrape_formatted_items. intros x Hx.
  change (returned_items two_adapters) with
    [item "google" "A" "https://x.com"; item "duckduckgo" "B" "https://x.com";
     item "duckduckgo" "C" "https://y.com"] in Hx.
  assert (Hraw : ∀ title link, str_field (raw title link) "link").
  { intros title link. unfold str_field, raw. by rewrite lookup_insert_eq. }
  repeat (apply elem_of_cons in Hx as [->|Hx];
          [eexists _, (raw _ _), _; split; [reflexivity|apply Hraw]|]).
  by apply elem_of_nil in Hx.
Defined.

End coordinator_more.

(** ** More on the enrichment stage *)

Section processor_more.
Import PyStr ContentProcessor Samples.

Implicit Types (item : dict) (k : string) (v : value) (m : dict).

(** X13: the remote strategy never raises and works item by item: the
    output has the length and the order of the input, position [i]
    holding what [_enhance_item_with_openai] returns for item [i] and
    its reply, whatever the batches.  An item whose call failed, or
    whose title is absent or shorter than 3 characters, is passed on
    unchanged. *)
Theorem remote_enrichment_per_item results keywords replies :
  ∃ out, process_results true results keywords replies = Ok out ∧
    length out = length results ∧
    (∀ i item, results !! i = Some item →
       ∃ item', out !! i = Some item' ∧
                _enhance_item_with_openai item keywords (replies i) = Ok item') ∧
    (∀ i item, results !! i = Some item →
       replies i = CallRaises ∨ replies i = NoMessage ∨ replies i = Unparsable →
       out !! i = Some item) ∧
    (∀ i item, results !! i = Some item →
       str_field item "title" → (String.length (text item "title") < 3)%nat →
       out !! i = Some item).
Proof.
  exists (_process_with_openai results keywords replies). split_and!.
  - unfold process_results. destruct results; [|done].
    by rewrite process_with_openai_imap.
  - apply process_with_openai_length.
  - intros i item Hi. rewrite process_with_openai_lookup, Hi. simpl.
    unfold enhanced.
    destruct (enhance_returns item keywords (replies i)) as [item' ->]. eauto.
  - intros i item Hi Hr. rewrite process_with_openai_lookup, Hi. simpl.
    unfold enhanced. by rewrite (enhance_failed_call _ _ _ Hr).
  - intros i item Hi Hstr Hlen. rewrite process_with_openai_lookup, Hi. simpl.
    unfold enhanced, _enhance_item_with_openai.
    unfold str_field, text, get in *.
    destruct (item !! "title") as [[]|]; try done; simpl in *.
    + apply Nat.ltb_lt in Hlen. by rewrite Hlen.
Qed.

Lemma remote_enrichment_per_item_witness :
  ∃ out, process_results true [raw "ab" "https://x.com"] "cat" (λ _, Parsed (VDict ∅))
           = Ok out ∧
         out !! 0%nat = Some (raw "ab" "https://x.com").
Proof.
  destruct (remote_enrichment_per_item [raw "ab" "https://x.com"] "cat"
              (λ _, Parsed (VDict ∅))) as (out & Hout & _ & _ & _ & Hshort).
  exists out. split; [exact Hout|].
  apply Hshort; [reflexivity|apply raw_well_typed|].
  unfold text, raw. rewrite lookup_insert_ne, lookup_insert_eq by done. simpl. lia.
Defined.

(** X14: what a reply that is a JSON object leaves in an item with a
    title of 3 characters or more.  [metadata.ai_analysis] holds the
    three fields of the reply as they came, with [0], ["unknown"] and
    [[]] for the missing ones, and nothing else of the reply; the other
    metadata stay; [description] takes [enhanced_description] only when
    the item had none and the reply has one; every other key stays. *)
Theorem remote_reply_written item keywords ai title :
  item !! "title" = Some (VStr title) → (3 ≤ String.length title)%nat →
  dict_field item "metadata" →
  ∃ item' m,
    _enhance_item_with_openai item keywords (Parsed (VDict ai)) = Ok item' ∧
    item' !! "metadata" = Some (VDict m) ∧
    m !! "ai_analysis" =
      Some (analysis (get ai "relevance_score" (VInt 0))
                     (get ai "content_type" (VStr "unknown"))
                     (get ai "tags" (VList []))) ∧
    (∀ k, k ≠ "ai_analysis" →
          m !! k = match item !! "metadata" with
                   | Some (VDict m0) => m0 !! k
                   | _ => None
                   end) ∧
    (∀ k, k ≠ "metadata" → k ≠ "description" → item' !! k = item !! k) ∧
    item' !! "description" =
      if negb (truthy (get item "description" VNone)) &&
         truthy (get ai "enhanced_description" VNone)
      then Some (get ai "enhanced_description" VNone)
      else item !! "description".
Proof.
  intros Ht Hlen Hmeta. unfold _enhance_item_with_openai, get at 1. rewrite Ht. simpl.
  apply Nat.ltb_ge in Hlen as ->. unfold write_analysis. simpl.
  rewrite (set_metadata_Ok _ _ _ _ (ensure_metadata_metadata _ Hmeta)). simpl.
  rewrite get_insert_ne, get_ensure_metadata by done.
  set (m0 := match item !! "metadata" with Some (VDict m0) => m0 | _ => ∅ end).
  assert (Hold : ∀ k, m0 !! k = match item !! "metadata" with
                                | Some (VDict m0) => m0 !! k
                                | _ => None
                                end).
  { intros k. subst m0. by destruct (item !! "metadata") as [[]|]. }
  destruct (negb (truthy (get item "description" VNone)) &&
            truthy (get ai "enhanced_description" VNone)) eqn:Hd; simpl;
    eexists _, _; (split; [reflexivity|]); split_and!.
  - rewrite lookup_insert_ne by done. apply lookup_insert_eq.
  - apply lookup_insert_eq.
  - intros k Hk. rewrite lookup_insert_ne by done. apply Hold.
  - intros k H1 H2. rewrite !lookup_insert_ne by done. by apply ensure_metadata_other.
  - apply lookup_insert_eq.
  - apply lookup_insert_eq.
  - apply lookup_insert_eq.
  - intros k Hk. rewrite lookup_insert_ne by done. apply Hold.
  - intros k H1 H2. rewrite !lookup_insert_ne by done. by apply ensure_metadata_other.
  - rewrite lookup_insert_ne by done. by apply ensure_metadata_other.
Qed.

Lemma remote_reply_written_witness :
  ∃ item' m,
    _enhance_item_with_openai (raw "cat video" "https://x.com") "cat"
      (Parsed (VDict (<["relevance_score" := VInt 80]> ∅))) = Ok item' ∧
    item' !! "metadata" = Some (VDict m) ∧
    m !! "ai_analysis" = Some (analysis (VInt 80) (VStr "unknown") (VList [])).
Proof.
  destruct (remote_reply_written (raw "cat video" "https://x.com") "cat"
              (<["relevance_score" := VInt 80]> ∅) "cat video")
    as (item' & m & Hok & Hm & Hai & _).
  - unfold raw. by rewrite lookup_insert_ne, lookup_insert_eq by done.
  - simpl. lia.
  - apply raw_well_typed.
  - exists item', m. split; [exact Hok|]. split; [exact Hm|]. exact Hai.
Defined.

Lemma set_metadata_not_dict item k v x :
  item !! "metadata" = Some x → (∀ d, x ≠ VDict d) →
  set_metadata item k v = Raise TypeError.
Proof.
  unfold set_metadata, getitem. intros -> Hx. simpl.
  destruct x; try done. by destruct (Hx d).
Qed.

Lemma ensure_metadata_is_Some item : is_Some (ensure_metadata item !! "metadata").
Proof.
  unfold ensure_metadata. destruct (item !! "metadata") eqn:Hm.
  - by rewrite Hm.
  - by rewrite lookup_insert_eq.
Qed.

(** What a successful pass of the fallback over one item has read and
    written. *)
Lemma dummy_item_Ok tags item item' :
  dummy_item tags item = Ok item' →
  ∃ m url title description,
    ensure_metadata item !! "metadata" = Some (VDict m) ∧
    get item "link" (VStr EmptyString) = VStr url ∧
    get item "title" (VStr EmptyString) = VStr title ∧
    get item "description" (VStr EmptyString) = VStr description ∧
    item' =
      <["metadata" := VDict (<["ai_analysis" :=
            analysis (VInt (Z.min 100 (keyword_count tags (lower title)
                                         (lower description) * 10)))
                     (VStr (classify (lower url)))
                     (VList (VStr <$> take 5 tags))]>
          (<["processed" := VBool true]> m))]> (ensure_metadata item).
Proof.
  unfold dummy_item.
  destruct (ensure_metadata_is_Some item) as [x Hm].
  assert (Hx : (∃ m, x = VDict m) ∨ ∀ d, x ≠ VDict d)
    by (destruct x; eauto).
  destruct Hx as [[m ->]|Hx];
    [|by rewrite (set_metadata_not_dict _ _ _ x Hm Hx)].
  rewrite (set_metadata_Ok _ _ _ _ Hm). simpl.
  rewrite !get_insert_ne, !get_ensure_metadata by done.
  destruct (get item "link" _) as [| | |url| |]; simpl; try done.
  destruct (get item "title" _) as [| | |title| |]; simpl; try done.
  destruct (get item "description" _) as [| | |description| |]; simpl; try done.
  erewrite set_metadata_Ok by apply lookup_insert_eq.
  intros [= <-]. exists m, url, title, description.
  by rewrite insert_insert_eq.
Qed.

Lemma dummy_item_again tags item item' :
  dummy_item tags item = Ok item' → dummy_item tags item' = Ok item'.
Proof.
  intros (m & url & title & description & Hm & Hu & Ht & Hd & ->)%dummy_item_Ok.
  set (a := analysis _ _ _).
  unfold dummy_item.
  assert (Hens : ∀ d, ensure_metadata (<["metadata" := VDict d]> (ensure_metadata item))
                      = <["metadata" := VDict d]> (ensure_metadata item)).
  { intros d. unfold ensure_metadata at 1. by rewrite lookup_insert_eq. }
  rewrite Hens.
  erewrite set_metadata_Ok by apply lookup_insert_eq. simpl.
  rewrite !get_insert_ne, !get_ensure_metadata, Hu, Ht, Hd by done. simpl.
  erewrite set_metadata_Ok by apply lookup_insert_eq.
  rewrite !insert_insert_eq. fold a. do 3 f_equal.
  apply map_eq. intros k.
  destruct (decide (k = "ai_analysis")) as [->|Hk];
    [by rewrite !lookup_insert_eq|].
  rewrite !(lookup_insert_ne _ "ai_analysis") by done.
  destruct (decide (k = "processed")) as [->|Hk'];
    [by rewrite !lookup_insert_eq|].
  rewrite !(lookup_insert_ne _ "processed") by done.
  by rewrite !lookup_insert_ne by done.
Qed.

Lemma each_item_app (f : dict → res dict) l1 l2 :
  each_item f (l1 ++ l2) =
  each_item f l1 ≫= λ l1', each_item f l2 ≫= λ l2', Ok (l1' ++ l2').
Proof.
  induction l1 as [|item l1 IH]; simpl.
  - by destruct (each_item f l2).
  - destruct (f item) as [item'|e]; simpl; [|done]. rewrite IH.
    destruct (each_item f l1) as [l1'|e]; simpl; [|done].
    by destruct (each_item f l2).
Qed.

Lemma process_with_dummy_again results keywords out :
  _process_with_dummy results keywords = Ok out →
  _process_with_dummy out keywords = Ok out.
Proof.
  unfold _process_with_dummy. revert out.
  induction results as [|item rest IH]; intros out; simpl.
  - by intros [= <-].
  - destruct (dummy_item _ item) as [item'|e] eqn:Hitem; simpl; [|done].
    destruct (each_item _ rest) as [rest'|e] eqn:Hrest; simpl; [|done].
    intros [= <-]. simpl.
    rewrite (dummy_item_again _ _ _ Hitem). simpl.
    by rewrite (IH rest' eq_refl).
Qed.

(** X15: the fallback strategy is idempotent: processing its own output
    with the same keywords returns the output as it is. *)
Theorem fallback_idempotent results keywords replies out :
  process_results false results keywords replies = Ok out →
  process_results false out keywords replies = Ok out.
Proof.
  unfold process_results. destruct results as [|item rest].
  - by intros [= <-].
  - intros Hout. destruct out as [|item' rest']; [done|].
    by apply (process_with_dummy_again (item :: rest)).
Qed.

Lemma fallback_idempotent_witness :
  ∃ out, process_results false [raw "cat video" "https://x.com"] "cat" (λ _, NoMessage)
           = Ok out ∧
         process_results false out "cat" (λ _, NoMessage) = Ok out.
Proof.
  destruct (process_with_dummy_enriched "cat" [raw "cat video" "https://x.com"])
    as (out & Hout & _).
  { apply Forall_cons_2; [apply raw_well_typed|apply Forall_nil_2]. }
  exists out. split; [exact Hout|].
  exact (fallback_idempotent [raw "cat video" "https://x.com"] "cat"
           (λ _, NoMessage) out Hout).
Defined.

(** X16: the fallback strategy catches nothing: the first item whose
    [metadata] is not a dictionary makes [process_results] raise
    [TypeError], and a [link], [title] or [description] that is not a
    string makes it raise [AttributeError], where the remote strategy
    returns on every input. *)
Theorem fallback_raises pre bad post keywords replies :
  Forall well_typed pre →
  (∀ v, bad !! "metadata" = Some v → (∀ d, v ≠ VDict d) →
        process_results false (pre ++ bad :: post) keywords replies = Raise TypeError) ∧
  (∀ k v, dict_field bad "metadata" → k ∈ ["link"; "title"; "description"] →
          bad !! k = Some v → (∀ s, v ≠ VStr s) →
          process_results false (pre ++ bad :: post) keywords replies
            = Raise AttributeError) ∧
  (∃ out, process_results true (pre ++ bad :: post) keywords replies = Ok out).
Proof.
  intros Hpre.
  assert (Hloop : ∀ e, dummy_item (keyword_tags keywords) bad = Raise e →
            process_results false (pre ++ bad :: post) keywords replies = Raise e).
  { intros e Hbad.
    trans (_process_with_dummy (pre ++ bad :: post) keywords);
      [unfold process_results; by destruct pre|].
    unfold _process_with_dummy. rewrite each_item_app.
    destruct (process_with_dummy_enriched keywords pre Hpre) as (out & Hout & _).
    unfold _process_with_dummy in Hout. rewrite Hout. simpl. by rewrite Hbad. }
  split_and!.
  - intros v Hv Hnd. apply Hloop. unfold dummy_item.
    rewrite (set_metadata_not_dict _ _ _ v); [done| |done].
    unfold ensure_metadata. by rewrite Hv.
  - intros k v Hmeta Hk Hv Hns. apply Hloop. unfold dummy_item.
    rewrite (set_metadata_Ok _ _ _ _ (ensure_metadata_metadata _ Hmeta)). simpl.
    rewrite !get_insert_ne, !get_ensure_metadata by done.
    assert (Hget : as_str (get bad k (VStr EmptyString)) = Raise AttributeError).
    { unfold get. rewrite Hv. destruct v; try done. by destruct (Hns s). }
    repeat (apply elem_of_cons in Hk as [->|Hk]);
      [| |
       |by apply elem_of_nil in Hk].
    + by rewrite Hget.
    + rewrite Hget. by destruct (get bad "link" _).
    + rewrite Hget. destruct (get bad "link" _); try done. simpl.
      by destruct (get bad "title" _).
  - unfold process_results. destruct (pre ++ bad :: post); by eexists.
Qed.

Lemma fallback_raises_witness :
  process_results false [<["metadata" := VStr "none"]> (raw "cat" "https://x.com")]
    "cat" (λ _, NoMessage) = Raise TypeError.
Proof.
  apply (proj1 (fallback_raises [] _ [] "cat" (λ _, NoMessage) (Forall_nil_2 _))
           (VStr "none")); [apply lookup_insert_eq|done].
Defined.

Lemma get_text item k s : get item k (VStr EmptyString) = VStr s → text item k = s.
Proof.
  unfold get, text. destruct (item !! k) as [[]|]; simpl; congruence.
Qed.

Lemma occurrences_zero tags title description :
  occurrences tags title description = 0%nat ↔
  ∀ tag, tag ∈ tags → ¬ substring tag title ∧ ¬ substring tag description.
Proof.
  unfold occurrences. induction tags as [|tag tags IH]; simpl.
  - split; [|done]. by intros _ tag ?%elem_of_nil.
  - rewrite Nat.eq_add_0, IH, Nat.eq_add_0. split.
    + intros [[Ht Hd] Hrest] tag' [->|Hin]%elem_of_cons; [|by apply Hrest].
      rewrite <- !count_pos. lia.
    + intros Hall. split.
      * destruct (Hall tag) as [Ht Hd]; [left|]. rewrite <- count_pos in Ht, Hd. lia.
      * intros tag' Hin. apply Hall. by right.
Qed.

(** X17: the relevance score of the fallback strategy is one of
    [0, 10, ..., 100], and it is [0] exactly when no keyword tag occurs
    in the lowercased title or description. *)
Theorem fallback_score_range keywords item item' :
  dummy_item (keyword_tags keywords) item = Ok item' →
  ∃ m score type tags,
    item' !! "metadata" = Some (VDict m) ∧
    m !! "ai_analysis" = Some (analysis (VInt score) type tags) ∧
    0 ≤ score ≤ 100 ∧ (10 | score) ∧
    (score = 0 ↔
       ∀ tag, tag ∈ keyword_tags keywords →
              ¬ substring tag (lower (text item "title")) ∧
              ¬ substring tag (lower (text item "description"))).
Proof.
  intros (m & url & title & description & Hm & Hu & Ht & Hd & ->)%dummy_item_Ok.
  eexists _, _, _, _. split; [apply lookup_insert_eq|].
  split; [apply lookup_insert_eq|].
  rewrite (get_text _ _ _ Ht), (get_text _ _ _ Hd), keyword_count_occurrences.
  rewrite <- occurrences_zero.
  set (n := occurrences _ _ _). split_and!; try lia.
  destruct (decide (10 ≤ n)%nat).
  - exists 10. lia.
  - exists (Z.of_nat n). lia.
Qed.

Lemma fallback_score_range_witness :
  ∃ item' m score type tags,
    dummy_item (keyword_tags "cat") (raw "cat video" "https://x.com") = Ok item' ∧
    item' !! "metadata" = Some (VDict m) ∧
    m !! "ai_analysis" = Some (analysis (VInt score) type tags) ∧
    0 ≤ score ≤ 100.
Proof.
  destruct (dummy_item_enriched "cat" (raw "cat video" "https://x.com")
              (raw_well_typed _ _)) as (item' & Hitem & _).
  destruct (fallback_score_range "cat" _ item' Hitem)
    as (m & score & type & tags & Hm & Hai & Hrange & _).
  by exists item', m, score, type, tags.
Defined.

End processor_more.

(** ** The Firecrawl adapter *)

Section firecrawl_facts.
Import PyStr BaseScraper Dedup Coordinator FirecrawlScraper.

Implicit Types (st : list dict * gset hkey) (item : dict) (n : Z).

Lemma search_strategies_le query max_pages :
  (length (search_strategies query max_pages) ≤ 5)%nat ∧
  (0 ≤ max_pages → Z.of_nat (length (search_strategies query max_pages)) ≤ max_pages).
Proof.
  unfold search_strategies, slice_to.
  destruct (3 <? max_pages) eqn:H3; [apply Z.ltb_lt in H3|apply Z.ltb_ge in H3];
    destruct (0 <=? max_pages) eqn:H0;
    try apply Z.leb_le in H0; try apply Z.leb_gt in H0;
    rewrite length_take; cbn [length app]; split; lia.
Qed.

(** X19: the number of pages that [_extract_content] asks for.  There
    are at most 5, and [max_pages] of them when it is between 0 and 5;
    a negative [max_pages] cuts from the end of the three basic
    strategies, so that [-1] still asks for two pages. *)
Theorem search_strategies_length query max_pages :
  let n := length (search_strategies query max_pages) in
  (n ≤ 5)%nat ∧
  (0 ≤ max_pages ≤ 5 → n = Z.to_nat max_pages) ∧
  (5 ≤ max_pages → n = 5%nat) ∧
  (max_pages < 0 → n = (3 - Z.to_nat (- max_pages))%nat).
Proof.
  intros n. subst n. unfold search_strategies, slice_to.
  destruct (3 <? max_pages) eqn:H3; [apply Z.ltb_lt in H3|apply Z.ltb_ge in H3];
    destruct (0 <=? max_pages) eqn:H0;
    try apply Z.leb_le in H0; try apply Z.leb_gt in H0;
    rewrite length_take; cbn [length app]; split_and!; lia.
Qed.

Lemma search_strategies_length_witness :
  length (search_strategies "cats" (-1)) = 2%nat ∧
  length (search_strategies "cats" 9) = 5%nat.
Proof.
  split.
  - apply (proj2 (proj2 (proj2 (search_strategies_length "cats" (-1))))). lia.
  - apply (proj1 (proj2 (proj2 (search_strategies_length "cats" 9)))). lia.
Defined.

Lemma format_result_source self_name data :
  format_result self_name data None !! "source" = Some (VStr self_name).
Proof.
  rewrite format_result_lookup.
  rewrite bool_decide_eq_false_2 by (apply fixed_not_optional; set_solver).
  unfold required_fields. by rewrite lookup_insert_eq.
Qed.

Lemma format_result_page_number self_name data p :
  data !! "page_number" = Some (VInt p) → p ≠ 0 →
  format_result self_name data None !! "page_number" = Some (VInt p).
Proof.
  intros Hp Hne. rewrite format_result_lookup.
  rewrite bool_decide_eq_true_2 by (unfold optional_fields; set_solver).
  rewrite Hp. simpl. by apply Z.eqb_neq in Hne as ->.
Qed.

Lemma tagged_mono n n' item : n ≤ n' → tagged n item → tagged n' item.
Proof. intros Hle (Hs & p & Hp & Hr). split; [done|]. exists p. split; [done|lia]. Qed.

(** One item keeps the state of the extraction loop consistent. *)
Lemma extract_item_consistent (page_num : nat) n st v st' :
  (1 ≤ page_num)%nat → Z.of_nat page_num ≤ n →
  consistent n st → extract_item page_num st v = Ok st' → consistent n st'.
Proof.
  intros Hp1 Hpn Hst. unfold extract_item.
  destruct v as [| | | | |d]; try (by intros [= <-]).
  destruct (d !! "link") as [link|] eqn:Hlink; [|by intros [= <-]].
  destruct (hash_key link) as [k|e] eqn:Hk; simpl; [|done].
  case_bool_decide as Hin; intros [= <-]; [done|].
  destruct Hst as (Hseen & Hnd & Hall & Htag). simpl.
  set (x := format_result _ _ _).
  assert (Hx : link_key x = Ok k).
  { unfold x. rewrite link_key_format_result. unfold get.
    by rewrite lookup_insert_ne, Hlink by done. }
  split_and!; cbn [fst snd].
  - rewrite key_set_app. simpl. rewrite Hx, Hseen. set_solver.
  - rewrite fmap_app. apply NoDup_app. split_and!; [done| |].
    + intros y Hy [->|[]%elem_of_nil]%elem_of_cons.
      apply list_elem_of_fmap in Hy as (z & Hz & Hzin).
      apply Hin. rewrite Hseen. apply elem_of_key_set. exists z.
      split; [done|]. by rewrite <- Hz, Hx.
    + apply NoDup_singleton.
  - apply Forall_app. split; [done|]. apply Forall_singleton. by exists k.
  - apply Forall_app. split; [done|]. apply Forall_singleton. split.
    + apply format_result_source.
    + exists (Z.of_nat page_num). split; [|lia].
      apply format_result_page_number; [apply lookup_insert_eq|lia].
Qed.

Lemma extract_items_consistent (page_num : nat) n st items :
  (1 ≤ page_num)%nat → Z.of_nat page_num ≤ n →
  consistent n st → consistent n (extract_items page_num st items).
Proof.
  intros Hp1 Hpn. revert st. induction items as [|v items IH]; intros st Hst; [done|].
  simpl. destruct (extract_item page_num st v) as [st'|e] eqn:Hv; [|done].
  apply IH. by eapply extract_item_consistent.
Qed.

Lemma extract_pages_consistent extract n (pages : list (nat * string)) st :
  Forall (λ page, (1 ≤ page.1)%nat ∧ Z.of_nat page.1 ≤ n) pages →
  consistent n st → consistent n (foldl (extract_page extract) st pages).
Proof.
  intros Hpages. revert st. induction Hpages as [|page pages [Hp1 Hpn] _ IH];
    intros st Hst; [done|].
  simpl. apply IH. unfold extract_page.
  destruct (extract page.1 page.2) as [|[| | | |items|]]; try done.
  by apply extract_items_consistent.
Qed.

Lemma extract_content_consistent sync_client extract query max_pages :
  ∃ st, _extract_content sync_client extract query max_pages = st.1 ∧
        consistent (Z.of_nat (length (search_strategies query max_pages))) st.
Proof.
  unfold _extract_content. destruct sync_client.
  - eexists. split; [reflexivity|]. apply extract_pages_consistent.
    + apply Forall_forall. intros [p prompt] Hin.
      apply elem_of_zip_l in Hin. apply elem_of_seq in Hin. simpl. lia.
    + split_and!; simpl; [done|constructor|constructor|constructor].
  - exists ([], ∅). split; [done|].
    split_and!; simpl; [done|constructor|constructor|constructor].
Qed.

(** X20: what [_extract_content] returns, whatever the remote service
    answers.  Every item has a hashable link, no two items have the
    same link (also across pages), every item has this adapter as its
    source and carries the number of the page it came from, between 1
    and 5; so the coordinator, given this list by its only adapter,
    returns it as it is. *)
Theorem extract_content_distinct_links sync_client extract query max_pages :
  let out := _extract_content sync_client extract query max_pages in
  Forall has_link out ∧
  NoDup (link_key <$> out) ∧
  Forall (tagged 5) out ∧
  (0 ≤ max_pages → Forall (tagged max_pages) out) ∧
  (∀ kw d now, ∃ resp,
     Coordinator.scrape kw d now [Task FirecrawlScraper.name (Returned out)] = Ok resp ∧
     results resp = out).
Proof.
  intros out. subst out.
  destruct (extract_content_consistent sync_client extract query max_pages)
    as (st & -> & Hseen & Hnd & Hall & Htag).
  destruct (search_strategies_le query max_pages) as (H5 & Hn).
  split_and!; try done.
  - eapply Forall_impl; [done|]. intros item. apply tagged_mono. lia.
  - intros Hpos. eapply Forall_impl; [done|]. intros item. apply tagged_mono. lia.
  - intros kw d now.
    destruct (scrape_total kw d now [Task FirecrawlScraper.name (Returned st.1)])
      as [resp Hresp]; [by rewrite returned_items_single|].
    exists resp. split; [done|].
    apply scrape_Ok in Hresp as (-> & _ & _). rewrite returned_items_single.
    apply first_seen_id; [done|done|set_solver].
Qed.

Lemma extract_content_distinct_links_witness :
  Forall (tagged 2)
    (_extract_content true
       (λ _ _, Extracted (VList [VDict (Samples.raw "A" "https://x.com")])) "cats" 2).
Proof.
  apply (extract_content_distinct_links true
           (λ _ _, Extracted (VList [VDict (Samples.raw "A" "https://x.com")]))
           "cats" 2).
  lia.
Defined.

(** X21: the items of an answer that are skipped, and the item that
    ends its page.  A value that is not a dictionary, or a dictionary
    without [link], is passed over; a dictionary whose link is
    unhashable raises inside the loop, which gives up the rest of the
    page and keeps what was collected before. *)
Theorem extract_items_skips_and_stops page_num st pre v post :
  ((∀ d, v = VDict d → d !! "link" = None) →
   extract_items page_num st (pre ++ v :: post) =
   extract_items page_num st (pre ++ post)) ∧
  (∀ d link e, v = VDict d → d !! "link" = Some link → hash_key link = Raise e →
   extract_items page_num st (pre ++ v :: post) = extract_items page_num st pre).
Proof.
  split.
  - intros Hv. revert st. induction pre as [|w pre IH]; intros st.
    + cbn [app extract_items].
      assert (extract_item page_num st v = Ok st) as ->; [|done].
      unfold extract_item. destruct v as [| | | | |d]; try done.
      by rewrite (Hv d eq_refl).
    + cbn [app extract_items]. destruct (extract_item page_num st w); [apply IH|done].
  - intros d link e -> Hlink He. revert st. induction pre as [|w pre IH]; intros st.
    + cbn [app extract_items]. unfold extract_item. by rewrite Hlink, He.
    + cbn [app extract_items]. destruct (extract_item page_num st w); [apply IH|done].
Qed.

Lemma extract_items_skips_and_stops_witness :
  extract_items 1 ([], ∅)
    [VDict (Samples.raw "A" "https://x.com"); VDict (<["link" := VList []]> ∅);
     VDict (Samples.raw "B" "https://y.com")] =
  extract_items 1 ([], ∅) [VDict (Samples.raw "A" "https://x.com")].
Proof.
  apply (proj2 (extract_items_skips_and_stops 1 ([], ∅)
                  [VDict (Samples.raw "A" "https://x.com")]
                  (VDict (<["link" := VList []]> ∅))
                  [VDict (Samples.raw "B" "https://y.com")])
           (<["link" := VList []]> ∅) (VList []) TypeError);
    reflexivity.
Defined.

Lemma page_result_item i page :
  let item := format_result FirecrawlScraper.name (page_result i page) None in
  has_link item ∧
  item !! "source" = Some (VStr FirecrawlScraper.name) ∧
  item !! "page_number" = Some (VInt (Z.of_nat i + 1)) ∧
  (∃ t, item !! "title" = Some (VStr t) ∧ t ≠ EmptyString).
Proof.
  intros item. subst item. split_and!.
  - apply has_link_format_result. right. unfold has_link, link_key, getitem, page_result.
    rewrite !lookup_insert_ne, lookup_insert_eq by done. simpl.
    unfold attr_or. destruct (page_url page) as [s|]; [|by eexists].
    destruct (String.eqb s EmptyString); by eexists.
  - apply format_result_source.
  - apply format_result_page_number; [apply lookup_insert_eq|lia].
  - rewrite format_result_lookup.
    rewrite bool_decide_eq_false_2 by (apply fixed_not_optional; set_solver).
    rewrite required_fields_lookup. simpl. unfold get, page_result.
    rewrite !lookup_insert_ne, lookup_insert_eq by done.
    unfold attr_or. destruct (page_title page) as [s|]; [|by eexists].
    destruct (String.eqb s EmptyString) eqn:Hs; [by eexists|].
    apply String.eqb_neq in Hs. by eexists.
Qed.

(** The crawl loop from page [i] on: what it appends comes from pages
    that passed the keyword test, in page order, and it stops at the
    limit. *)
Lemma crawl_pages_Ok keywords max_pages i pages results out :
  crawl_pages keywords max_pages i pages results = Ok out →
  ∃ picked : list (nat * crawled_page),
    out = results ++
          ((λ ip, format_result FirecrawlScraper.name (page_result ip.1 ip.2) None)
             <$> picked) ∧
    picked `sublist_of` imap (λ j page, ((i + j)%nat, page)) pages ∧
    Forall (λ ip, relevant keywords ip.2 = Ok true) picked ∧
    (results = [] ∨ Z.of_nat (length results) < max_pages * 3 →
     Z.of_nat (length out) ≤ Z.max 1 (max_pages * 3)).
Proof.
  revert i results. induction pages as [|page rest IH]; intros i results; simpl.
  - intros [= <-]. exists []. rewrite app_nil_r. split_and!; try done.
    intros [->|?]; simpl; lia.
  - destruct (relevant keywords page) as [[]|e] eqn:Hrel; simpl; [| |done].
    + destruct (max_pages * 3 <=? _) eqn:Hlim.
      * intros [= <-]. exists [(i, page)]. split_and!; try done.
        -- rewrite Nat.add_0_r. apply sublist_skip, sublist_nil_l.
        -- by apply Forall_singleton.
        -- rewrite !length_app. simpl. intros [->|?]; simpl; lia.
      * intros (picked & -> & Hsub & Hrels & Hlen)%IH.
        exists ((i, page) :: picked). split_and!.
        -- by rewrite <- app_assoc.
        -- rewrite Nat.add_0_r. apply sublist_skip.
           erewrite imap_ext; [exact Hsub|]. intros j p _. simpl. f_equal. lia.
        -- by constructor.
        -- intros _. apply Hlen. right. apply Z.leb_gt in Hlim. done.
    + intros (picked & -> & Hsub & Hrels & Hlen)%IH.
      exists picked. split_and!; try done.
      apply sublist_cons.
      erewrite imap_ext; [exact Hsub|]. intros j p _. simpl. f_equal. lia.
Qed.

Lemma crawl_target_domain_picked crawl_url domain keywords max_pages :
  let url := if has_protocol domain then domain else "https://" +:+ domain in
  let out := _crawl_target_domain crawl_url domain keywords max_pages in
  ∃ picked : list (nat * crawled_page),
     out = (λ ip, format_result FirecrawlScraper.name (page_result ip.1 ip.2) None)
             <$> picked ∧
     Forall (λ ip, relevant keywords ip.2 = Ok true) picked ∧
     (∀ pages, crawl_url url (max_pages * 10) = Crawled (Some pages) →
        picked `sublist_of` imap pair (slice_to (max_pages * 5) pages)) ∧
     ((∀ pages, crawl_url url (max_pages * 10) ≠ Crawled (Some pages)) → picked = []) ∧
     Z.of_nat (length out) ≤ Z.max 1 (max_pages * 3).
Proof.
  intros url out. subst out. unfold _crawl_target_domain. fold url.
  destruct (crawl_url url (max_pages * 10)) as [|[pages|]];
    try (exists []; split_and!; [done|done|done|done|simpl; lia]).
  destruct (crawl_pages _ _ _ _ _) as [results|e] eqn:Hloop.
  - apply crawl_pages_Ok in Hloop as (picked & -> & Hsub & Hrel & Hlen).
    exists picked. split_and!; [done|done| | |apply Hlen; by left].
    + by intros ? [= <-].
    + intros Hno. by destruct (Hno pages).
  - exists []. split_and!; [done|done| |done|simpl; lia].
    intros ? _. apply sublist_nil_l.
Qed.

Lemma crawl_target_domain_has_link crawl_url domain keywords max_pages :
  Forall has_link (_crawl_target_domain crawl_url domain keywords max_pages).
Proof.
  destruct (crawl_target_domain_picked crawl_url domain keywords max_pages)
    as (picked & -> & _).
  apply Forall_fmap, Forall_forall. intros [i page] _. simpl.
  by destruct (page_result_item i page) as (? & _).
Qed.

(** X22: what [_crawl_target_domain] returns.  The items are made of
    pages of the answer that passed the keyword test, one item per page
    and in page order, with the position of the page among the first
    [5 * max_pages] as page number; there are at most [3 * max_pages]
    of them, one for a negative [max_pages] and none for [0]; each has
    a title.  Keywords that are only whitespace drop every page, and a
    call that raises or answers without pages gives the empty list.
    The URL that is crawled always has a protocol. *)
Theorem crawl_target_domain_items crawl_url domain keywords max_pages :
  let url := if has_protocol domain then domain else "https://" +:+ domain in
  let out := _crawl_target_domain crawl_url domain keywords max_pages in
  has_protocol url = true ∧
  (∃ picked : list (nat * crawled_page),
     out = (λ ip, format_result FirecrawlScraper.name (page_result ip.1 ip.2) None)
             <$> picked ∧
     Forall (λ ip, relevant keywords ip.2 = Ok true) picked ∧
     (∀ pages, crawl_url url (max_pages * 10) = Crawled (Some pages) →
        picked `sublist_of` imap pair (slice_to (max_pages * 5) pages))) ∧
  Z.of_nat (length out) ≤ Z.max 1 (max_pages * 3) ∧
  (max_pages = 0 → out = []) ∧
  (keywords ≠ EmptyString → split keywords = [] → out = []) ∧
  ((∀ pages, crawl_url url (max_pages * 10) ≠ Crawled (Some pages)) → out = []) ∧
  Forall (λ item, item !! "source" = Some (VStr FirecrawlScraper.name) ∧
                  ∃ t, item !! "title" = Some (VStr t) ∧ t ≠ EmptyString) out.
Proof.
  intros url out.
  destruct (crawl_target_domain_picked crawl_url domain keywords max_pages)
    as (picked & Hpicked & Hrel & Hsub & Hnone & Hlen).
  fold url in Hsub, Hnone. fold out in Hpicked, Hlen.
  split_and!; try done.
  - subst url. destruct (has_protocol domain) eqn:Hd; [done|].
    unfold has_protocol. apply orb_true_iff. right. by apply prefix_spec; eexists.
  - by exists picked.
  - intros ->. rewrite Hpicked.
    destruct (crawl_url url (0 * 10)) as [|[pages|]] eqn:Hresp.
    + by rewrite Hnone.
    + specialize (Hsub pages eq_refl). apply sublist_nil_r in Hsub. by subst picked.
    + by rewrite Hnone.
  - intros Hkw Hsplit. rewrite Hpicked. destruct picked as [|ip picked]; [done|].
    apply Forall_cons in Hrel as [Hrel _]. unfold relevant in Hrel.
    apply String.eqb_neq in Hkw. by rewrite Hkw, Hsplit in Hrel.
  - intros Hno. by rewrite Hpicked, (Hnone Hno).
  - rewrite Hpicked. apply Forall_fmap, Forall_forall. intros [i page] _. simpl.
    destruct (page_result_item i page) as (_ & ? & _ & ?). done.
Qed.

Lemma crawl_target_domain_items_witness :
  _crawl_target_domain (λ _ _, CrawlRaises) "example.com" "cats" 3 = [].
Proof.
  apply (crawl_target_domain_items (λ _ _, CrawlRaises) "example.com" "cats" 3).
  done.
Defined.

(** X23: [FirecrawlScraper.scrape] returns a list in every case, the
    empty one without API key, and every item it returns has a hashable
    link: the coordinator never raises on what this adapter gives. *)
Theorem firecrawl_scrape_has_links client crawl_url extract keywords target_domain
    max_pages :
  let out :=
    FirecrawlScraper.scrape client crawl_url extract keywords target_domain max_pages in
  Forall has_link out ∧
  (client = false → out = []) ∧
  (∀ kw d now, ∃ resp,
     Coordinator.scrape kw d now [Task FirecrawlScraper.name (Returned out)] = Ok resp).
Proof.
  intros out.
  assert (Hall : Forall has_link out).
  { subst out. unfold FirecrawlScraper.scrape. destruct client; [|constructor].
    assert (Forall has_link (_extract_content true extract keywords max_pages)).
    { destruct (extract_content_consistent true extract keywords max_pages)
        as (st & -> & _ & _ & Hall & _). done. }
    destruct target_domain as [domain|]; [|done].
    destruct (String.eqb domain EmptyString); [done|].
    apply crawl_target_domain_has_link. }
  split_and!; [done| |].
  - intros ->. done.
  - intros kw d now. apply scrape_total. by rewrite returned_items_single.
Qed.

Lemma firecrawl_scrape_has_links_witness :
  FirecrawlScraper.scrape false (λ _ _, CrawlRaises) (λ _ _, ExtractRaises)
    "cats" None 3 = [].
Proof.
  apply (firecrawl_scrape_has_links false (λ _ _, CrawlRaises) (λ _ _, ExtractRaises)
           "cats" None 3).
  done.
Defined.

End firecrawl_facts.

(** ** From the coordinator to the enrichment stage *)

Section pipeline_facts.
Import BaseScraper Dedup Coordinator ContentProcessor Endpoints Samples.

Implicit Types (item : dict) (k : string).

Lemma link_key_lookup item item' :
  item' !! "link" = item !! "link" → link_key item' = link_key item.
Proof. unfold link_key, getitem. by intros ->. Qed.

(** The remote strategy writes to ['metadata'] and ['description']
    only. *)
Lemma write_analysis_other item ai k :
  k ≠ "metadata" → k ≠ "description" → (write_analysis item ai).1 !! k = item !! k.
Proof.
  intros H1 H2. unfold write_analysis.
  destruct ai as [| | | | |d]; simpl; try by apply ensure_metadata_other.
  destruct (set_metadata _ _ _) as [item'|e] eqn:Hset; simpl;
    [|by apply ensure_metadata_other].
  assert (Hitem' : item' !! k = item !! k).
  { unfold set_metadata, getitem in Hset.
    destruct (ensure_metadata item !! "metadata") as [[]|]; simpl in Hset; try done.
    injection Hset as <-. rewrite lookup_insert_ne by done.
    by apply ensure_metadata_other. }
  destruct (_ && _); simpl; [|done]. by rewrite lookup_insert_ne.
Qed.

Lemma enhanced_link keywords replies i item :
  enhanced keywords replies i item !! "link" = item !! "link".
Proof.
  unfold enhanced, _enhance_item_with_openai.
  destruct (py_len _) as [n|e]; [|done].
  destruct (n <? 3)%nat; [done|].
  destruct (replies i); try done. by apply write_analysis_other.
Qed.

Lemma dummy_item_link tags item item' :
  dummy_item tags item = Ok item' → item' !! "link" = item !! "link".
Proof.
  intros (m & url & title & description & _ & _ & _ & _ & ->)%dummy_item_Ok.
  rewrite lookup_insert_ne by done. by apply ensure_metadata_other.
Qed.

Lemma process_results_links client results keywords replies out :
  process_results client results keywords replies = Ok out →
  link_key <$> out = link_key <$> results.
Proof.
  unfold process_results. destruct results as [|item rest]; [by intros [= <-]|].
  destruct client.
  - intros [= <-]. rewrite process_with_openai_imap.
    generalize (item :: rest). intros l.
    apply list_eq. intros i. rewrite !list_lookup_fmap, list_lookup_imap.
    destruct (l !! i) as [x|]; [|done]. simpl. f_equal.
    apply link_key_lookup, enhanced_link.
  - unfold _process_with_dummy. generalize (item :: rest). intros l. revert out.
    induction l as [|x l IH]; intros out; simpl; [by intros [= <-]|].
    destruct (dummy_item _ x) as [x'|e] eqn:Hx; simpl; [|done].
    destruct (each_item _ l) as [l'|e] eqn:Hl; simpl; [|done].
    intros [= <-]. rewrite !fmap_cons, (IH l' eq_refl). f_equal.
    by apply link_key_lookup, (dummy_item_link _ _ _ Hx).
Qed.

Lemma format_result_well_typed self_name data source :
  well_typed data → well_typed (format_result self_name data source).
Proof.
  intros (Hl & Ht & Hd & Hm).
  unfold well_typed, str_field, dict_field in *.
  rewrite !format_result_lookup, !required_fields_lookup.
  rewrite !(bool_decide_eq_false_2 (_ ∈ optional_fields))
    by (apply fixed_not_optional; set_solver).
  rewrite !(bool_decide_eq_true_2 (_ ∈ optional_fields))
    by (unfold optional_fields; set_solver).
  simpl. unfold get. split_and!.
  - by destruct (data !! "link") as [[]|].
  - by destruct (data !! "title") as [[]|].
  - destruct (data !! "description") as [[]|]; try done. by destruct (truthy _).
  - destruct (data !! "metadata") as [[]|]; try done. by destruct (truthy _).
Qed.

(** X24: the enrichment stage never touches the link of an item, so
    what the coordinator guarantees survives it: whenever
    [enhanced_results] is computed, it has one item per different link
    of the returned items, in the coordinator's order and with
    pairwise different links.  With the fallback strategy it is
    computed whenever every adapter returned items formatted from raw
    results with well-typed fields; with the remote strategy, whenever
    the coordinator returns. *)
Theorem enhanced_results_links client keywords target_domain now tasks replies :
  (∀ out, enhanced_results client keywords target_domain now tasks replies = Ok out →
     ∃ resp, Coordinator.scrape keywords target_domain now tasks = Ok resp ∧
       link_key <$> out = link_key <$> results resp ∧
       NoDup (link_key <$> out) ∧
       length out = total_results (metadata resp) ∧
       length out = size (key_set (returned_items tasks))) ∧
  ((∀ x, x ∈ returned_items tasks →
      ∃ adapter data source, x = format_result adapter data source ∧ well_typed data) →
   ∃ out, enhanced_results client keywords target_domain now tasks replies = Ok out).
Proof.
  unfold enhanced_results. split.
  - intros out.
    destruct (Coordinator.scrape _ _ _ _) as [resp|e] eqn:Hresp; simpl; [|done].
    intros Hout. exists resp. split; [done|].
    pose proof (process_results_links _ _ _ _ _ Hout) as Hlinks.
    apply scrape_Ok in Hresp as (Hres & _ & Htot).
    assert (Hlen : length out = length (results resp)).
    { by rewrite <- (length_fmap link_key out), Hlinks, length_fmap. }
    split_and!; [done| |congruence|].
    + rewrite Hlinks, Hres. apply first_seen_NoDup.
    + rewrite Hlen, Hres, first_seen_length. f_equal. set_solver.
  - intros Hfmt.
    assert (Hwt : Forall well_typed (returned_items tasks)).
    { apply Forall_forall. intros x Hx.
      destruct (Hfmt x Hx) as (adapter & data & source & -> & Hd).
      by apply format_result_well_typed. }
    destruct (scrape_total keywords target_domain now tasks) as [resp Hresp].
    { apply Forall_forall. intros x Hx.
      destruct (Hfmt x Hx) as (adapter & data & source & -> & Hl & _).
      apply has_link_format_result. unfold str_field in Hl.
      unfold has_link, link_key, getitem.
      destruct (data !! "link") as [v|]; [right|by left].
      destruct v; try done. by eexists. }
    rewrite Hresp. simpl.
    destruct client.
    + unfold process_results. destruct (results resp); by eexists.
    + apply scrape_Ok in Hresp as (Hres & _ & _).
      assert (Forall well_typed (results resp)) as Hwt'.
      { rewrite Hres. rewrite Forall_forall in Hwt. apply Forall_forall.
        intros x Hx. apply Hwt. eapply elem_of_sublist; [done|].
        apply first_seen_sublist. }
      unfold process_results. destruct (results resp) as [|item rest] eqn:Hr;
        [by eexists|].
      destruct (process_with_dummy_enriched keywords _ Hwt') as (out & Hout & _).
      by exists out.
Qed.

Lemma enhanced_results_links_witness :
  ∃ out, enhanced_results false "cat" None "t" two_adapters (λ _, NoMessage) = Ok out.
Proof.
  apply (enhanced_results_links false "cat" None "t" two_adapters (λ _, NoMessage)).
  intros x Hx.
  change (returned_items two_adapters) with
    [item "google" "A" "https://x.com"; item "duckduckgo" "B" "https://x.com";
     item "duckduckgo" "C" "https://y.com"] in Hx.
  repeat (apply elem_of_cons in Hx as [->|Hx];
          [eexists _, (raw _ _), _; split; [reflexivity|apply raw_well_typed]|]).
  by apply elem_of_nil in Hx.
Defined.

End pipeline_facts.

(** ** The adapters of a coordinator *)

Section init_facts.
Import PyStr ContentProcessor Coordinator CoordinatorInit.

Implicit Types (source : dict * bool) (scrapers : list scraper).

Lemma initialize_step_Ok scrapers source scrapers' :
  initialize_step scrapers source = Ok scrapers' →
  scrapers' = scrapers ∨
  (scrapers' = scrapers ++ [if String.eqb (source_name source) "firecrawl"
                            then Firecrawl else Playwright (source_name source)] ∧
   enabled source = true ∧ source.2 = true ∧
   source_name source ∈ ["firecrawl"; "google"; "duckduckgo"]).
Proof.
  unfold initialize_step, enabled, source_name, getitem, text.
  destruct (truthy _); [|intros [= <-]; by left].
  destruct (source.1 !! "name") as [[| | |s| |]|]; simpl; try done.
  destruct (String.eqb (lower s) "firecrawl") eqn:Hf.
  - intros [= <-]. destruct source.2; [right|by left].
    apply String.eqb_eq in Hf. rewrite Hf. split_and!; try done. set_solver.
  - case_bool_decide as Hin; intros [= <-]; [|by left].
    destruct source.2; [right|by left]. split_and!; try done. set_solver.
Qed.

Lemma initialize_step_built scrapers source :
  source.2 = true → enabled source = true →
  (∃ s, source.1 !! "name" = Some (VStr s)) →
  initialize_step scrapers source =
  Ok (if known (source_name source)
      then scrapers ++ [if String.eqb (source_name source) "firecrawl"
                        then Firecrawl else Playwright (source_name source)]
      else scrapers).
Proof.
  unfold initialize_step, enabled, source_name, getitem, text, known.
  intros -> -> [s ->]. simpl.
  destruct (String.eqb (lower s) "firecrawl") eqn:Hf.
  - apply String.eqb_eq in Hf. rewrite Hf. by rewrite bool_decide_eq_true_2 by set_solver.
  - apply String.eqb_neq in Hf.
    rewrite (bool_decide_ext (lower s ∈ ["firecrawl"; "google"; "duckduckgo"])
               (lower s ∈ ["google"; "duckduckgo"])) by set_solver.
    by case_bool_decide.
Qed.

Lemma scraper_name_built source :
  scraper_name (if String.eqb (source_name source) "firecrawl"
                then Firecrawl else Playwright (source_name source)) =
  source_name source.
Proof.
  destruct (String.eqb _ _) eqn:Hf; [|done]. by apply String.eqb_eq in Hf.
Qed.

Lemma initialize_loop sources scrapers scrapers' :
  for_each initialize_step scrapers sources = Ok scrapers' →
  ∃ added,
    scrapers' = scrapers ++ added ∧
    (scraper_name <$> added) `sublist_of` (source_name <$> List.filter enabled sources) ∧
    Forall (λ s, known (scraper_name s) = true) added.
Proof.
  revert scrapers. induction sources as [|source sources IH]; intros scrapers.
  - intros [= <-]. exists []. by rewrite app_nil_r.
  - rewrite for_each_cons.
    destruct (initialize_step scrapers source) as [st|e] eqn:Hstep; simpl; [|done].
    intros (added & -> & Hsub & Hknown)%IH.
    apply initialize_step_Ok in Hstep as [->|(-> & Hen & _ & Hin)].
    + exists added. split_and!; [done| |done].
      cbn [List.filter]. destruct (enabled source); [|done].
      rewrite fmap_cons. by apply sublist_cons.
    + eexists (_ :: added). split_and!.
      * by rewrite <- app_assoc.
      * cbn [List.filter]. rewrite Hen, !fmap_cons, scraper_name_built.
        by apply sublist_skip.
      * constructor; [|done]. rewrite scraper_name_built. unfold known.
        by apply bool_decide_eq_true.
Qed.

Lemma initialize_loop_built sources scrapers :
  Forall (λ source, source.2 = true ∧
                    (enabled source = true → ∃ s, source.1 !! "name" = Some (VStr s)))
         sources →
  ∃ added,
    for_each initialize_step scrapers sources = Ok (scrapers ++ added) ∧
    scraper_name <$> added =
      List.filter known (source_name <$> List.filter enabled sources).
Proof.
  intros Hall. revert scrapers.
  induction Hall as [|source sources [Hb Hname] _ IH]; intros scrapers.
  - exists []. by rewrite app_nil_r.
  - rewrite for_each_cons. cbn [List.filter].
    destruct (enabled source) eqn:Hen.
    + rewrite (initialize_step_built _ _ Hb Hen (Hname eq_refl)).
      unfold mbind, res_bind. rewrite fmap_cons. cbn [List.filter].
      destruct (known (source_name source)).
      * destruct (IH (scrapers ++ [if String.eqb (source_name source) "firecrawl"
                                   then Firecrawl else Playwright (source_name source)]))
          as (added & -> & Hnames).
        eexists (_ :: added). split; [by rewrite <- app_assoc|].
        by rewrite fmap_cons, scraper_name_built, Hnames.
      * apply IH.
    + assert (initialize_step scrapers source = Ok scrapers) as ->.
      { unfold initialize_step. unfold enabled in Hen. by rewrite Hen. }
      apply IH.
Qed.



End init_facts.

(** ** The Playwright adapter *)

Section playwright_facts.
Import PyStr BaseScraper Dedup FirecrawlScraper PlaywrightScraper.

Implicit Types (s : string) (c : ascii).

Lemma hex_value_digit n : (n < 16)%nat → hex_value (hex_digit n) = n.
Proof.
  intros Hn. do 16 (destruct n as [|n]; [reflexivity|]). lia.
Qed.

Lemma quote_byte_unsafe c :
  safe c = false →
  quote_byte c = String "%" (String (hex_digit (nat_of_ascii c / 16))
                   (String (hex_digit (nat_of_ascii c mod 16)) EmptyString)).
Proof. unfold quote_byte. by intros ->. Qed.

Lemma safe_not_percent c : safe c = true → c ≠ "%"%char.
Proof. by intros Hc ->. Qed.

Lemma quote_byte_safe c : safe c = true → quote_byte c = String c EmptyString.
Proof. unfold quote_byte. by intros ->. Qed.

Lemma hex_pair_inj c1 c2 :
  hex_digit (nat_of_ascii c1 / 16) = hex_digit (nat_of_ascii c2 / 16) →
  hex_digit (nat_of_ascii c1 mod 16) = hex_digit (nat_of_ascii c2 mod 16) →
  c1 = c2.
Proof.
  intros Hhi Hlo.
  pose proof (nat_ascii_bounded c1) as B1. pose proof (nat_ascii_bounded c2) as B2.
  assert (D1 : (nat_of_ascii c1 / 16 < 16)%nat)
    by (apply Nat.Div0.div_lt_upper_bound; lia).
  assert (D2 : (nat_of_ascii c2 / 16 < 16)%nat)
    by (apply Nat.Div0.div_lt_upper_bound; lia).
  assert (M1 : (nat_of_ascii c1 mod 16 < 16)%nat) by (apply Nat.mod_upper_bound; lia).
  assert (M2 : (nat_of_ascii c2 mod 16 < 16)%nat) by (apply Nat.mod_upper_bound; lia).
  apply (f_equal hex_value) in Hhi, Hlo.
  rewrite !hex_value_digit in Hhi, Hlo by done.
  rewrite <- (ascii_nat_embedding c1), <- (ascii_nat_embedding c2). f_equal.
  rewrite (Nat.div_mod_eq (nat_of_ascii c1) 16), (Nat.div_mod_eq (nat_of_ascii c2) 16).
  by rewrite Hhi, Hlo.
Qed.

Lemma quote_inj s1 s2 : quote s1 = quote s2 → s1 = s2.
Proof.
  revert s2. induction s1 as [|c1 s1 IH]; intros [|c2 s2]; cbn [quote].
  - done.
  - unfold quote_byte. by destruct (safe c2).
  - unfold quote_byte. by destruct (safe c1).
  - destruct (safe c1) eqn:H1, (safe c2) eqn:H2;
      rewrite ?(quote_byte_safe c1), ?(quote_byte_safe c2),
        ?(quote_byte_unsafe c1), ?(quote_byte_unsafe c2) by done;
      cbn [append].
    + intros [= -> Hq]. f_equal. by apply IH.
    + intros [= -> _]. by apply safe_not_percent in H1.
    + intros [= <- _]. by apply safe_not_percent in H2.
    + intros Hq. inversion Hq as [[Hhi Hlo Hrest]]. f_equal; [|by apply IH].
      by apply hex_pair_inj.
Qed.

Lemma all_chars_app p s1 s2 :
  all_chars p (s1 +:+ s2) = all_chars p s1 && all_chars p s2.
Proof. induction s1 as [|c s1 IH]; simpl; [done|]. by rewrite IH, andb_assoc. Qed.

Lemma hex_digit_safe n : (n < 16)%nat → safe (hex_digit n) = true.
Proof. intros Hn. do 16 (destruct n as [|n]; [reflexivity|]). lia. Qed.

Lemma quote_chars s : all_chars (λ c, safe c || Ascii.eqb c "%") (quote s) = true.
Proof.
  induction s as [|c s IH]; [done|]. cbn [quote]. rewrite all_chars_app, IH, andb_true_r.
  destruct (safe c) eqn:Hc.
  - rewrite (quote_byte_safe c Hc). simpl. by rewrite Hc.
  - rewrite (quote_byte_unsafe c Hc). pose proof (nat_ascii_bounded c) as B.
    cbn [all_chars].
    rewrite !hex_digit_safe
      by (try apply Nat.mod_upper_bound; try apply Nat.Div0.div_lt_upper_bound; lia).
    done.
Qed.

Lemma has_protocol_nonempty s : has_protocol s = true → s ≠ EmptyString.
Proof. by intros H ->. Qed.

(** X26: the URL that the Playwright adapter opens.  It always has a
    protocol, and given back as target domain it is returned as it is.
    With a target domain the keywords play no role.  Without one, the
    URL is the Google search URL followed by the quoted keywords, which
    consist of unreserved characters, [/] and [%] only, and different
    keywords give different URLs. *)
Theorem build_target_url_shape keywords target_domain :
  let url := _build_target_url keywords target_domain in
  has_protocol url = true ∧
  (∀ keywords', _build_target_url keywords' (Some url) = url) ∧
  (∀ domain keywords', target_domain = Some domain → domain ≠ EmptyString →
     _build_target_url keywords' target_domain = url) ∧
  (target_domain = None ∨ target_domain = Some EmptyString →
     url = "https://www.google.com/search?q=" +:+ quote keywords ∧
     all_chars (λ c, safe c || Ascii.eqb c "%") (quote keywords) = true ∧
     ∀ keywords', _build_target_url keywords' target_domain = url →
                  keywords' = keywords).
Proof.
  intros url.
  assert (Hurl : has_protocol url = true).
  { subst url. unfold _build_target_url.
    destruct target_domain as [domain|]; [|done].
    destruct (String.eqb domain EmptyString); [done|].
    destruct (has_protocol domain) eqn:Hd; [done|].
    unfold has_protocol. apply orb_true_iff. right. apply prefix_spec. by eexists. }
  split_and!; [done| | |].
  - intros keywords'. unfold _build_target_url at 1.
    pose proof (has_protocol_nonempty _ Hurl) as Hne.
    apply String.eqb_neq in Hne. by rewrite Hne, Hurl.
  - intros domain keywords' -> Hd. subst url. unfold _build_target_url.
    apply String.eqb_neq in Hd. by rewrite Hd.
  - intros Hnone.
    assert (Hq : ∀ kw, _build_target_url kw target_domain =
                       "https://www.google.com/search?q=" +:+ quote kw).
    { intros kw. by destruct Hnone as [-> | ->]. }
    subst url. rewrite Hq. split_and!; [done|apply quote_chars|].
    intros keywords'. rewrite Hq. intros Heq. apply quote_inj.
    by simplify_eq/=.
Qed.

Lemma build_target_url_shape_witness :
  _build_target_url "cats" (Some "example.com") = "https://example.com" ∧
  _build_target_url "a b" None = "https://www.google.com/search?q=a%20b".
Proof.
  split.
  - etrans; [|exact (proj1 (proj2 (build_target_url_shape "cats" (Some "example.com")))
                      "cats")].
    reflexivity.
  - apply (proj1 (proj2 (proj2 (proj2 (build_target_url_shape "a b" None)))
                   (or_introl eq_refl))).
Defined.

Lemma result_item_shape self_name title link description page_num :
  let item := format_result self_name
                (result_dict title link description page_num) None in
  item !! "link" = Some link ∧
  item !! "title" = Some title ∧
  item !! "thumbnail" = Some (VStr EmptyString) ∧
  item !! "source" = Some (VStr self_name) ∧
  (page_num ≠ 0 → item !! "page_number" = Some (VInt page_num)) ∧
  item !! "description" = (if truthy description then Some description else None).
Proof.
  intros item. subst item. split_and!.
  - rewrite format_result_link. unfold get, result_dict.
    by rewrite !lookup_insert_ne, lookup_insert_eq by done.
  - rewrite format_result_lookup.
    rewrite bool_decide_eq_false_2 by (apply fixed_not_optional; set_solver).
    rewrite required_fields_lookup. simpl. unfold get, result_dict.
    by rewrite !lookup_insert_ne, lookup_insert_eq by done.
  - rewrite format_result_lookup.
    rewrite bool_decide_eq_false_2 by (apply fixed_not_optional; set_solver).
    rewrite required_fields_lookup. simpl. unfold get, result_dict.
    by rewrite !lookup_insert_ne, lookup_insert_eq by done.
  - apply format_result_source.
  - intros Hp. apply format_result_page_number; [|done]. unfold result_dict.
    by rewrite lookup_insert_ne, lookup_insert_eq by done.
  - rewrite format_result_lookup.
    rewrite bool_decide_eq_true_2 by (unfold optional_fields; set_solver).
    unfold result_dict at 1. rewrite lookup_insert_eq.
    destruct (truthy description); [done|].
    apply required_fields_other. set_solver.
Qed.

Lemma off_domain_false target_domain href domain :
  off_domain target_domain href = false →
  target_domain = Some domain → domain ≠ EmptyString → contains domain href = true.
Proof.
  intros Hoff -> Hd. unfold off_domain in Hoff.
  apply String.eqb_neq in Hd. rewrite Hd in Hoff. simpl in Hoff.
  by apply negb_false_iff in Hoff.
Qed.

Lemma generic_item_shape self_name page_url page_num target_domain link item :
  generic_item self_name page_url page_num target_domain link = Some item →
  page_item self_name page_num target_domain item ∧
  item !! "description" = None ∧
  ∃ href, item !! "link" = Some (VStr href) ∧ href ≠ EmptyString.
Proof.
  unfold generic_item. destruct link as [|[href|] text]; try done.
  destruct (String.eqb href EmptyString) eqn:Hne; [done|]. apply String.eqb_neq in Hne.
  cbn [orb].
  destruct (String.prefix "#" href); [done|].
  destruct (String.prefix "javascript" href); [done|].
  cbn [orb].
  set (absolute := if String.prefix "/" href then _ else _).
  assert (Habs : ∀ h, absolute = Some h → h ≠ EmptyString).
  { subst absolute. intros h. destruct (String.prefix "/" href).
    - destruct (_ !! 0%nat) as [scheme|]; [|done].
      destruct (_ !! 2%nat) as [host|]; [|done].
      intros [= <-]. destruct scheme; done.
    - by intros [= <-]. }
  destruct absolute as [h|]; [|done]. specialize (Habs h eq_refl).
  destruct (off_domain target_domain h) eqn:Hoff; [done|]. intros [= <-].
  destruct (result_item_shape self_name
              (VStr match text with
                    | Some t => if String.eqb t EmptyString then "No title" else strip t
                    | None => "No title"
                    end) (VStr h) (VStr EmptyString) page_num)
    as (Hl & Ht & Hth & Hs & Hp & Hd).
  split_and!; [split_and!|..]; try done.
  - unfold has_link, link_key, getitem. rewrite Hl. by eexists.
  - intros domain Htd Hdom. exists h. split; [done|]. by eapply off_domain_false.
  - by exists h.
Qed.

Lemma engine_item_shape self_name page_num target_domain elem item :
  engine_item self_name page_num target_domain elem = Some item →
  page_item self_name page_num target_domain item.
Proof.
  unfold engine_item. destruct elem as [|title link description]; [done|].
  destruct (elem_or title "No title") as [t|]; [|done].
  destruct (elem_or description EmptyString) as [d|]; [|done].
  set (l := elem_or link EmptyString).
  set (skip := match target_domain, l with
               | Some domain, None => _ | _, Some href => _ | None, None => _ end).
  destruct skip as [[]|] eqn:Hskip; try done. intros [= <-].
  destruct (result_item_shape self_name (VStr (strip t))
              (match l with Some href => VStr href | None => VNone end)
              (VStr (strip d)) page_num)
    as (Hl & Ht & Hth & Hs & Hp & Hd).
  split_and!; try done.
  - unfold has_link, link_key, getitem. rewrite Hl. destruct l; by eexists.
  - intros domain -> Hdom. subst skip. destruct l as [href|].
    + exists href. split; [done|]. injection Hskip as Hoff.
      exact (off_domain_false (Some domain) href domain Hoff eq_refl Hdom).
    + apply String.eqb_neq in Hdom. by rewrite Hdom in Hskip.
Qed.

Lemma length_omap_le {A B} (f : A → option B) (l : list A) :
  (length (omap f l) ≤ length l)%nat.
Proof.
  induction l as [|x l IH]; [done|].
  change (omap f (x :: l)) with (match f x with Some y => y :: omap f l | None => omap f l end).
  destruct (f x); cbn [length]; lia.
Qed.

Lemma extract_page_data_items self_name page_url page_num target_domain content :
  Forall (page_item self_name page_num target_domain)
         (_extract_page_data self_name page_url page_num target_domain content).
Proof.
  apply Forall_forall. intros item. unfold _extract_page_data.
  destruct content as [|links|result_items].
  - by intros ?%elem_of_nil.
  - intros (link & _ & Hitem)%list_elem_of_omap.
    by apply generic_item_shape in Hitem as (? & _).
  - intros (elem & _ & Hitem)%list_elem_of_omap.
    by apply engine_item_shape in Hitem.
Qed.

(** X27: the items that [_extract_page_data] makes of a page.  There
    is at most one per element, none when the page could not be read;
    each has a hashable link, the adapter's name as source, an empty
    thumbnail and the page number; with a target domain, every link is
    a string that contains it.  On a generic page every link is a
    non-empty string and no item has a description. *)
Theorem extract_page_data_shape self_name page_url page_num target_domain content :
  let out := _extract_page_data self_name page_url page_num target_domain content in
  (length out ≤ elements content)%nat ∧
  Forall (page_item self_name page_num target_domain) out ∧
  (∀ links, content = GenericPage links →
     Forall (λ item, item !! "description" = None ∧
                     ∃ href, item !! "link" = Some (VStr href) ∧ href ≠ EmptyString)
            out).
Proof.
  intros out. subst out. split_and!.
  - unfold _extract_page_data, elements.
    destruct content; [done|apply length_omap_le..].
  - apply extract_page_data_items.
  - intros links ->. apply Forall_forall. intros item. simpl.
    intros (link & _ & Hitem)%list_elem_of_omap.
    by apply generic_item_shape in Hitem as (_ & ? & ?).
Qed.

Lemma extract_page_data_shape_witness :
  Forall (λ item, item !! "description" = None ∧
                  ∃ href, item !! "link" = Some (VStr href) ∧ href ≠ EmptyString)
    (_extract_page_data "google" "https://example.com/a" 1 None
       (GenericPage [Link (Some "/b") (Some "B"); Link (Some "#top") None])).
Proof.
  exact (proj2 (proj2 (extract_page_data_shape "google" "https://example.com/a" 1 None
           (GenericPage [Link (Some "/b") (Some "B"); Link (Some "#top") None]))) _ eq_refl).
Defined.

(** The pagination loop reads consecutive pages, each reached over a
    next-page link, and appends what it extracts from them. *)
Lemma scrape_pages_Some self_name target_domain max_pages visits remaining page_num
    results out :
  scrape_pages self_name target_domain max_pages visits remaining page_num results
    = Some out →
  ∃ k, (k ≤ remaining)%nat ∧
    out = results ++
          concat ((λ p, _extract_page_data self_name (visit_url (visits p)) (Z.of_nat p)
                          target_domain (visit_content (visits p)))
                    <$> seq page_num k) ∧
    (∀ p, (page_num ≤ p)%nat → (S p < page_num + k)%nat →
          visit_next (visits p) = HasNext ∧ Z.of_nat p < max_pages).
Proof.
  revert page_num results. induction remaining as [|remaining IH];
    intros page_num results; cbn [scrape_pages].
  - intros [= <-]. exists 0%nat. split_and!; [done|by rewrite app_nil_r|lia].
  - destruct (max_pages <=? Z.of_nat page_num) eqn:Hlast.
    + intros [= <-]. exists 1%nat. split_and!; [lia| |lia].
      simpl. by rewrite app_nil_r.
    + apply Z.leb_gt in Hlast.
      destruct (visit_next (visits page_num)) eqn:Hnext; [| |done].
      * intros (k & Hk & -> & Hnexts)%IH. exists (S k). split_and!; [lia| |].
        -- simpl. by rewrite <- app_assoc.
        -- intros p Hp1 Hp2. destruct (decide (p = page_num)) as [->|Hne]; [done|].
           apply Hnexts; lia.
      * intros [= <-]. exists 1%nat. split_and!; [lia| |lia].
        simpl. by rewrite app_nil_r.
Qed.

Lemma playwright_scrape_items self_name browse keywords target_domain max_pages :
  Forall (λ item, ∃ p, 1 ≤ p ≤ max_pages ∧ page_item self_name p target_domain item)
         (PlaywrightScraper.scrape self_name browse keywords target_domain max_pages).
Proof.
  unfold PlaywrightScraper.scrape.
  destruct (browse _) as [|visits closes]; [constructor|].
  destruct (scrape_pages _ _ _ _ _ _ _) as [results|] eqn:Hloop; [|constructor].
  destruct closes; [|constructor].
  apply scrape_pages_Some in Hloop as (k & Hk & -> & _).
  apply Forall_forall. intros item. rewrite app_nil_l.
  intros (l & Hitem & Hl)%list_elem_of_In%in_concat.
  apply list_elem_of_In, list_elem_of_fmap in Hitem as (p & -> & Hp).
  apply list_elem_of_In in Hl. apply elem_of_seq in Hp.
  exists (Z.of_nat p). split; [lia|].
  pose proof (extract_page_data_items self_name (visit_url (visits p)) (Z.of_nat p)
                target_domain (visit_content (visits p))) as Hall.
  rewrite Forall_forall in Hall. by apply Hall.
Qed.



End playwright_facts.

(** ** A coordinator run with its adapters *)

Section run_facts.
Import Dedup Coordinator CoordinatorInit CoordinatorRun.

Lemma run_scraper_has_links s w keywords target_domain max_pages :
  Forall has_link (run_scraper s w keywords target_domain max_pages).
Proof.
  destruct s as [|name]; simpl.
  - unfold FirecrawlScraper.scrape. destruct (client w); [|constructor].
    assert (Forall has_link
              (FirecrawlScraper._extract_content true (extract w) keywords max_pages)).
    { destruct (extract_content_consistent true (extract w) keywords max_pages)
        as (st & -> & _ & _ & Hall & _). done. }
    destruct target_domain as [domain|]; [|done].
    destruct (String.eqb domain EmptyString); [done|].
    apply crawl_target_domain_has_link.
  - eapply Forall_impl; [apply playwright_scrape_items|].
    by intros item (p & _ & Hitem & _).
Qed.

Lemma gather_items scrapers worlds keywords target_domain max_pages :
  Forall has_link
    (returned_items (gather scrapers worlds keywords target_domain max_pages)).
Proof.
  apply Forall_forall. intros x.
  intros (t & result & Ht & Hout & Hx)%elem_of_returned_items.
  unfold gather in Ht. apply list_elem_of_lookup in Ht as [i Hi].
  rewrite list_lookup_imap in Hi.
  destruct (scrapers !! i) as [s|]; [|done]. injection Hi as <-.
  injection Hout as <-.
  pose proof (run_scraper_has_links s (worlds i) keywords target_domain max_pages) as H.
  rewrite Forall_forall in H. by apply H.
Qed.

(** X29: a run of the coordinator with adapters that
    [_initialize_scrapers] can build never raises, whatever the remote
    services and the browser do: it returns results with pairwise
    different links, each of them from one of the adapters, and lists
    as sources only names of its adapters. *)
Theorem coordinator_run_returns scrapers worlds keywords target_domain max_pages now :
  ∃ resp,
    CoordinatorRun.scrape scrapers worlds keywords target_domain max_pages now
      = Ok resp ∧
    NoDup (link_key <$> results resp) ∧
    (∀ item, item ∈ results resp →
       ∃ i s, scrapers !! i = Some s ∧
              item ∈ run_scraper s (worlds i) keywords target_domain max_pages) ∧
    (∀ n, n ∈ sources_used (metadata resp) → n ∈ scraper_name <$> scrapers).
Proof.
  unfold CoordinatorRun.scrape.
  destruct (scrape_total keywords target_domain now
              (gather scrapers worlds keywords target_domain max_pages))
    as [resp Hresp]; [apply gather_items|].
  exists resp. split; [done|].
  apply scrape_Ok in Hresp as (Hres & Hsrc & _). rewrite Hres, Hsrc. split_and!.
  - apply first_seen_NoDup.
  - intros item Hitem.
    assert (item ∈ returned_items
              (gather scrapers worlds keywords target_domain max_pages)) as Hin.
    { eapply elem_of_sublist; [done|apply first_seen_sublist]. }
    apply elem_of_returned_items in Hin as (t & result & Ht & Hout & Hx).
    unfold gather in Ht. apply list_elem_of_lookup in Ht as [i Hi].
    rewrite list_lookup_imap in Hi.
    destruct (scrapers !! i) as [s|] eqn:Hs; [|done]. injection Hi as <-.
    injection Hout as <-. by exists i, s.
  - intros n (t & Ht & <- & _)%productive_names.
    unfold gather in Ht. apply list_elem_of_lookup in Ht as [i Hi].
    rewrite list_lookup_imap in Hi.
    destruct (scrapers !! i) as [s|] eqn:Hs; [|done]. injection Hi as <-.
    apply list_elem_of_fmap. exists s. split; [done|].
    by eapply list_elem_of_lookup_2.
Qed.

End run_facts.

(** ** The text handed to [json.loads] *)

Section reply_text_facts.
Import PyStr ContentProcessor PlaywrightScraper ReplyText.

Implicit Types (s sep pre body post : string) (c : ascii).

Lemma append_nil_l s : EmptyString +:+ s = s.
Proof. reflexivity. Qed.

Lemma append_cons c s1 s2 : String c s1 +:+ s2 = String c (s1 +:+ s2).
Proof. reflexivity. Qed.

Lemma append_assoc s1 s2 s3 : (s1 +:+ s2) +:+ s3 = s1 +:+ (s2 +:+ s3).
Proof.
  induction s1 as [|c s1 IH]; [done|]. rewrite !append_cons. by f_equal.
Qed.

Lemma skip_app sep post : skip (String.length sep) (sep +:+ post) = post.
Proof.
  induction sep as [|c sep IH]; [by destruct post|].
  rewrite append_cons. cbn [String.length skip]. done.
Qed.

Lemma substring_trans sep s x pre post :
  substring sep s → x = pre +:+ s +:+ post → substring sep x.
Proof.
  intros (a & b & ->) ->. exists (pre +:+ a), (b +:+ post).
  by rewrite !append_assoc.
Qed.

(** [split_once] cuts at an occurrence of [sep] that has none before
    it. *)
Lemma split_once_Some sep s before after :
  sep ≠ EmptyString →
  split_once sep s = Some (before, after) →
  s = before +:+ sep +:+ after ∧ contains sep before = false.
Proof.
  intros Hsep. revert before. induction s as [|c s IH]; intros before.
  - cbn [split_once]. destruct (String.prefix sep EmptyString) eqn:Hp; [|done].
    apply prefix_spec in Hp as [post Hpost]. destruct sep; [done|discriminate].
  - cbn [split_once]. destruct (String.prefix sep (String c s)) eqn:Hp.
    + intros [= <- <-]. apply prefix_spec in Hp as [post Hpost].
      rewrite Hpost, skip_app. split; [done|].
      cbn [contains]. by destruct sep.
    + destruct (split_once sep s) as [[before' after']|] eqn:Hs; [|done].
      intros [= <- <-]. destruct (IH before' eq_refl) as [-> Hnone].
      split; [done|]. cbn [contains]. rewrite Hnone, orb_false_r.
      destruct (String.prefix sep (String c before')) eqn:Hp'; [|done].
      apply prefix_spec in Hp' as [x Hx].
      assert (String.prefix sep (String c (before' +:+ sep +:+ after')) = true) as Hp''.
      { apply prefix_spec. exists (x +:+ sep +:+ after').
        by rewrite <- append_cons, Hx, append_assoc. }
      congruence.
Qed.

Lemma split_once_None sep s : split_once sep s = None ↔ contains sep s = false.
Proof.
  induction s as [|c s IH]; cbn [split_once contains].
  - destruct (String.prefix sep EmptyString); [by split|done].
  - destruct (String.prefix sep (String c s)); [by split|]. cbn [orb].
    rewrite <- IH. by destruct (split_once sep s) as [[]|].
Qed.

(** A plain text before a fence moves the first fence to its end. *)
Lemma split_once_plain sep' pre rest :
  plain pre = true →
  split_once (String "`" sep') (pre +:+ String "`" sep' +:+ rest) = Some (pre, rest).
Proof.
  intros Hpre. induction pre as [|c pre IH].
  - rewrite append_nil_l.
    assert (String.prefix (String "`" sep') (String "`" sep' +:+ rest) = true) as Hp
      by (apply prefix_spec; by eexists).
    generalize (skip_app (String "`" sep') rest). revert Hp.
    rewrite append_cons. intros Hp Hskip. cbn [split_once]. by rewrite Hp, Hskip.
  - unfold plain in Hpre. cbn [all_chars] in Hpre.
    apply andb_true_iff in Hpre as [Hc Hpre].
    rewrite append_cons. cbn [split_once]. rewrite (IH Hpre).
    assert (String.prefix (String "`" sep')
              (String c (pre +:+ String "`" sep' +:+ rest)) = false) as ->; [|done].
    cbn [String.prefix]. destruct (Ascii.ascii_dec "`" c) as [<-|Hne]; [done|done].
Qed.

Lemma lstrip_suffix s : ∃ pre, s = pre +:+ lstrip s.
Proof.
  induction s as [|c s [pre IH]]; [by exists EmptyString|]. cbn [lstrip].
  destruct (isspace c); [|by exists EmptyString].
  exists (String c pre). rewrite append_cons. by rewrite <- IH.
Qed.

Lemma rstrip_prefix s : ∃ post, s = rstrip s +:+ post.
Proof.
  induction s as [|c s [post IH]]; [by exists EmptyString|]. cbn [rstrip].
  destruct (rstrip s) as [|c' r] eqn:Hr.
  - destruct (isspace c).
    + by exists (String c s).
    + exists post. rewrite append_cons. by rewrite <- IH.
  - exists post. rewrite append_cons. by rewrite <- IH.
Qed.

Lemma strip_inside s : ∃ pre post, s = pre +:+ strip s +:+ post.
Proof.
  unfold strip. destruct (lstrip_suffix s) as [pre Hpre].
  destruct (rstrip_prefix (lstrip s)) as [post Hpost].
  exists pre, post. by rewrite <- Hpost.
Qed.

Lemma contains_strip sep s : contains sep s = false → contains sep (strip s) = false.
Proof.
  intros Hs. destruct (contains sep (strip s)) eqn:Hc; [|done].
  apply contains_spec in Hc. destruct (strip_inside s) as (pre & post & Hx).
  apply (substring_trans sep _ s pre post) in Hc; [|done].
  apply contains_spec in Hc. congruence.
Qed.

Lemma part_0 a b : part 0 [a; b] = a.
Proof. reflexivity. Qed.

Lemma part_1 a b : part 1 [a; b] = b.
Proof. reflexivity. Qed.

(** What is between two fences has no fence in it. *)
Lemma fenced_part sep s :
  sep ≠ EmptyString →
  contains sep s = true →
  contains sep (strip (part 0 (split1 sep s))) = false.
Proof.
  intros Hsep Hs. unfold split1.
  destruct (split_once sep s) as [[before after]|] eqn:Hsplit.
  - apply split_once_Some in Hsplit as [_ Hnone]; [|done].
    rewrite part_0. by apply contains_strip.
  - apply split_once_None in Hsplit. congruence.
Qed.

(** X30: the text that [_enhance_item_with_openai] hands to
    [json.loads].  A reply without a backquote is taken as it is.
    From a reply [pre ```json body ``` post], and from a reply
    [pre ``` body ``` post] that does not announce JSON anywhere, with
    no backquote in [pre] and [body], the stripped [body] is taken.
    In every case the text is the reply itself or has no fence in
    it. *)
Theorem json_str_fenced response_text :
  (plain response_text = true → json_str response_text = response_text) ∧
  (∀ pre body post, plain pre = true → plain body = true →
     response_text = pre +:+ json_fence +:+ body +:+ fence +:+ post →
     json_str response_text = strip body) ∧
  (∀ pre body post, plain pre = true → plain body = true →
     contains json_fence response_text = false →
     response_text = pre +:+ fence +:+ body +:+ fence +:+ post →
     json_str response_text = strip body) ∧
  (json_str response_text = response_text ∨
   contains fence (json_str response_text) = false).
Proof.
  split_and!.
  - intros Hplain.
    assert (Hnone : ∀ sep', contains (String "`" sep') response_text = false).
    { intros sep'. unfold plain in Hplain.
      induction response_text as [|c s IH]; [done|].
      cbn [all_chars] in Hplain. apply andb_true_iff in Hplain as [Hc Hs].
      cbn [contains String.prefix]. rewrite (IH Hs), orb_false_r.
      destruct (Ascii.ascii_dec "`" c) as [<-|Hne]; done. }
    unfold json_str, json_fence, fence. by rewrite !Hnone.
  - intros pre body post Hpre Hbody ->. unfold json_str.
    assert (Hsplit : split1 json_fence (pre +:+ json_fence +:+ body +:+ fence +:+ post)
                     = [pre; body +:+ fence +:+ post]).
    { unfold split1, json_fence. by rewrite split_once_plain. }
    assert (Hinner : split1 fence (body +:+ fence +:+ post) = [body; post]).
    { unfold split1, fence. by rewrite split_once_plain. }
    rewrite Hsplit, part_1, Hinner, part_0.
    assert (contains json_fence (pre +:+ json_fence +:+ body +:+ fence +:+ post) = true)
      as -> by (apply contains_spec; by eexists _, _).
    assert (contains fence (body +:+ fence +:+ post) = true)
      as -> by (apply contains_spec; by eexists _, _).
    done.
  - intros pre body post Hpre Hbody Hnojson ->. unfold json_str.
    rewrite Hnojson. cbn [andb].
    assert (Hsplit : split1 fence (pre +:+ fence +:+ body +:+ fence +:+ post)
                     = [pre; body +:+ fence +:+ post]).
    { unfold split1, fence. by rewrite split_once_plain. }
    assert (Hinner : split1 fence (body +:+ fence +:+ post) = [body; post]).
    { unfold split1, fence. by rewrite split_once_plain. }
    rewrite Hsplit, part_1, Hinner, part_0.
    assert (contains fence (pre +:+ fence +:+ body +:+ fence +:+ post) = true)
      as -> by (apply contains_spec; by eexists _, _).
    assert (contains fence (body +:+ fence +:+ post) = true)
      as -> by (apply contains_spec; by eexists _, _).
    done.
  - unfold json_str.
    destruct (contains json_fence response_text
              && contains fence (part 1 (split1 json_fence response_text))) eqn:H1.
    + right. apply andb_true_iff in H1 as [_ H1]. by apply fenced_part.
    + destruct (contains fence response_text
                && contains fence (part 1 (split1 fence response_text))) eqn:H2.
      * right. apply andb_true_iff in H2 as [_ H2]. by apply fenced_part.
      * by left.
Qed.

Lemma json_str_fenced_witness :
  json_str "Here it is: ```json {} ``` done" = "{}" ∧
  json_str "[1, 2]" = "[1, 2]".
Proof.
  split.
  - etrans; [apply (proj1 (proj2 (json_str_fenced "Here it is: ```json {} ``` done"))
                      "Here it is: " " {} " " done"); reflexivity|].
    reflexivity.
  - by apply (proj1 (json_str_fenced "[1, 2]")).
Defined.

End reply_text_facts.
